(** * my-blockchain: the consensus nucleus, embedded and verified

    A shallow embedding of the server modules of the node:
      - [Transaction]  (modules/Transaction.js)
      - [Block] and [UTXOSet]  (modules/Block.js, modules/UTXOSet.js)
      - [Blockchain]  (modules/Blockchain.js)
      - [P2PNetwork]  (modules/P2PNetwork.js)
      - [MinerWallet], its addresses  (modules/MinerWallet.js)

    Conventions of the embedding.
      - JavaScript numbers that hold amounts, fees, heights and timestamps
        are integers of [Z]; the difficulty, a count of leading zeros, is
        a [nat].
      - [null] is [None]; the empty string is the only falsy string.
      - A [Map] is a [gmap]; an array is a [list].
      - [Date.now()] and [Math.random()] are read from an [Oracle]: the
        n-th call returns the n-th entry, and the number of calls made so
        far is part of the machine state ([Ticks]).
      - Library code outside the repository (node's [crypto], [secp256k1],
        [@cosmjs], [JSON.stringify]) is a [Host]: a theorem holds for
        every host, or for every host whose [Sha256] behaves as the one
        of the library does when it says so ([Sha256_throws]).
      - A [throw] is an [outcome] [Thrown] that keeps the state reached at
        the moment of the throw, since JavaScript does not roll back. *)

From Stdlib Require Import ZArith Lia.
From stdpp Require Import base option list strings pretty gmap sorting.

Local Open Scope Z_scope.

(** ** The JavaScript runtime *)

Module Js.

(** The exceptions of the modelled code. The source throws [Error]
    objects carrying a message; the constructor names the message. *)
Inductive exn : Type :=
| InsufficientFunds (required current : Z)  (* 余额不足: 需要 .., 当前 .. *)
| InvalidTransaction                        (* 无效的交易 *)
| CannotProcess                             (* 余额不足以处理此交易 *)
| Duplicate                                 (* 交易已存在于待处理队列中 *)
| InvalidMinedBlock                         (* 挖出的区块无效 *)
| TypeError                                 (* property read on undefined *)
| RangeError                                (* typed array offset out of bounds *)
| LibraryError.                             (* thrown by a host library *)

(** Results of code that touches no state. *)
Inductive result (A : Type) : Type :=
| Ok (a : A)
| Raise (e : exn).
Arguments Ok {A} a.
Arguments Raise {A} e.

Definition rbind {A B} (m : result A) (k : A → result B) : result B :=
  match m with Ok a => k a | Raise e => Raise e end.

(** [try { body } catch (error) { handler }] *)
Definition try_catch {A} (body : result A) (handler : exn → result A) : result A :=
  match body with Ok a => Ok a | Raise e => handler e end.

(** A host call that either returns or throws. *)
Definition of_host {A} (o : option A) : result A :=
  match o with Some a => Ok a | None => Raise LibraryError end.

(** [Date.now()] and the fragment [Math.random().toString(36).substr(2, 9)],
    as the sequences of values the successive calls return. *)
Record Oracle : Type := { dateNow : nat → Z; mathRandom : nat → string }.

(** How many calls of each were made so far. *)
Record Ticks : Type := { nowCalls : nat; randomCalls : nat }.

Definition ticks0 : Ticks := {| nowCalls := 0; randomCalls := 0 |}.

(** The counters after one more reading of the clock. *)
Definition tick_now (k : Ticks) : Ticks :=
  {| nowCalls := Datatypes.S (nowCalls k); randomCalls := randomCalls k |}.

(** Stateful code over a state [S]. *)
Inductive outcome (S A : Type) : Type :=
| Returned (a : A) (k : Ticks) (s : S)
| Thrown (e : exn) (k : Ticks) (s : S).
Arguments Returned {S A} a k s.
Arguments Thrown {S A} e k s.

Definition M (S A : Type) : Type := Ticks → S → outcome S A.

Definition ret {S A} (a : A) : M S A := λ k s, Returned a k s.
Definition throw {S A} (e : exn) : M S A := λ k s, Thrown e k s.
Definition bind {S A B} (m : M S A) (f : A → M S B) : M S B :=
  λ k s, match m k s with
         | Returned a k' s' => f a k' s'
         | Thrown e k' s' => Thrown e k' s'
         end.
Definition get {S} : M S S := λ k s, Returned s k s.
Definition put {S} (s : S) : M S unit := λ k _, Returned tt k s.
Definition modify {S} (f : S → S) : M S unit := λ k s, Returned tt k (f s).

(** [try { m } catch (error) { h error }] on stateful code. *)
Definition catch {S A} (m : M S A) (h : exn → M S A) : M S A :=
  λ k s, match m k s with
         | Returned a k' s' => Returned a k' s'
         | Thrown e k' s' => h e k' s'
         end.

Definition lift_result {S A} (r : result A) : M S A :=
  match r with Ok a => ret a | Raise e => throw e end.

(** Run code written for a component [T] of the state [S]. *)
Definition zoom {S T A} (proj : S → T) (upd : T → S → S) (m : M T A) : M S A :=
  λ k s, match m k (proj s) with
         | Returned a k' t => Returned a k' (upd t s)
         | Thrown e k' t => Thrown e k' (upd t s)
         end.

Definition Date_now {S} (ω : Oracle) : M S Z :=
  λ k s, Returned (dateNow ω (nowCalls k))
                  {| nowCalls := Datatypes.S (nowCalls k); randomCalls := randomCalls k |} s.

Definition Math_random36 {S} (ω : Oracle) : M S string :=
  λ k s, Returned (mathRandom ω (randomCalls k))
                  {| nowCalls := nowCalls k; randomCalls := Datatypes.S (randomCalls k) |} s.

(** [for (const x of xs) body(x)] *)
Fixpoint for_of {S A} (xs : list A) (body : A → M S unit) : M S unit :=
  match xs with
  | [] => ret tt
  | x :: xs' => bind (body x) (λ _, for_of xs' body)
  end.

Definition state_of {S A} (o : outcome S A) : S :=
  match o with Returned _ _ s => s | Thrown _ _ s => s end.

Definition ticks_of {S A} (o : outcome S A) : Ticks :=
  match o with Returned _ k _ => k | Thrown _ k _ => k end.

Definition returns {S A} (o : outcome S A) : bool :=
  match o with Returned _ _ _ => true | Thrown _ _ _ => false end.

(** [[...xs].sort((a, b) => key(b) - key(a))]: the stable sort of the
    language, descending by [key]; equal keys keep their order. *)
Fixpoint insert_desc {A} (key : A → Z) (x : A) (l : list A) : list A :=
  match l with
  | [] => [x]
  | y :: ys => if key x <? key y then y :: insert_desc key x ys else x :: y :: ys
  end.

Definition sort_desc {A} (key : A → Z) (l : list A) : list A :=
  foldr (insert_desc key) [] l.

(** Truthiness of a string and of a nullable string. *)
Definition truthy (x : string) : bool := negb (String.eqb x EmptyString).
Definition truthy_opt (x : option string) : bool :=
  match x with Some v => truthy v | None => false end.
(** [x || ''] *)
Definition or_empty (x : option string) : string :=
  match x with Some v => v | None => EmptyString end.

End Js.

Import Js.

Notation "'let*' x ':=' m 'in' f" := (Js.bind m (λ x, f))
  (at level 10, x pattern, m at level 100, f at level 200, only parsing).
Notation "'do*' m 'in' f" := (Js.bind m (λ _, f))
  (at level 10, m at level 100, f at level 200, only parsing).
Notation "'let?' x ':=' m 'in' f" := (Js.rbind m (λ x, f))
  (at level 10, x pattern, m at level 100, f at level 200, only parsing).

(** ** Host libraries *)

(** Code the repository calls but does not contain. A host function that
    can throw returns an [option]; [None] is the throw. *)
Class Host : Type := {
  (** [crypto.createHash('sha256').update(data).digest('hex')] *)
  sha256_hex : string → string;
  (** [crypto.createHash('sha256').update(bytes).digest()] *)
  sha256_digest : list Byte.byte → list Byte.byte;
  (** [crypto.createHash('ripemd160').update(bytes).digest().toString('hex')] *)
  ripemd160_hex : list Byte.byte → string;
  (** [fromHex] of [@cosmjs/encoding] *)
  fromHex : string → option (list Byte.byte);
  (** [new Uint8Array(Sha256(bytes))], [Sha256] of [@cosmjs/crypto] *)
  Sha256 : list Byte.byte → option (list Byte.byte);
  (** [secp256k1.ecdsaRecover(signature, recid, message)] *)
  ecdsaRecover : list Byte.byte → Z → list Byte.byte → option (list Byte.byte)
}.

(** [Sha256] of [@cosmjs/crypto] is a class. The source calls it as a
    function, [Sha256(bytes)], without [new], and a class constructor
    called without [new] throws a TypeError: with that library the call
    never returns a digest. *)
Definition Sha256_throws `{Host} : Prop := ∀ bytes, Sha256 bytes = None.

(** ** Transaction.js *)

Module Transaction.

Record Signature : Type := { r : string; s : string; recoveryId : Z }.

Record t : Type := {
  fromAddress : option string;
  toAddress : string;
  amount : Z;
  fee : Z;
  timestamp : Z;
  signature : option Signature;
  txId : string
}.

Definition set_amount (a : Z) (tx : t) : t :=
  {| fromAddress := fromAddress tx; toAddress := toAddress tx; amount := a;
     fee := fee tx; timestamp := timestamp tx; signature := signature tx;
     txId := txId tx |}.

Definition set_txId (i : string) (tx : t) : t :=
  {| fromAddress := fromAddress tx; toAddress := toAddress tx; amount := amount tx;
     fee := fee tx; timestamp := timestamp tx; signature := signature tx;
     txId := i |}.

(** [new Uint8Array(n)] *)
Definition Uint8Array (n : nat) : list Byte.byte := replicate n Byte.x00.

(** [target.set(source, offset)] on typed arrays: a source that does not
    fit throws a RangeError. *)
Definition typed_set (target source : list Byte.byte) (offset : nat)
  : result (list Byte.byte) :=
  if decide (offset + length source ≤ length target)%nat
  then Ok (take offset target ++ source ++ drop (offset + length source) target)
  else Raise RangeError.

Section WithHost.
Context `{Host}.

Definition calculateHash (tx : t) : string :=
  let data := or_empty (fromAddress tx) +:+ toAddress tx +:+ pretty (amount tx)
              +:+ pretty (fee tx) +:+ pretty (timestamp tx) in
  sha256_hex data.

Definition publicKeyToAddress (publicKey : list Byte.byte) : string :=
  let sha256Hash := sha256_digest publicKey in
  let ripemd160Hash := ripemd160_hex sha256Hash in
  "cosmos" +:+ String.substring 0 40 ripemd160Hash.

(** The body of the [try] block of [isValid], up to the derived
    address. *)
Definition recoverAddress (tx : t) (sig : Signature) : result string :=
  let hashTx := calculateHash tx in
  let? hashBytes := of_host (fromHex hashTx) in
  let? msgHash := of_host (Sha256 hashBytes) in
  let signatureBytes := Uint8Array 64 in
  let? rBytes := of_host (fromHex (r sig)) in
  let? signatureBytes := typed_set signatureBytes rBytes 0 in
  let? sBytes := of_host (fromHex (s sig)) in
  let? signatureBytes := typed_set signatureBytes sBytes 32 in
  let? publicKey := of_host (ecdsaRecover signatureBytes (recoveryId sig) msgHash) in
  Ok (publicKeyToAddress publicKey).

Definition isValid (tx : t) : result bool :=
  match fromAddress tx with
  | None => Ok (0 <? amount tx)
  | Some from =>
    match signature tx with
    | None => Ok false
    | Some sig =>
      if negb (truthy from) || negb (truthy (toAddress tx)) then Ok false
      else if amount tx <=? 0 then Ok false
      else if String.eqb from (toAddress tx) then Ok false
      else
        try_catch
          (let? derivedAddress := recoverAddress tx sig in
           if negb (String.eqb derivedAddress from) then Ok false else Ok true)
          (λ error, Ok false)
    end
  end.

Definition getTotalInput (tx : t) : Z := amount tx + fee tx.

Definition isCoinbase (tx : t) : bool :=
  match fromAddress tx with None => true | Some _ => false end.

End WithHost.

(** [new Transaction(fromAddress, toAddress, amount, fee)]: reads the
    clock once. *)
Definition new `{Host} {S} (ω : Oracle) (from : option string) (to : string)
    (amt fe : Z) : M S t :=
  let* now := Date_now ω in
  let tx := {| fromAddress := from; toAddress := to; amount := amt; fee := fe;
               timestamp := now; signature := None; txId := EmptyString |} in
  Js.ret (set_txId (calculateHash tx) tx).

(** [Transaction.fromJSON(data)]: constructs, then overwrites [txId],
    [timestamp] and [signature] with the data's. *)
Definition fromJSON `{Host} {S} (ω : Oracle) (data : t) : M S t :=
  let* tx := new ω (fromAddress data) (toAddress data) (amount data) (fee data) in
  Js.ret {| fromAddress := fromAddress tx; toAddress := toAddress tx;
            amount := amount tx; fee := fee tx; timestamp := timestamp data;
            signature := signature data; txId := txId data |}.

Definition createCoinbaseTransaction `{Host} {S} (ω : Oracle) (to : string)
    (amt : Z) : M S t :=
  new ω None to amt 0.

(** The two refusals of [createTransferTransaction]. *)
Inductive refusal : Type :=
| MissingAddress        (* 发送方和接收方地址不能为空 *)
| NonPositiveAmount.    (* 转账金额必须大于0 *)

(** [Transaction.createTransferTransaction(from, to, amount, fee)]. A
    refusal ([inl]) is the throw; it comes before the constructor runs. *)
Definition createTransferTransaction `{Host} {S} (ω : Oracle) (from : option string)
    (to : string) (amt fe : Z) : M S (refusal + t) :=
  if negb (truthy_opt from) || negb (truthy to) then Js.ret (inl MissingAddress)
  else if amt <=? 0 then Js.ret (inl NonPositiveAmount)
  else
    let* tx := new ω from to amt fe in
    Js.ret (inr tx).

End Transaction.

(** [JSON.stringify] of a transaction array, used by the block hash. *)
Class Json : Type := { JSON_stringify : list Transaction.t → string }.

(** ** UTXOSet.js *)

Module UTXOSet.

Record UTXO : Type := { txId : string; amount : Z; outputIndex : Z; timestamp : Z }.

Record t : Type := {
  utxos : gmap string (list UTXO);   (* address -> outputs *)
  balances : gmap string Z           (* address -> total balance *)
}.

(** [new UTXOSet()] *)
Definition empty : t := {| utxos := ∅; balances := ∅ |}.

Record SpendResult : Type :=
  { spentUTXOs : list UTXO; change : Z; totalSpent : Z }.

(** [this.balances.get(address) || 0] *)
Definition getBalance (u : t) (address : string) : Z :=
  default 0 (balances u !! address).

(** [this.utxos.get(address) || []] *)
Definition getUTXOs (u : t) (address : string) : list UTXO :=
  default [] (utxos u !! address).

(** [Date.now().toString() + Math.random().toString(36).substr(2, 9)] *)
Definition generateTxId (ω : Oracle) : M t string :=
  let* now := Date_now ω in
  let* rnd := Math_random36 ω in
  Js.ret (pretty now +:+ rnd).

Definition addUTXO (ω : Oracle) (address id : string) (amt : Z) (outIdx : Z)
  : M t unit :=
  let* now := Date_now ω in
  let utxo := {| txId := id; amount := amt; outputIndex := outIdx; timestamp := now |} in
  Js.modify (λ u,
    {| utxos := <[address := getUTXOs u address ++ [utxo]]> (utxos u);
       balances := <[address := getBalance u address + amt]> (balances u) |}).

(** The selection loop of [spendUTXO]: outputs are taken in the sorted
    order until the total reaches the amount. *)
Fixpoint select (sorted : list UTXO) (amt : Z) (toSpend : list UTXO)
    (totalSelected : Z) : list UTXO * Z :=
  match sorted with
  | [] => (toSpend, totalSelected)
  | utxo :: rest =>
    if amt <=? totalSelected then (toSpend, totalSelected)
    else select rest amt (toSpend ++ [utxo]) (totalSelected + amount utxo)
  end.

(** The predicate of the [findIndex] call. *)
Definition same_output (spent utxo : UTXO) : bool :=
  String.eqb (txId utxo) (txId spent) && (outputIndex utxo =? outputIndex spent).

(** [findIndex] followed by [splice(index, 1)] when an index is found. *)
Fixpoint splice_first (spent : UTXO) (l : list UTXO) : list UTXO :=
  match l with
  | [] => []
  | utxo :: l' => if same_output spent utxo then l' else utxo :: splice_first spent l'
  end.

Definition remove_spent (toSpend : list UTXO) (addressUTXOs : list UTXO) : list UTXO :=
  foldl (λ acc spent, splice_first spent acc) addressUTXOs toSpend.

Definition spendUTXO (ω : Oracle) (address : string) (amt : Z) : M t SpendResult :=
  let* u := Js.get in
  let addressUTXOs := getUTXOs u address in
  if getBalance u address <? amt
  then Js.throw (InsufficientFunds amt (getBalance u address))
  else
    let sortedUTXOs := sort_desc amount addressUTXOs in
    let '(toSpend, totalSelected) := select sortedUTXOs amt [] 0 in
    (* the splices act on the stored array when the address has one *)
    do* Js.modify (λ u,
          {| utxos := match utxos u !! address with
                      | Some stored => <[address := remove_spent toSpend stored]> (utxos u)
                      | None => utxos u
                      end;
             balances := balances u |}) in
    do* Js.modify (λ u,
          {| utxos := utxos u;
             balances := <[address := getBalance u address - amt]> (balances u) |}) in
    let chg := totalSelected - amt in
    do* (if 0 <? chg
         then let* changeTxId := generateTxId ω in addUTXO ω address changeTxId chg 1
         else Js.ret tt) in
    Js.ret {| spentUTXOs := toSpend; change := chg; totalSpent := totalSelected |}.

Definition processTransaction (ω : Oracle) (transaction : Transaction.t) : M t unit :=
  match Transaction.fromAddress transaction with
  | None =>
    addUTXO ω (Transaction.toAddress transaction) (Transaction.txId transaction)
            (Transaction.amount transaction) 0
  | Some from =>
    Js.catch
      (let* spendResult :=
         spendUTXO ω from (Transaction.amount transaction + Transaction.fee transaction) in
       addUTXO ω (Transaction.toAddress transaction) (Transaction.txId transaction)
               (Transaction.amount transaction) 0)
      (λ error, Js.throw error)
  end.

Definition canProcessTransaction (u : t) (transaction : Transaction.t) : bool :=
  match Transaction.fromAddress transaction with
  | None => true
  | Some from =>
    let requiredAmount := Transaction.amount transaction + Transaction.fee transaction in
    let availableBalance := getBalance u from in
    requiredAmount <=? availableBalance
  end.

Definition clear : M t unit := Js.put empty.

(** The sum of the amounts of the outputs recorded for an address. *)
Definition total (l : list UTXO) : Z := foldr (λ utxo acc, amount utxo + acc) 0 l.

Definition outputs_sum (u : t) (address : string) : Z := total (getUTXOs u address).

(** What [findIndex] tells outputs apart by. *)
Definition key (utxo : UTXO) : string * Z := (txId utxo, outputIndex utxo).

(** [getTotalSupply]: the sum of all cached balances. *)
Definition getTotalSupply (u : t) : Z :=
  map_fold (λ _ balance total, total + balance) 0 (balances u).

(** The object [toJSON] returns and [fromJSON] reads: the entries of the
    two maps; a field can be missing from the data. *)
Record Data : Type := {
  data_utxos : option (list (string * list UTXO));
  data_balances : option (list (string * Z))
}.

(** [new Map(entries)]: a later entry replaces an earlier one of the
    same key. *)
Definition Map_of {V} (entries : list (string * V)) : gmap string V :=
  foldl (λ m e, <[e.1 := e.2]> m) ∅ entries.

(** [toJSON]: [Array.from(map.entries())] of both maps. The script lists
    the entries in insertion order, which a [gmap] does not keep; this
    lists them in the order of [map_to_list]. *)
Definition toJSON (u : t) : Data :=
  {| data_utxos := Some (map_to_list (utxos u));
     data_balances := Some (map_to_list (balances u)) |}.

(** [UTXOSet.fromJSON(data)]: a missing field leaves the fresh map. *)
Definition fromJSON (data : Data) : t :=
  {| utxos := match data_utxos data with Some es => Map_of es | None => ∅ end;
     balances := match data_balances data with Some es => Map_of es | None => ∅ end |}.

End UTXOSet.

(** ** Block.js *)

Module Block.

Record t : Type := {
  index : Z;
  previousHash : string;
  timestamp : Z;
  transactions : list Transaction.t;
  nonce : Z;
  hash : string;
  merkleRoot : string
}.

Definition zeros (n : nat) : string := String.concat EmptyString (replicate n "0").

Section WithHost.
Context `{Host} `{Json}.

Definition hash_of (idx : Z) (prev : string) (ts : Z)
    (txs : list Transaction.t) (nc : Z) : string :=
  sha256_hex (pretty idx +:+ prev +:+ pretty ts +:+ JSON_stringify txs +:+ pretty nc).

Definition calculateHash (b : t) : string :=
  hash_of (index b) (previousHash b) (timestamp b) (transactions b) (nonce b).

(** One level of [buildMerkleTree]; an odd level pairs its last hash
    with itself ([hashes[i + 1] || hashes[i]]). *)
Fixpoint merkleLevel (hashes : list string) : list string :=
  match hashes with
  | [] => []
  | [lft] => [sha256_hex (lft +:+ lft)]
  | lft :: rgt :: rest =>
    sha256_hex (lft +:+ (if truthy rgt then rgt else lft)) :: merkleLevel rest
  end.

Fixpoint buildMerkleTree (fuel : nat) (hashes : list string) : string :=
  match hashes, fuel with
  | [h], _ => h
  | _, O => EmptyString
  | _, S fuel' => buildMerkleTree fuel' (merkleLevel hashes)
  end.

Definition calculateMerkleRoot (txs : list Transaction.t) : string :=
  match txs with
  | [] => sha256_hex EmptyString
  | _ => let txHashes := map Transaction.calculateHash txs in
         buildMerkleTree (length txHashes) txHashes
  end.

(** [new Block(index, previousHash, timestamp, transactions, nonce)] *)
Definition new (idx : Z) (prev : string) (ts : Z) (txs : list Transaction.t)
    (nc : Z) : t :=
  {| index := idx; previousHash := prev; timestamp := ts; transactions := txs;
     nonce := nc; hash := hash_of idx prev ts txs nc;
     merkleRoot := calculateMerkleRoot txs |}.

Definition meets_target (difficulty : nat) (h : string) : bool :=
  String.eqb (String.substring 0 difficulty h) (zeros difficulty).

(** The proof-of-work loop, cut off after [fuel] nonces. *)
Fixpoint mineBlock (fuel : nat) (difficulty : nat) (b : t) : option t :=
  if meets_target difficulty (hash b) then Some b
  else match fuel with
       | O => None
       | S fuel' =>
         let nc := nonce b + 1 in
         mineBlock fuel' difficulty
           {| index := index b; previousHash := previousHash b;
              timestamp := timestamp b; transactions := transactions b;
              nonce := nc;
              hash := hash_of (index b) (previousHash b) (timestamp b)
                              (transactions b) nc;
              merkleRoot := merkleRoot b |}
       end.

(** [hasValidTransactions]: false at the first invalid member. *)
Fixpoint hasValidTransactions_of (txs : list Transaction.t) : result bool :=
  match txs with
  | [] => Ok true
  | tx :: rest =>
    let? valid := Transaction.isValid tx in
    if negb valid then Ok false else hasValidTransactions_of rest
  end.

Definition hasValidTransactions (b : t) : result bool :=
  hasValidTransactions_of (transactions b).

Definition hasValidHash (b : t) : bool := String.eqb (hash b) (calculateHash b).

Definition getTotalFees (b : t) : Z :=
  foldl (λ total tx, total + Transaction.fee tx) 0 (transactions b).

End WithHost.

(** [Block.createGenesisBlock()] *)
Definition createGenesisBlock `{Host} `{Json} {S} (ω : Oracle) : M S t :=
  let* now := Date_now ω in
  let genesisBlock := new 0 "0" now [] 0 in
  Js.ret {| index := index genesisBlock; previousHash := previousHash genesisBlock;
            timestamp := timestamp genesisBlock;
            transactions := transactions genesisBlock; nonce := nonce genesisBlock;
            hash := calculateHash genesisBlock;
            merkleRoot := merkleRoot genesisBlock |}.

(** [Block.fromJSON(data)]: every member is rebuilt by
    [Transaction.fromJSON]; the block keeps the data's [hash] and
    [merkleRoot]. *)
Fixpoint txs_fromJSON `{Host} {S} (ω : Oracle) (txs : list Transaction.t)
  : M S (list Transaction.t) :=
  match txs with
  | [] => Js.ret []
  | txData :: rest =>
    let* tx := Transaction.fromJSON ω txData in
    let* rest' := txs_fromJSON ω rest in
    Js.ret (tx :: rest')
  end.

Definition fromJSON `{Host} {S} (ω : Oracle) (data : t) : M S t :=
  let* txs := txs_fromJSON ω (transactions data) in
  Js.ret {| index := index data; previousHash := previousHash data;
            timestamp := timestamp data; transactions := txs;
            nonce := nonce data; hash := hash data;
            merkleRoot := merkleRoot data |}.

End Block.

(** ** Blockchain.js *)

Module Blockchain.

Record t : Type := {
  chain : list Block.t;
  difficulty : nat;
  pendingTransactions : list Transaction.t;
  miningReward : Z;
  utxoSet : UTXOSet.t;
  minerWallet : string;                (* [this.minerWallet.getAddress()] *)
  blockTime : Z;
  difficultyAdjustmentInterval : Z
}.

(** [new Blockchain()], for a miner wallet of the given address. *)
Definition new (miner : string) : t :=
  {| chain := []; difficulty := 2; pendingTransactions := []; miningReward := 50;
     utxoSet := UTXOSet.empty; minerWallet := miner; blockTime := 10000;
     difficultyAdjustmentInterval := 10 |}.

Definition set_chain (c : list Block.t) (bc : t) : t :=
  {| chain := c; difficulty := difficulty bc;
     pendingTransactions := pendingTransactions bc; miningReward := miningReward bc;
     utxoSet := utxoSet bc; minerWallet := minerWallet bc; blockTime := blockTime bc;
     difficultyAdjustmentInterval := difficultyAdjustmentInterval bc |}.

Definition set_difficulty (d : nat) (bc : t) : t :=
  {| chain := chain bc; difficulty := d;
     pendingTransactions := pendingTransactions bc; miningReward := miningReward bc;
     utxoSet := utxoSet bc; minerWallet := minerWallet bc; blockTime := blockTime bc;
     difficultyAdjustmentInterval := difficultyAdjustmentInterval bc |}.

Definition set_pendingTransactions (p : list Transaction.t) (bc : t) : t :=
  {| chain := chain bc; difficulty := difficulty bc;
     pendingTransactions := p; miningReward := miningReward bc;
     utxoSet := utxoSet bc; minerWallet := minerWallet bc; blockTime := blockTime bc;
     difficultyAdjustmentInterval := difficultyAdjustmentInterval bc |}.

Definition set_utxoSet (u : UTXOSet.t) (bc : t) : t :=
  {| chain := chain bc; difficulty := difficulty bc;
     pendingTransactions := pendingTransactions bc; miningReward := miningReward bc;
     utxoSet := u; minerWallet := minerWallet bc; blockTime := blockTime bc;
     difficultyAdjustmentInterval := difficultyAdjustmentInterval bc |}.

(** Code of [this.utxoSet] run on the chain object. *)
Definition on_utxoSet {A} (m : M UTXOSet.t A) : M t A := Js.zoom utxoSet set_utxoSet m.

(** [this.chain[this.chain.length - 1]]; [None] is [undefined]. *)
Definition getLatestBlock (bc : t) : option Block.t := last (chain bc).

(** [this.chain[i]] for a number [i]; [None] is [undefined]. *)
Definition chain_at (bc : t) (i : Z) : option Block.t :=
  if i <? 0 then None else chain bc !! Z.to_nat i.

Definition getBalance (bc : t) (address : string) : Z :=
  UTXOSet.getBalance (utxoSet bc) address.

(** The pending transactions that go into the next block, in block
    order: those the ledger can process one by one, by descending fee,
    at most [maxTransactions - 1] of them. *)
Definition sortedPending (bc : t) : list Transaction.t :=
  let maxTransactions := 100%nat in
  take (maxTransactions - 1)
       (sort_desc Transaction.fee
          (filter (λ tx, UTXOSet.canProcessTransaction (utxoSet bc) tx = true)
                  (pendingTransactions bc))).

(** [selectTransactionsForBlock(transactions)]: returns the array after
    the pushes together with the fee total. *)
Definition selectTransactionsForBlock (bc : t) (transactions : list Transaction.t)
  : list Transaction.t * Z :=
  foldl (λ '(txs, totalFees) tx, (txs ++ [tx], totalFees + Transaction.fee tx))
        (transactions, 0) (sortedPending bc).

Definition removePendingTransactions (processedTransactions : list Transaction.t)
  : M t unit :=
  let processedTxIds :=
    map Transaction.txId
        (filter (λ tx, truthy (Transaction.txId tx) = true) processedTransactions) in
  Js.modify (λ bc,
    set_pendingTransactions
      (filter (λ tx, Transaction.txId tx ∉ processedTxIds) (pendingTransactions bc))
      bc).

(** [adjustDifficulty]. [timeActual < timeExpected / 2] is a comparison
    of an integer with a half, written without the division. *)
Definition adjustDifficulty : M t unit :=
  let* bc := Js.get in
  match getLatestBlock bc with
  | None => Js.throw TypeError
  | Some latestBlock =>
    if negb (Z.rem (Block.index latestBlock) (difficultyAdjustmentInterval bc) =? 0)
       || (Block.index latestBlock =? 0)
    then Js.ret tt
    else
      match chain_at bc (Z.of_nat (length (chain bc)) - difficultyAdjustmentInterval bc) with
      | None => Js.throw TypeError
      | Some prevAdjustmentBlock =>
        let timeExpected := blockTime bc * difficultyAdjustmentInterval bc in
        let timeActual := Block.timestamp latestBlock - Block.timestamp prevAdjustmentBlock in
        if 2 * timeActual <? timeExpected
        then Js.put (set_difficulty (S (difficulty bc)) bc)
        else if timeExpected * 2 <? timeActual
        then Js.put (set_difficulty (Nat.max 1 (difficulty bc - 1)) bc)
        else Js.ret tt
      end
  end.

Section WithHost.
Context `{Host} `{Json}.

Definition isValidNewBlock (bc : t) (newBlock previousBlock : Block.t) : result bool :=
  if negb (Block.index newBlock =? Block.index previousBlock + 1) then Ok false
  else if negb (String.eqb (Block.previousHash newBlock) (Block.hash previousBlock))
  then Ok false
  else if negb (Block.hasValidHash newBlock) then Ok false
  else if negb (Block.meets_target (difficulty bc) (Block.hash newBlock)) then Ok false
  else
    let? valid := Block.hasValidTransactions newBlock in
    if negb valid then Ok false else Ok true.

(** The loop of [isValidChain] and of [isChainValid], from the block
    after [previousBlock]. *)
Fixpoint isValidChain_from (bc : t) (previousBlock : Block.t) (rest : list Block.t)
  : result bool :=
  match rest with
  | [] => Ok true
  | currentBlock :: rest' =>
    let? valid := isValidNewBlock bc currentBlock previousBlock in
    if negb valid then Ok false else isValidChain_from bc currentBlock rest'
  end.

Definition isValidChain (bc : t) (c : list Block.t) : result bool :=
  match c with
  | [] => Ok true
  | genesis :: rest => isValidChain_from bc genesis rest
  end.

Definition isChainValid (bc : t) : result bool := isValidChain bc (chain bc).

Definition addTransaction (transaction : Transaction.t) : M t string :=
  let* valid := Js.lift_result (Transaction.isValid transaction) in
  if negb valid then Js.throw InvalidTransaction
  else
    let* bc := Js.get in
    if negb (UTXOSet.canProcessTransaction (utxoSet bc) transaction)
    then Js.throw CannotProcess
    else if existsb (λ tx, String.eqb (Transaction.txId tx) (Transaction.txId transaction))
                    (pendingTransactions bc)
    then Js.throw Duplicate
    else
      do* Js.put (set_pendingTransactions (pendingTransactions bc ++ [transaction]) bc) in
      Js.ret (Transaction.txId transaction).

(** [rebuildUTXOSet]: clear, then process every transaction of every
    block in chain order; a throw of [processTransaction] ends it. *)
Definition rebuildUTXOSet (ω : Oracle) : M t unit :=
  let* bc := Js.get in
  on_utxoSet
    (do* UTXOSet.clear in
     Js.for_of (chain bc) (λ block,
       Js.for_of (Block.transactions block) (UTXOSet.processTransaction ω))).

(** [replaceChain]. [rebuildUTXOSet] is an async function called
    without [await]: it runs to its end or to its throw at once, and a
    throw rejects a promise nobody reads. *)
Definition replaceChain (ω : Oracle) (newChain : list Block.t) : M t bool :=
  let* bc := Js.get in
  let* accepted :=
    (if bool_decide (length (chain bc) < length newChain)%nat
     then Js.lift_result (isValidChain bc newChain)
     else Js.ret false) in
  if accepted
  then
    do* Js.modify (set_chain newChain) in
    do* Js.catch (rebuildUTXOSet ω) (λ _, Js.ret tt) in
    Js.ret true
  else Js.ret false.

(** [coinbaseTx.amount += fees] acts on the object that is the first
    member of [validTransactions]. *)
Definition add_fees (fees : Z) (validTransactions : list Transaction.t)
  : list Transaction.t :=
  match validTransactions with
  | [] => []
  | coinbaseTx :: rest =>
    Transaction.set_amount (Transaction.amount coinbaseTx + fees) coinbaseTx :: rest
  end.

Record Mined : Type := { block : Block.t; reward : Z }.

(** [mineBlock(minerAddress)]. The proof-of-work loop runs for at most
    [fuel] nonces; [None] is a loop still running then, which has
    changed nothing but the clock. *)
Definition mineBlock (ω : Oracle) (fuel : nat) (minerAddress : option string)
  : M t (option Mined) :=
  let* bc := Js.get in
  let miner := if truthy_opt minerAddress then or_empty minerAddress
               else minerWallet bc in
  let* coinbaseTx := Transaction.createCoinbaseTransaction ω miner (miningReward bc) in
  let '(validTransactions, fees) := selectTransactionsForBlock bc [coinbaseTx] in
  let validTransactions :=
    if 0 <? fees then add_fees fees validTransactions else validTransactions in
  match getLatestBlock bc with
  | None => Js.throw TypeError
  | Some latestBlock =>
    let* now := Date_now ω in
    let newBlock := Block.new (Block.index latestBlock + 1) (Block.hash latestBlock)
                              now validTransactions 0 in
    let* startTime := Date_now ω in
    match Block.mineBlock fuel (difficulty bc) newBlock with
    | None => Js.ret None
    | Some newBlock =>
      let* endTime := Date_now ω in
      let* valid := Js.lift_result (isValidNewBlock bc newBlock latestBlock) in
      if negb valid then Js.throw InvalidMinedBlock
      else
        do* Js.modify (λ bc, set_chain (chain bc ++ [newBlock]) bc) in
        do* on_utxoSet (Js.for_of validTransactions (UTXOSet.processTransaction ω)) in
        do* removePendingTransactions validTransactions in
        do* adjustDifficulty in
        let* saved := Date_now ω in     (* [saveToFile] stamps the snapshot *)
        Js.ret (Some {| block := newBlock;
                        reward := default 0 (Transaction.amount <$> head validTransactions) |})
    end
  end.

(** [createGenesisBlock]: the genesis block gets one coinbase of ten
    rewards for the miner wallet; its hash is computed again, its Merkle
    root is not. *)
Definition createGenesisBlock (ω : Oracle) : M t unit :=
  let* genesisBlock := Block.createGenesisBlock ω in
  let* bc := Js.get in
  let* initialReward :=
    Transaction.createCoinbaseTransaction ω (minerWallet bc) (miningReward bc * 10) in
  let withReward :=
    {| Block.index := Block.index genesisBlock;
       Block.previousHash := Block.previousHash genesisBlock;
       Block.timestamp := Block.timestamp genesisBlock;
       Block.transactions := [initialReward];
       Block.nonce := Block.nonce genesisBlock;
       Block.hash := Block.hash genesisBlock;
       Block.merkleRoot := Block.merkleRoot genesisBlock |} in
  let genesisBlock :=
    {| Block.index := Block.index withReward;
       Block.previousHash := Block.previousHash withReward;
       Block.timestamp := Block.timestamp withReward;
       Block.transactions := Block.transactions withReward;
       Block.nonce := Block.nonce withReward;
       Block.hash := Block.calculateHash withReward;
       Block.merkleRoot := Block.merkleRoot withReward |} in
  do* Js.modify (λ bc, set_chain (chain bc ++ [genesisBlock]) bc) in
  on_utxoSet (UTXOSet.processTransaction ω initialReward).

(** [getBlockByHash(hash)]: the first block of the chain with that hash. *)
Definition getBlockByHash (bc : t) (h : string) : option Block.t :=
  snd <$> list_find (λ b, Block.hash b = h) (chain bc).

End WithHost.

End Blockchain.

(** ** P2PNetwork.js *)

Module P2PNetwork.

Inductive MessageType : Type :=
| REQUEST_CHAIN | RECEIVE_CHAIN | REQUEST_LATEST_BLOCK | RECEIVE_LATEST_BLOCK
| NEW_TRANSACTION | NEW_BLOCK | PEER_HANDSHAKE | PING | PONG.

Inductive Payload : Type :=
| NoData
| TxData (tx : Transaction.t)
| BlockData (b : Block.t)
| ChainData (c : list Block.t)
| HandshakeData (height : Z)
| TimeData (ts : Z).

Record Peer : Type := {
  isOpen : bool;          (* [peer.ws.readyState === WebSocket.OPEN] *)
  connectedAt : Z;
  lastPing : Z;
  chainHeight : Z
}.

(** A frame handed to [ws.send] of the peer [dest]. *)
Record Frame : Type :=
  { dest : string; type : MessageType; data : Payload; timestamp : Z }.

Inductive Event : Type :=
| chainUpdated (newChain : list Block.t)
| blockReceived (b : Block.t).

Record t : Type := {
  blockchain : Blockchain.t;
  peers : list (string * Peer);   (* the [Map], in insertion order *)
  wire : list Frame;              (* every frame sent so far, oldest first *)
  emitted : list Event
}.

Definition set_blockchain (bc : Blockchain.t) (n : t) : t :=
  {| blockchain := bc; peers := peers n; wire := wire n; emitted := emitted n |}.

Definition on_blockchain {A} (m : M Blockchain.t A) : M t A :=
  Js.zoom blockchain set_blockchain m.

Definition emit (e : Event) : M t unit :=
  Js.modify (λ n, {| blockchain := blockchain n; peers := peers n; wire := wire n;
                     emitted := emitted n ++ [e] |}).

Definition update_peer (peerId : string) (f : Peer → Peer) : M t unit :=
  Js.modify (λ n,
    {| blockchain := blockchain n;
       peers := map (λ '(i, p), if String.eqb i peerId then (i, f p) else (i, p)) (peers n);
       wire := wire n; emitted := emitted n |}).

(** [sendMessage(ws, type, data)] on the socket of [peerId]. *)
Definition sendMessage (ω : Oracle) (peerId : string) (ty : MessageType) (d : Payload)
  : M t unit :=
  let* now := Date_now ω in
  Js.modify (λ n,
    {| blockchain := blockchain n; peers := peers n;
       wire := wire n ++ [{| dest := peerId; type := ty; data := d; timestamp := now |}];
       emitted := emitted n |}).

Definition sendToPeer (ω : Oracle) (peerId : string) (peer : Peer) (ty : MessageType)
    (d : Payload) : M t unit :=
  if isOpen peer then sendMessage ω peerId ty d else Js.ret tt.

(** [broadcastMessage(type, data, excludeId = null)] *)
Definition broadcastMessage (ω : Oracle) (ty : MessageType) (d : Payload)
    (excludeId : option string) : M t unit :=
  let* n := Js.get in
  Js.for_of (peers n) (λ '(peerId, peer),
    if truthy_opt excludeId && String.eqb peerId (or_empty excludeId) then Js.ret tt
    else if isOpen peer then sendToPeer ω peerId peer ty d
    else Js.ret tt).

Definition requestChain (ω : Oracle) (peerId : string) (peer : Peer) : M t unit :=
  sendToPeer ω peerId peer REQUEST_CHAIN NoData.

Section WithHost.
Context `{Host} `{Json}.

(** [this.blockchain.chain.push(b)] and the loop over its transactions. *)
Definition push_and_process (ω : Oracle) (b : Block.t) : M t unit :=
  on_blockchain
    (do* Js.modify (λ bc, Blockchain.set_chain (Blockchain.chain bc ++ [b]) bc) in
     Blockchain.on_utxoSet
       (Js.for_of (Block.transactions b) (UTXOSet.processTransaction ω))).

Definition handleNewTransaction (ω : Oracle) (transactionData : Transaction.t)
  : M t unit :=
  Js.catch
    (let* transaction := Transaction.fromJSON ω transactionData in
     let* valid := Js.lift_result (Transaction.isValid transaction) in
     let* n := Js.get in
     if valid && UTXOSet.canProcessTransaction
                   (Blockchain.utxoSet (blockchain n)) transaction
     then
       let* _ := on_blockchain (Blockchain.addTransaction transaction) in
       broadcastMessage ω NEW_TRANSACTION (TxData transactionData)
                        (Some (Transaction.txId transaction))
     else Js.ret tt)
    (λ error, Js.ret tt).

Definition handleNewBlock (ω : Oracle) (blockData : Block.t) : M t unit :=
  Js.catch
    (let* newBlock := Block.fromJSON ω blockData in
     let* n := Js.get in
     match Blockchain.getLatestBlock (blockchain n) with
     | None => Js.throw TypeError
     | Some latestBlock =>
       let* valid := Js.lift_result
                       (Blockchain.isValidNewBlock (blockchain n) newBlock latestBlock) in
       if valid then
         do* push_and_process ω newBlock in
         do* emit (blockReceived newBlock) in
         broadcastMessage ω NEW_BLOCK (BlockData blockData) (Some (Block.hash newBlock))
       else Js.ret tt
     end)
    (λ error, Js.ret tt).

Definition handleReceiveLatestBlock (ω : Oracle) (blockData : Block.t) : M t unit :=
  Js.catch
    (let* receivedBlock := Block.fromJSON ω blockData in
     let* n := Js.get in
     match Blockchain.getLatestBlock (blockchain n) with
     | None => Js.throw TypeError
     | Some latestBlock =>
       if (Block.index receivedBlock =? Block.index latestBlock + 1)
          && String.eqb (Block.previousHash receivedBlock) (Block.hash latestBlock)
       then
         let* valid := Js.lift_result
                         (Blockchain.isValidNewBlock (blockchain n) receivedBlock
                                                     latestBlock) in
         if valid then
           do* push_and_process ω receivedBlock in
           emit (blockReceived receivedBlock)
         else Js.ret tt
       else broadcastMessage ω REQUEST_CHAIN NoData None
     end)
    (λ error, Js.ret tt).

Definition handleReceiveChain (ω : Oracle) (chainData : list Block.t) : M t unit :=
  Js.catch
    (let* receivedChain :=
       (fix go (l : list Block.t) : M t (list Block.t) :=
          match l with
          | [] => Js.ret []
          | blockData :: rest =>
            let* b := Block.fromJSON ω blockData in
            let* bs := go rest in
            Js.ret (b :: bs)
          end) chainData in
     let* replaced := on_blockchain (Blockchain.replaceChain ω receivedChain) in
     if replaced then emit (chainUpdated receivedChain) else Js.ret tt)
    (λ error, Js.ret tt).

Definition handleHandshake (ω : Oracle) (peerId : string) (height : Z) : M t unit :=
  do* update_peer peerId (λ p,
        {| isOpen := isOpen p; connectedAt := connectedAt p; lastPing := lastPing p;
           chainHeight := height |}) in
  let* n := Js.get in
  match Blockchain.getLatestBlock (blockchain n), list_find (λ e, e.1 = peerId) (peers n) with
  | None, _ => Js.throw TypeError
  | Some latestBlock, Some (_, (_, peer)) =>
    if Block.index latestBlock <? height then requestChain ω peerId peer else Js.ret tt
  | Some _, None => Js.ret tt
  end.

(** [handleMessage(peer, message)] for a message of the peer [peerId].
    The handler is async and nobody awaits it: a throw stays inside. *)
Definition handleMessage (ω : Oracle) (peerId : string) (ty : MessageType)
    (d : Payload) : M t unit :=
  Js.catch
    (match ty, d with
     | PEER_HANDSHAKE, HandshakeData height => handleHandshake ω peerId height
     | REQUEST_CHAIN, _ =>
       let* n := Js.get in
       match list_find (λ e, e.1 = peerId) (peers n) with
       | Some (_, (_, peer)) =>
         sendToPeer ω peerId peer RECEIVE_CHAIN
                    (ChainData (Blockchain.chain (blockchain n)))
       | None => Js.ret tt
       end
     | RECEIVE_CHAIN, ChainData c => handleReceiveChain ω c
     | REQUEST_LATEST_BLOCK, _ =>
       let* n := Js.get in
       match Blockchain.getLatestBlock (blockchain n),
             list_find (λ e, e.1 = peerId) (peers n) with
       | Some latestBlock, Some (_, (_, peer)) =>
         sendToPeer ω peerId peer RECEIVE_LATEST_BLOCK (BlockData latestBlock)
       | None, _ => Js.throw TypeError
       | _, _ => Js.ret tt
       end
     | RECEIVE_LATEST_BLOCK, BlockData b => handleReceiveLatestBlock ω b
     | NEW_TRANSACTION, TxData tx => handleNewTransaction ω tx
     | NEW_BLOCK, BlockData b => handleNewBlock ω b
     | PING, _ =>
       let* n := Js.get in
       match list_find (λ e, e.1 = peerId) (peers n) with
       | Some (_, (_, peer)) =>
         let* now := Date_now ω in
         sendToPeer ω peerId peer PONG (TimeData now)
       | None => Js.ret tt
       end
     | PONG, _ =>
       let* now := Date_now ω in
       update_peer peerId (λ p,
         {| isOpen := isOpen p; connectedAt := connectedAt p; lastPing := now;
            chainHeight := chainHeight p |})
     | _, _ => Js.throw TypeError      (* a payload of the wrong shape *)
     end)
    (λ error, Js.ret tt).

End WithHost.

(** [broadcastTransaction] and [broadcastBlock], the calls of the API
    layer after a local submission or a mined block. *)
Definition broadcastTransaction (ω : Oracle) (transaction : Transaction.t) : M t unit :=
  broadcastMessage ω NEW_TRANSACTION (TxData transaction)
                   (Some (Transaction.txId transaction)).

Definition broadcastBlock (ω : Oracle) (b : Block.t) : M t unit :=
  broadcastMessage ω NEW_BLOCK (BlockData b) (Some (Block.hash b)).

(** The loop of [synchronizeBlockchain]: the first peer whose height
    exceeds every height seen before it, ours included. *)
Definition highest_peer (start : Z) (ps : list (string * Peer))
  : option (string * Peer) * Z :=
  foldl (λ '(highestPeer, highestHeight) e,
           if highestHeight <? chainHeight e.2 then (Some e, chainHeight e.2)
           else (highestPeer, highestHeight))
        (None, start) ps.

Definition synchronizeBlockchain (ω : Oracle) : M t unit :=
  let* n := Js.get in
  if Nat.eqb (length (peers n)) 0 then Js.ret tt
  else
    match Blockchain.getLatestBlock (blockchain n) with
    | None => Js.throw TypeError
    | Some latestBlock =>
      match (highest_peer (Block.index latestBlock) (peers n)).1 with
      | Some (peerId, peer) => requestChain ω peerId peer
      | None => Js.ret tt
      end
    end.

(** The peers a sequence of frames was sent to. *)
Definition recipients (frames : list Frame) : list string := map dest frames.

(** The test of [broadcastMessage] that skips a peer. *)
Definition skipped (excludeId : option string) (peerId : string) : bool :=
  truthy_opt excludeId && String.eqb peerId (or_empty excludeId).

(** The open peers that [broadcastMessage] does not skip, in the order
    of the peer table. *)
Definition addressees (excludeId : option string) (ps : list (string * Peer))
  : list string :=
  map fst (filter (λ e, negb (skipped excludeId e.1) && isOpen e.2 = true) ps).

End P2PNetwork.

(** ** MinerWallet.js *)

Module MinerWallet.

Definition is_lower_hex (c : Ascii.ascii) : bool :=
  let n := Ascii.nat_of_ascii c in
  ((48 <=? n) && (n <=? 57) || (97 <=? n) && (n <=? 102))%nat.

(** [/^cosmos[0-9a-f]{40}$/.test(address)] *)
Definition matches_pattern (address : string) : bool :=
  String.prefix "cosmos" address
  && Nat.eqb (String.length (String.substring 6 (String.length address - 6) address)) 40
  && forallb is_lower_hex
       (String.list_ascii_of_string (String.substring 6 (String.length address - 6) address)).

(** [MinerWallet.isValidAddress(address)] on a string. *)
Definition isValidAddress (address : string) : bool :=
  String.prefix "cosmos" address
  && Nat.eqb (String.length address) 46
  && matches_pattern address.

(** [deriveAddress()], for the public key of the wallet. *)
Definition deriveAddress `{Host} (publicKey : list Byte.byte) : string :=
  let sha256Hash := sha256_digest publicKey in
  let ripemd160Hash := ripemd160_hex sha256Hash in
  "cosmos" +:+ String.substring 0 40 ripemd160Hash.

End MinerWallet.

(** ** A small host and concrete states, to run the model *)

Module Run.

(** A host with transparent stand-ins for the hash and signature
    primitives: the digest of a string is the string behind two zeros,
    hex decoding takes the bytes of an even-length string and throws on
    an odd one, and the key recovered from a signature is its first
    four bytes, so that a signature whose [r] starts with [abcd] speaks
    for the address [cosmosabcd]. [Sha256], called the way the source
    calls it, throws, as the class of the library does. *)
#[export] Instance host : Host := {|
  sha256_hex := λ data, "00" +:+ data;
  sha256_digest := λ bytes, bytes;
  ripemd160_hex := λ bytes, String.string_of_list_byte bytes;
  fromHex := λ hex, if Nat.even (String.length hex)
                    then Some (String.list_byte_of_string hex) else None;
  Sha256 := λ bytes, None;
  ecdsaRecover := λ sig recid msg,
    if (0 <=? recid) && (recid <=? 3) then Some (take 4 sig) else None
|}.

#[export] Instance json : Json := {|
  JSON_stringify := λ txs, String.concat "," (map Transaction.txId txs)
|}.

(** The clock stands at [1000 + n] at its n-th reading. *)
Definition ω : Oracle :=
  {| dateNow := λ n, 1000 + Z.of_nat n; mathRandom := λ n, "r" +:+ pretty n |}.


Definition r32 (prefix : string) : string :=
  prefix +:+ String.concat EmptyString (replicate (32 - String.length prefix) "0").

Definition sigOf (prefix : string) : Transaction.Signature :=
  {| Transaction.r := r32 prefix; Transaction.s := r32 "s"; Transaction.recoveryId := 0 |}.

Definition coinbase (to : string) (amt : Z) (id : string) : Transaction.t :=
  {| Transaction.fromAddress := None; Transaction.toAddress := to;
     Transaction.amount := amt; Transaction.fee := 0; Transaction.timestamp := 1;
     Transaction.signature := None; Transaction.txId := id |}.

(** A transfer signed for the sender [cosmos] + [who]. *)
Definition transfer (who : string) (to : string) (amt fe : Z) (id : string)
  : Transaction.t :=
  {| Transaction.fromAddress := Some ("cosmos" +:+ who); Transaction.toAddress := to;
     Transaction.amount := amt; Transaction.fee := fe; Transaction.timestamp := 1;
     Transaction.signature := Some (sigOf who); Transaction.txId := id |}.

Definition M_addr : string := "cosmosmmmm".
Definition A_addr : string := "cosmosaaaa".
Definition B_addr : string := "cosmosbbbb".

(** A ledger where [M] holds one output of the given amount. *)
Definition ledger_with (amt : Z) : UTXOSet.t :=
  state_of (UTXOSet.addUTXO ω M_addr "g" amt 0 ticks0 UTXOSet.empty).

(** S3 of the scenarios: [M] holds 100 and two transfers of 80 wait.
    The pool of [node_S3] is written by hand: with this host
    [addTransaction] admits neither transfer. *)
Definition T1 : Transaction.t := transfer "mmmm" A_addr 80 0 "t1".
Definition T2 : Transaction.t := transfer "mmmm" B_addr 80 0 "t2".

(** [T1] carrying the hash of its fields as its id: a transfer that is
    valid by Section 4.3, signed for its sender. *)
Definition T_signed : Transaction.t :=
  Transaction.set_txId (Transaction.calculateHash T1) T1.

(** A coinbase-shaped transaction that pays 50 to [A]. *)
Definition c1 : Transaction.t := coinbase A_addr 50 "c1".

(** [T1] with a signature whose [r] is not hex of even length. *)
Definition T_odd : Transaction.t :=
  {| Transaction.fromAddress := Some M_addr; Transaction.toAddress := A_addr;
     Transaction.amount := 80; Transaction.fee := 0; Transaction.timestamp := 1;
     Transaction.signature :=
       Some {| Transaction.r := "mmm"; Transaction.s := r32 "s";
               Transaction.recoveryId := 7 |};
     Transaction.txId := "t1" |}.

Definition genesis : Block.t :=
  Block.new 0 "0" 0 [coinbase M_addr 100 "g"] 0.

Definition node_S3 : Blockchain.t :=
  {| Blockchain.chain := [genesis]; Blockchain.difficulty := 2;
     Blockchain.pendingTransactions := [T1; T2]; Blockchain.miningReward := 50;
     Blockchain.utxoSet := ledger_with 100; Blockchain.minerWallet := M_addr;
     Blockchain.blockTime := 10000; Blockchain.difficultyAdjustmentInterval := 10 |}.

(** The same node with an empty pool. *)
Definition node_idle : Blockchain.t := Blockchain.set_pendingTransactions [] node_S3.

(** The same node with [c1] pending. *)
Definition node_c1 : Blockchain.t := Blockchain.set_pendingTransactions [c1] node_S3.

(** A block on top of [genesis] that carries [c1]. *)
Definition block1 : Block.t :=
  Block.new 1 (Block.hash genesis) 5 [c1] 0.

(** A first block that holds a transfer its sender has no funds for, and
    a block on top of it that carries [c1]. *)
Definition g_unfunded : Block.t :=
  Block.new 0 "0" 0 [transfer "xxxx" B_addr 10 0 "x1"] 0.
Definition block1_on_unfunded : Block.t :=
  Block.new 1 (Block.hash g_unfunded) 5 [c1] 0.

(** A ledger where [M] holds three outputs, of 40, 60 and 50. *)
Definition ledger_three : UTXOSet.t :=
  state_of (Js.for_of [("a", 40); ("b", 60); ("c", 50)]
              (λ '(id, amt), UTXOSet.addUTXO ω M_addr id amt 0) ticks0 UTXOSet.empty).

(** A ledger where two outputs of [M] carry the same id and index. *)
Definition ledger_same_key : UTXOSet.t :=
  state_of (Js.for_of [("x", 40); ("x", 60)]
              (λ '(id, amt), UTXOSet.addUTXO ω M_addr id amt 0) ticks0 UTXOSet.empty).

(** Eleven blocks of heights 0 to 10: the first took a minute, the
    other nine followed within forty seconds. *)
Definition plain_block (i ts : Z) : Block.t :=
  {| Block.index := i; Block.previousHash := "p"; Block.timestamp := ts;
     Block.transactions := []; Block.nonce := 0; Block.hash := "h";
     Block.merkleRoot := "m" |}.

Definition chain11 : list Block.t :=
  plain_block 0 0 ::
  map (λ i, plain_block (Z.of_nat i) (60000 + 4000 * (Z.of_nat i - 1)))
      (seq 1 9) ++ [plain_block 10 100000].

Definition node_retarget : Blockchain.t :=
  Blockchain.set_chain chain11 (Blockchain.new M_addr).

Definition peerP : P2PNetwork.Peer :=
  {| P2PNetwork.isOpen := true; P2PNetwork.connectedAt := 0;
     P2PNetwork.lastPing := 0; P2PNetwork.chainHeight := 0 |}.

(** A node with two open connections, [P] and [Q]. *)
Definition net (bc : Blockchain.t) : P2PNetwork.t :=
  {| P2PNetwork.blockchain := bc;
     P2PNetwork.peers := [("P", peerP); ("Q", peerP)];
     P2PNetwork.wire := []; P2PNetwork.emitted := [] |}.

End Run.

(** ** The statements of the specification, in its own words *)

Module Spec.

Section WithHost.
Context `{Host}.

(** Section 4.1, [recover(sig, msg_hash) → pubkey], on the pair the data
    model names, [(signature, tx_id)]: the id, a digest in hex, is the
    message hash; [r] and [s] are hex as well. *)
Definition recovered_key (tx : Transaction.t) (sig : Transaction.Signature)
  : option (list Byte.byte) :=
  match fromHex (Transaction.txId tx), fromHex (Transaction.r sig),
        fromHex (Transaction.s sig) with
  | Some msgHash, Some rBytes, Some sBytes =>
    ecdsaRecover (rBytes ++ sBytes) (Transaction.recoveryId sig) msgHash
  | _, _, _ => None
  end.

(** Section 4.2: [address(pub)] is [cosmos] followed by the first 40 hex
    characters of RIPEMD160(SHA256(pub)). *)
Definition address (pub : list Byte.byte) : string :=
  "cosmos" +:+ String.substring 0 40 (ripemd160_hex (sha256_digest pub)).

(** Section 4.3: coinbase with a positive amount, or all of: fields
    present, positive amount, sender differs from receiver, the
    recovered public key's derived address equals the sender, the id
    re-derives. *)
Definition is_valid (tx : Transaction.t) : Prop :=
  (Transaction.fromAddress tx = None ∧ 0 < Transaction.amount tx)
  ∨ (∃ from sig pub,
       Transaction.fromAddress tx = Some from
       ∧ Transaction.signature tx = Some sig
       ∧ from ≠ EmptyString ∧ Transaction.toAddress tx ≠ EmptyString
       ∧ 0 < Transaction.amount tx
       ∧ from ≠ Transaction.toAddress tx
       ∧ recovered_key tx sig = Some pub
       ∧ address pub = from
       ∧ Transaction.txId tx = Transaction.calculateHash tx).

End WithHost.

(** Section 3: the cached balance of an address equals the sum of its
    outputs. *)
Definition balance_cached (u : UTXOSet.t) (address : string) : Prop :=
  UTXOSet.getBalance u address = UTXOSet.outputs_sum u address.

(** No two outputs of the address share transaction id and index. *)
Definition distinct_outputs (u : UTXOSet.t) (address : string) : Prop :=
  NoDup (map UTXOSet.key (UTXOSet.getUTXOs u address)).

(** What the members of [txs] sent by [sender] spend together. *)
Definition spent_by (sender : string) (txs : list Transaction.t) : Z :=
  foldr (λ tx acc,
           if bool_decide (Transaction.fromAddress tx = Some sender)
           then Transaction.amount tx + Transaction.fee tx + acc else acc)
        0 txs.

(** Section 8, scenario S3: no two of the transactions together
    overspend an address: what the transactions of a sender spend
    together is covered by the sender's balance in the ledger. *)
Definition no_overspend (u : UTXOSet.t) (txs : list Transaction.t) : Prop :=
  ∀ sender tx,
    tx ∈ txs → Transaction.fromAddress tx = Some sender →
    spent_by sender txs ≤ UTXOSet.getBalance u sender.

(** Section 4.6: the retarget after the block [latest], from the block
    ten heights below it. *)
Definition retarget (difficulty : nat) (latest tenBefore : Block.t) : nat :=
  let expected := 10 * 10000 in
  let actual := Block.timestamp latest - Block.timestamp tenBefore in
  if 2 * actual <? expected then S difficulty
  else if expected * 2 <? actual then Nat.max 1 (difficulty - 1)
  else difficulty.

(** The transactions of a chain, in chain order. *)
Definition chain_txs (c : list Block.t) : list Transaction.t :=
  concat (map Block.transactions c).

(** Section 4.5: [process(tx)] for a coinbase only adds; for a transfer
    it performs [spend(from, amount + fee)], then [add(to, tx_id,
    amount)]. A [spend] that fails leaves the ledger as it was. *)
Definition process (ω : Oracle) (tx : Transaction.t) : M UTXOSet.t unit :=
  match Transaction.fromAddress tx with
  | None =>
    UTXOSet.addUTXO ω (Transaction.toAddress tx) (Transaction.txId tx)
                    (Transaction.amount tx) 0
  | Some from =>
    do* UTXOSet.spendUTXO ω from (Transaction.amount tx + Transaction.fee tx) in
    UTXOSet.addUTXO ω (Transaction.toAddress tx) (Transaction.txId tx)
                    (Transaction.amount tx) 0
  end.

(** Section 4.6, the ledger after clearing and re-applying every
    transaction in order: each transaction, the first to the last, is
    processed on the ledger the one before it left, whether that one was
    applied or refused. *)
Definition reapply (ω : Oracle) (k : Ticks) (txs : list Transaction.t)
  : Ticks * UTXOSet.t :=
  foldl (λ '(k, u) tx, let out := process ω tx k u in (ticks_of out, state_of out))
        (k, UTXOSet.empty) txs.

(** Section 4.5, [process(tx)] for a coinbase only adds: the outputs
    [{tx_id, output_index 0, amount, timestamp}] that the transactions
    paying to [a] leave for [a], in order; [stamp i] is the timestamp of
    the output of the i-th transaction. *)
Fixpoint credits (stamp : nat → Z) (a : string) (txs : list Transaction.t)
  : list UTXOSet.UTXO :=
  match txs with
  | [] => []
  | tx :: rest =>
    (if String.eqb (Transaction.toAddress tx) a
     then [{| UTXOSet.txId := Transaction.txId tx;
              UTXOSet.amount := Transaction.amount tx;
              UTXOSet.outputIndex := 0;
              UTXOSet.timestamp := stamp 0%nat |}]
     else [])
    ++ credits (λ i, stamp (S i)) a rest
  end.

(** The sum of the amounts the transactions pay to [a]. *)
Definition paid_to (a : string) (txs : list Transaction.t) : Z :=
  foldr (λ tx acc, if String.eqb (Transaction.toAddress tx) a
                   then Transaction.amount tx + acc else acc) 0 txs.

(** An output without its timestamp. *)
Definition unstamped (o : UTXOSet.UTXO) : UTXOSet.UTXO :=
  {| UTXOSet.txId := UTXOSet.txId o; UTXOSet.amount := UTXOSet.amount o;
     UTXOSet.outputIndex := UTXOSet.outputIndex o; UTXOSet.timestamp := 0 |}.

(** [u] is the ledger of the coinbase transactions [txs] but for the
    timestamps of its outputs. *)
Definition credited_up_to_stamps (txs : list Transaction.t) (u : UTXOSet.t) : Prop :=
  ∀ a, UTXOSet.getBalance u a = paid_to a txs
       ∧ map unstamped (UTXOSet.getUTXOs u a) = credits (λ _, 0) a txs.

End Spec.

(** * Theorems *)

(** ** Transaction.isValid *)

Section TransactionValidity.
Context `{Host}.

Lemma truthy_true (x : string) : truthy x = true ↔ x ≠ EmptyString.
Proof.
  unfold truthy. destruct (String.eqb_spec x EmptyString); simpl; split; congruence.
Qed.

Lemma try_catch_false (body : result bool) (b : bool) :
  try_catch body (λ _, Ok false) = Ok b ↔
  body = Ok b ∨ (b = false ∧ ∃ e, body = Raise e).
Proof.
  destruct body as [a|e]; simpl; split.
  - intros [= ->]. by left.
  - intros [[= ->]|[_ [e [=]]]]. done.
  - intros [= <-]. right. eauto.
  - intros [[=]|[-> _]]. done.
Qed.

Lemma isValid_total (tx : Transaction.t) : ∃ b, Transaction.isValid tx = Ok b.
Proof.
  unfold Transaction.isValid.
  destruct (Transaction.fromAddress tx) as [from|]; [|eauto].
  destruct (Transaction.signature tx) as [sig|]; [|eauto].
  repeat (case_match; [eauto|]).
  destruct (Transaction.recoverAddress tx sig) as [addr|e]; simpl; [|eauto].
  case_match; eauto.
Qed.

(** C10. [isValid] returns a boolean on every transaction and never
    throws: whatever the signature holds, an exception raised while the
    public key is recovered is caught and the answer is [false]. *)
Theorem isValid_never_throws (tx : Transaction.t) :
  (∃ b, Transaction.isValid tx = Ok b)
  ∧ (∀ from sig e,
       Transaction.fromAddress tx = Some from →
       Transaction.signature tx = Some sig →
       Transaction.recoverAddress tx sig = Raise e →
       Transaction.isValid tx = Ok false).
Proof.
  split; [apply isValid_total|].
  intros from sig e Hfrom Hsig Hrec. unfold Transaction.isValid.
  rewrite Hfrom, Hsig, Hrec. simpl. by repeat case_match.
Qed.

(** With [Sha256] throwing, the [try] block of [isValid] never reaches
    the recovery: what is accepted is a coinbase with a positive amount,
    and nothing else. *)
Lemma isValid_true_coinbase (tx : Transaction.t) :
  Sha256_throws →
  Transaction.isValid tx = Ok true →
  Transaction.fromAddress tx = None ∧ 0 < Transaction.amount tx.
Proof.
  intros Hthrows. unfold Transaction.isValid.
  destruct (Transaction.fromAddress tx) as [from|].
  - destruct (Transaction.signature tx) as [sig|]; [|done].
    repeat (case_match; [done|]).
    unfold Transaction.recoverAddress.
    destruct (fromHex (Transaction.calculateHash tx)) as [hashBytes|]; simpl; [|done].
    by rewrite Hthrows.
  - intros [= Hpos]. split; [done|]. by apply Z.ltb_lt.
Qed.

(** C6, what the code does. With the [Sha256] of the library, [isValid]
    returns true exactly for a coinbase with a positive amount: what it
    accepts Section 4.3 accepts, but every transaction with a sender is
    refused, the ones included whose signature recovers to the sender
    and whose id re-derives. *)
Theorem isValid_refuses_every_transfer (tx : Transaction.t) :
  Sha256_throws →
  (Transaction.isValid tx = Ok true
   ↔ Transaction.fromAddress tx = None ∧ 0 < Transaction.amount tx)
  ∧ (Transaction.isValid tx = Ok true → Spec.is_valid tx)
  ∧ (Transaction.fromAddress tx ≠ None → Transaction.isValid tx = Ok false).
Proof.
  intros Hthrows. split; [|split].
  - split; [by apply isValid_true_coinbase|].
    intros [Hcb Hpos]. unfold Transaction.isValid. rewrite Hcb. f_equal.
    by apply Z.ltb_lt.
  - intros Hv. left. by apply isValid_true_coinbase.
  - intros Hfrom. destruct (isValid_total tx) as [[] Hv]; [|done].
    by apply isValid_true_coinbase in Hv as [? _].
Qed.

(** An accepted signed transaction stays accepted when its id is
    replaced by any other string. *)
Lemma isValid_set_txId (tx : Transaction.t) (i : string) :
  Transaction.isValid (Transaction.set_txId i tx) = Transaction.isValid tx.
Proof. reflexivity. Qed.

End TransactionValidity.

Lemma isValid_never_throws_witness :
  @Transaction.isValid Run.host Run.T_odd = Ok false.
Proof.
  apply (proj2 (@isValid_never_throws Run.host Run.T_odd) Run.M_addr
               {| Transaction.r := "mmm"; Transaction.s := Run.r32 "s";
                  Transaction.recoveryId := 7 |} LibraryError); reflexivity.
Defined.

(** C6, at the input where it fails. [T_signed] is a transfer from [M]
    whose id is the hash of its fields and whose signature recovers, over
    that id, to a key with the address of [M]: valid by Section 4.3,
    refused by [isValid]. *)
Lemma isValid_refuses_every_transfer_witness :
  @Spec.is_valid Run.host Run.T_signed
  ∧ @Spec.recovered_key Run.host Run.T_signed (Run.sigOf "mmmm")
    = Some (String.list_byte_of_string "mmmm")
  ∧ @Transaction.isValid Run.host Run.T_signed = Ok false.
Proof.
  split; [|split].
  - right. exists Run.M_addr, (Run.sigOf "mmmm"), (String.list_byte_of_string "mmmm").
    vm_compute. by repeat split.
  - vm_compute. reflexivity.
  - apply (proj2 (proj2 (@isValid_refuses_every_transfer Run.host Run.T_signed
                           (λ _, eq_refl)))).
    discriminate.
Defined.

(** ** The UTXO ledger *)

Section Ledger.
Variable ω : Oracle.

Ltac run_ledger :=
  unfold UTXOSet.spendUTXO, UTXOSet.processTransaction, UTXOSet.generateTxId,
    UTXOSet.addUTXO, UTXOSet.clear, Js.catch, Js.bind, Js.get, Js.put, Js.modify,
    Js.ret, Js.throw, Date_now, Math_random36; simpl.

Lemma getBalance_insert (u : UTXOSet.t) (us : gmap string (list UTXOSet.UTXO))
    (a b : string) (v : Z) :
  UTXOSet.getBalance {| UTXOSet.utxos := us;
                        UTXOSet.balances := <[a := v]> (UTXOSet.balances u) |} b
  = if decide (a = b) then v else UTXOSet.getBalance u b.
Proof.
  unfold UTXOSet.getBalance; simpl. rewrite lookup_insert. by case_decide.
Qed.

Lemma total_app (l l' : list UTXOSet.UTXO) :
  UTXOSet.total (l ++ l') = UTXOSet.total l + UTXOSet.total l'.
Proof. induction l as [|y l IH]; simpl; [done|]. fold (UTXOSet.total (l ++ l')). lia. Qed.

Lemma outputs_sum_snoc (l : list UTXOSet.UTXO) (x : UTXOSet.UTXO) :
  UTXOSet.total (l ++ [x]) = UTXOSet.total l + UTXOSet.amount x.
Proof. rewrite total_app. simpl. lia. Qed.

(** [addUTXO] returns, credits the cache and appends one output. *)
Lemma addUTXO_run (address id : string) (amt idx : Z) (k : Ticks) (u : UTXOSet.t) :
  UTXOSet.addUTXO ω address id amt idx k u
  = Returned tt {| nowCalls := S (nowCalls k); randomCalls := randomCalls k |}
      {| UTXOSet.utxos :=
           <[address := UTXOSet.getUTXOs u address
                        ++ [{| UTXOSet.txId := id; UTXOSet.amount := amt;
                               UTXOSet.outputIndex := idx;
                               UTXOSet.timestamp := dateNow ω (nowCalls k) |}]]>
             (UTXOSet.utxos u);
         UTXOSet.balances :=
           <[address := UTXOSet.getBalance u address + amt]> (UTXOSet.balances u) |}.
Proof. reflexivity. Qed.

(** [addUTXO] keeps the cache of every address equal to the sum of its
    outputs. *)
Lemma addUTXO_balance_cached (address id : string) (amt idx : Z) (k : Ticks)
    (u : UTXOSet.t) (a : string) :
  Spec.balance_cached u a →
  Spec.balance_cached (state_of (UTXOSet.addUTXO ω address id amt idx k u)) a.
Proof.
  unfold Spec.balance_cached. intros Hinv. rewrite addUTXO_run. simpl.
  rewrite getBalance_insert. unfold UTXOSet.outputs_sum, UTXOSet.getUTXOs at 1. simpl.
  rewrite lookup_insert. case_decide as Ha; simpl.
  - subst a. rewrite outputs_sum_snoc. simpl. unfold UTXOSet.outputs_sum in Hinv. lia.
  - exact Hinv.
Qed.

(** So does a coinbase transaction. *)
Lemma coinbase_balance_cached (tx : Transaction.t) (k : Ticks) (u : UTXOSet.t)
    (a : string) :
  Transaction.fromAddress tx = None →
  Spec.balance_cached u a →
  Spec.balance_cached (state_of (UTXOSet.processTransaction ω tx k u)) a.
Proof.
  intros Hcb Hinv. unfold UTXOSet.processTransaction. rewrite Hcb.
  by apply addUTXO_balance_cached.
Qed.

(** A spend that returns leaves in the cache the old balance less the
    amount, plus the change when there is change: the change is
    credited by [addUTXO] after the amount was debited in full. *)
Lemma spendUTXO_balance (address : string) (amt : Z) (k k' : Ticks)
    (u u' : UTXOSet.t) (res : UTXOSet.SpendResult) :
  UTXOSet.spendUTXO ω address amt k u = Returned res k' u' →
  UTXOSet.change res = UTXOSet.totalSpent res - amt
  ∧ UTXOSet.getBalance u' address
    = UTXOSet.getBalance u address - amt + Z.max 0 (UTXOSet.change res).
Proof.
  run_ledger. destruct (Z.ltb_spec (UTXOSet.getBalance u address) amt); [done|].
  destruct (UTXOSet.select _ _ _ _) as [toSpend totalSelected]. simpl.
  destruct (Z.ltb_spec 0 (totalSelected - amt)); simpl; intros [= <- <- <-]; simpl.
  - split; [done|]. unfold UTXOSet.getBalance. simpl.
    rewrite !lookup_insert_eq. simpl. lia.
  - split; [done|]. unfold UTXOSet.getBalance. simpl.
    rewrite !lookup_insert_eq. simpl. lia.
Qed.

(** C7. [spendUTXO] throws exactly when the recorded balance is below
    the amount, the error is the insufficient-funds one, and the ledger
    is then as it was; a transfer whose sender cannot cover amount plus
    fee throws the same error and leaves the ledger as it was. *)
Theorem spendUTXO_insufficient (k : Ticks) (u : UTXOSet.t) (address : string) (amt : Z) :
  (returns (UTXOSet.spendUTXO ω address amt k u) = false
   ↔ UTXOSet.getBalance u address < amt)
  ∧ (UTXOSet.getBalance u address < amt →
     UTXOSet.spendUTXO ω address amt k u
     = Thrown (InsufficientFunds amt (UTXOSet.getBalance u address)) k u)
  ∧ (∀ tx from,
       Transaction.fromAddress tx = Some from →
       UTXOSet.getBalance u from < Transaction.amount tx + Transaction.fee tx →
       UTXOSet.processTransaction ω tx k u
       = Thrown (InsufficientFunds (Transaction.amount tx + Transaction.fee tx)
                                   (UTXOSet.getBalance u from)) k u).
Proof.
  split; [|split].
  - run_ledger. destruct (Z.ltb_spec (UTXOSet.getBalance u address) amt); simpl.
    + done.
    + destruct (UTXOSet.select _ _ _ _) as [toSpend totalSelected]. simpl.
      destruct (0 <? totalSelected - amt); simpl; (split; [done|intros; exfalso; lia]).
  - intros Hlt. run_ledger.
    destruct (Z.ltb_spec (UTXOSet.getBalance u address) amt); [done|lia].
  - intros tx from Hfrom Hlt. unfold UTXOSet.processTransaction. rewrite Hfrom.
    run_ledger.
    destruct (Z.ltb_spec (UTXOSet.getBalance u from)
                         (Transaction.amount tx + Transaction.fee tx)); [done|lia].
Qed.

End Ledger.

Lemma spendUTXO_insufficient_witness :
  UTXOSet.getBalance (Run.ledger_with 100) Run.M_addr < 101
  ∧ UTXOSet.spendUTXO Run.ω Run.M_addr 101 ticks0 (Run.ledger_with 100)
    = Thrown (InsufficientFunds 101 (UTXOSet.getBalance (Run.ledger_with 100) Run.M_addr))
             ticks0 (Run.ledger_with 100).
Proof.
  assert (Hlt : UTXOSet.getBalance (Run.ledger_with 100) Run.M_addr < 101)
    by (vm_compute; reflexivity).
  split; [exact Hlt|].
  exact (proj1 (proj2 (spendUTXO_insufficient Run.ω ticks0 (Run.ledger_with 100)
                                              Run.M_addr 101)) Hlt).
Defined.

(** C1, at the input where it fails. [M] holds one output of 500 and the
    cache says 500. After [spendUTXO(M, 101)] the only output left is the
    change of 399, and the cache says 798: the change was added to a
    balance from which only the amount had been taken. *)
Theorem spendUTXO_change_counted_twice :
  let u0 := Run.ledger_with 500 in
  let u1 := state_of (UTXOSet.spendUTXO Run.ω Run.M_addr 101 ticks0 u0) in
  Spec.balance_cached u0 Run.M_addr
  ∧ returns (UTXOSet.spendUTXO Run.ω Run.M_addr 101 ticks0 u0) = true
  ∧ map UTXOSet.amount (UTXOSet.getUTXOs u1 Run.M_addr) = [399]
  ∧ UTXOSet.outputs_sum u1 Run.M_addr = 399
  ∧ UTXOSet.getBalance u1 Run.M_addr = 798.
Proof. vm_compute. by repeat split. Qed.

(** ** What a spend does to the outputs *)

Section Spend.
Variable ω : Oracle.

Lemma total_perm (l l' : list UTXOSet.UTXO) :
  l ≡ₚ l' → UTXOSet.total l = UTXOSet.total l'.
Proof.
  induction 1 as [|x l l' _ IH|x y l|l l' l'' _ IH1 _ IH2]; simpl.
  - done.
  - fold (UTXOSet.total l) (UTXOSet.total l'). lia.
  - lia.
  - congruence.
Qed.

Lemma insert_desc_perm {A} (key : A → Z) (x : A) (l : list A) :
  insert_desc key x l ≡ₚ x :: l.
Proof.
  induction l as [|y l IH]; simpl; [done|].
  case_match; [|done]. rewrite IH. apply Permutation_swap.
Qed.

(** The sort rearranges, it neither drops nor invents an output. *)
Lemma sort_desc_perm {A} (key : A → Z) (l : list A) : sort_desc key l ≡ₚ l.
Proof.
  induction l as [|x l IH]; simpl; [done|].
  fold (sort_desc key l). by rewrite insert_desc_perm, IH.
Qed.

(** The selection loop takes a prefix of the sorted outputs, and stops
    short of the end only once the amount is covered. *)
Lemma select_take (sorted : list UTXOSet.UTXO) (amt : Z) (acc : list UTXOSet.UTXO)
    (tot : Z) :
  ∃ j : nat,
    UTXOSet.select sorted amt acc tot
    = (acc ++ take j sorted, tot + UTXOSet.total (take j sorted))
    ∧ (amt ≤ tot + UTXOSet.total (take j sorted) ∨ take j sorted = sorted).
Proof.
  revert acc tot. induction sorted as [|x sorted IH]; intros acc tot; simpl.
  - exists 0%nat. simpl. rewrite app_nil_r, Z.add_0_r. by split; [|right].
  - destruct (Z.leb_spec amt tot) as [Hle|Hgt].
    + exists 0%nat. simpl. rewrite app_nil_r, Z.add_0_r. split; [done|]. left. lia.
    + destruct (IH (acc ++ [x]) (tot + UTXOSet.amount x)) as (j & -> & Hj).
      exists (S j). simpl. fold (UTXOSet.total (take j sorted)).
      rewrite <- app_assoc. simpl. split; [f_equal; lia|].
      destruct Hj as [Hj|Hj]; [left; lia|right; by rewrite Hj].
Qed.

Lemma same_output_key (x y : UTXOSet.UTXO) :
  UTXOSet.same_output x y = true ↔ UTXOSet.key y = UTXOSet.key x.
Proof.
  unfold UTXOSet.same_output, UTXOSet.key. rewrite andb_true_iff, Z.eqb_eq.
  destruct (String.eqb_spec (UTXOSet.txId y) (UTXOSet.txId x)); split;
    intros; by intuition congruence.
Qed.

(** When the outputs are told apart by id and index, the splice removes
    the very output that was selected. *)
Lemma splice_first_perm (x : UTXOSet.UTXO) (l : list UTXOSet.UTXO) :
  NoDup (map UTXOSet.key l) → x ∈ l → l ≡ₚ x :: UTXOSet.splice_first x l.
Proof.
  induction l as [|y l IH]; simpl; intros Hnd Hin.
  - by apply elem_of_nil in Hin.
  - apply NoDup_cons in Hnd as [Hy Hnd].
    destruct (UTXOSet.same_output x y) eqn:Hsame.
    + apply same_output_key in Hsame. apply elem_of_cons in Hin as [->|Hin]; [done|].
      exfalso. apply Hy. rewrite Hsame. by apply (list_elem_of_fmap_2 UTXOSet.key).
    + apply elem_of_cons in Hin as [->|Hin].
      * assert (UTXOSet.same_output y y = true) by by apply same_output_key.
        congruence.
      * rewrite (IH Hnd Hin) at 1. apply Permutation_swap.
Qed.

Lemma remove_spent_perm (toSpend l : list UTXOSet.UTXO) :
  NoDup (map UTXOSet.key l) → toSpend ⊆+ l →
  l ≡ₚ toSpend ++ UTXOSet.remove_spent toSpend l.
Proof.
  revert l. induction toSpend as [|x ts IH]; intros l Hnd Hsub; simpl; [done|].
  assert (Hin : x ∈ l) by (eapply elem_of_submseteq; [apply list_elem_of_here|done]).
  pose proof (splice_first_perm x l Hnd Hin) as Hperm.
  assert (Hts : ts ⊆+ UTXOSet.splice_first x l).
  { apply (submseteq_app_inv_l _ _ [x]). simpl. by rewrite <- Hperm. }
  assert (Hnd' : NoDup (map UTXOSet.key (UTXOSet.splice_first x l))).
  { rewrite Hperm in Hnd. simpl in Hnd. by apply NoDup_cons in Hnd as [_ ?]. }
  unfold UTXOSet.remove_spent. simpl. fold (UTXOSet.remove_spent ts (UTXOSet.splice_first x l)).
  rewrite Hperm at 1. f_equiv. by apply IH.
Qed.

Lemma remove_spent_nil (toSpend : list UTXOSet.UTXO) : UTXOSet.remove_spent toSpend [] = [].
Proof. unfold UTXOSet.remove_spent. by induction toSpend. Qed.

(** The outputs of the address after a spend that returns: the stored
    ones without the spent ones, then the change output if there is
    change. *)
Lemma spendUTXO_outputs (address : string) (amt : Z) (k k' : Ticks)
    (u u' : UTXOSet.t) (res : UTXOSet.SpendResult) :
  UTXOSet.spendUTXO ω address amt k u = Returned res k' u' →
  ∃ j : nat,
    UTXOSet.spentUTXOs res
    = take j (sort_desc UTXOSet.amount (UTXOSet.getUTXOs u address))
    ∧ UTXOSet.totalSpent res = UTXOSet.total (UTXOSet.spentUTXOs res)
    ∧ (amt ≤ UTXOSet.totalSpent res
       ∨ UTXOSet.spentUTXOs res = sort_desc UTXOSet.amount (UTXOSet.getUTXOs u address))
    ∧ UTXOSet.total (UTXOSet.getUTXOs u' address)
      = UTXOSet.total (UTXOSet.remove_spent (UTXOSet.spentUTXOs res)
                                            (UTXOSet.getUTXOs u address))
        + Z.max 0 (UTXOSet.change res).
Proof.
  unfold UTXOSet.spendUTXO, UTXOSet.generateTxId, UTXOSet.addUTXO, Js.bind, Js.get,
    Js.modify, Js.ret, Js.throw, Date_now, Math_random36. simpl.
  destruct (Z.ltb_spec (UTXOSet.getBalance u address) amt); [done|].
  destruct (select_take (sort_desc UTXOSet.amount (UTXOSet.getUTXOs u address)) amt [] 0)
    as (j & -> & Hj). simpl. rewrite Z.add_0_l in *.
  destruct (Z.ltb_spec 0 (UTXOSet.total
              (take j (sort_desc UTXOSet.amount (UTXOSet.getUTXOs u address))) - amt));
    simpl; intros [= <- <- <-]; simpl; exists j; (split; [done|]); (split; [done|]);
    (split; [done|]).
  - unfold UTXOSet.getUTXOs at 1. simpl. rewrite lookup_insert_eq. simpl.
    rewrite total_app. simpl.
    unfold UTXOSet.getUTXOs in *. simpl.
    destruct (UTXOSet.utxos u !! address) as [stored|] eqn:Hst; simpl in *.
    + rewrite lookup_insert_eq. simpl. lia.
    + rewrite Hst. simpl. rewrite remove_spent_nil. simpl. lia.
  - unfold UTXOSet.getUTXOs in *. simpl.
    destruct (UTXOSet.utxos u !! address) as [stored|] eqn:Hst; simpl in *.
    + rewrite lookup_insert_eq. simpl. lia.
    + rewrite Hst. simpl. rewrite remove_spent_nil. simpl. lia.
Qed.

(** C1, what the code does. On a ledger whose cache is right for the
    address and whose outputs are told apart by id and index, a spend that
    returns takes exactly the amount out of the outputs, the change is not
    negative, and the cache ends above the sum of the outputs by the
    change: the two agree afterwards only when there is no change. *)
Theorem spendUTXO_cache_exceeds_outputs (address : string) (amt : Z) (k k' : Ticks)
    (u u' : UTXOSet.t) (res : UTXOSet.SpendResult) :
  Spec.balance_cached u address →
  Spec.distinct_outputs u address →
  UTXOSet.spendUTXO ω address amt k u = Returned res k' u' →
  UTXOSet.outputs_sum u' address = UTXOSet.outputs_sum u address - amt
  ∧ 0 ≤ UTXOSet.change res
  ∧ UTXOSet.getBalance u' address
    = UTXOSet.outputs_sum u' address + UTXOSet.change res
  ∧ (Spec.balance_cached u' address ↔ UTXOSet.change res = 0).
Proof.
  intros Hinv Hnd Hrun.
  destruct (spendUTXO_balance ω _ _ _ _ _ _ _ Hrun) as [Hchg Hbal].
  destruct (spendUTXO_outputs _ _ _ _ _ _ _ Hrun) as (j & Hspent & Htot & Hcover & Hout).
  assert (Hfunds : amt ≤ UTXOSet.getBalance u address).
  { revert Hrun. unfold UTXOSet.spendUTXO, Js.bind, Js.get, Js.throw.
    by destruct (Z.ltb_spec (UTXOSet.getBalance u address) amt). }
  pose proof (sort_desc_perm UTXOSet.amount (UTXOSet.getUTXOs u address)) as Hsort.
  assert (Hsub : UTXOSet.spentUTXOs res ⊆+ UTXOSet.getUTXOs u address).
  { rewrite Hspent. etrans; [apply submseteq_take|]. by rewrite Hsort. }
  pose proof (total_perm _ _ (remove_spent_perm _ _ Hnd Hsub)) as Hsplit.
  rewrite total_app in Hsplit.
  unfold Spec.balance_cached, UTXOSet.outputs_sum in *.
  assert (Hnonneg : 0 ≤ UTXOSet.change res).
  { destruct Hcover as [Hc|Hall]; [lia|].
    rewrite Hall in Htot. rewrite (total_perm _ _ Hsort) in Htot. lia. }
  repeat split; try lia.
Qed.

End Spend.

Lemma spendUTXO_cache_exceeds_outputs_witness :
  let u0 := Run.ledger_with 500 in
  ∃ res k' u1,
    UTXOSet.spendUTXO Run.ω Run.M_addr 101 ticks0 u0 = Returned res k' u1
    ∧ UTXOSet.change res = 399
    ∧ UTXOSet.outputs_sum u1 Run.M_addr = UTXOSet.outputs_sum u0 Run.M_addr - 101
    ∧ UTXOSet.getBalance u1 Run.M_addr
      = UTXOSet.outputs_sum u1 Run.M_addr + UTXOSet.change res.
Proof.
  simpl. eexists _, _, _. split; [vm_compute; reflexivity|]. split; [reflexivity|].
  refine (let H := spendUTXO_cache_exceeds_outputs Run.ω Run.M_addr 101 ticks0 _
                     (Run.ledger_with 500) _ _ _ _ _ in
          conj (proj1 H) (proj1 (proj2 (proj2 H)))).
  - vm_compute. reflexivity.
  - vm_compute. apply NoDup_singleton.
  - vm_compute. reflexivity.
Defined.

(** ** Loops *)

Section Loops.
Context {S A : Type}.

Lemma for_of_app (xs ys : list A) (body : A → M S unit) (k : Ticks) (s : S) :
  Js.for_of (xs ++ ys) body k s
  = match Js.for_of xs body k s with
    | Returned _ k' s' => Js.for_of ys body k' s'
    | Thrown e k' s' => Thrown e k' s'
    end.
Proof.
  revert k s. induction xs as [|x xs IH]; intros k s; simpl; [done|].
  unfold Js.bind. destruct (body x k s) as [[] k' s'|e k' s']; [apply IH|done].
Qed.

(** A loop over the blocks with a loop over each block's members is one
    loop over the members in chain order. *)
Lemma for_of_nested {B : Type} (members : B → list A) (bs : list B)
    (body : A → M S unit) (k : Ticks) (s : S) :
  Js.for_of bs (λ b, Js.for_of (members b) body) k s
  = Js.for_of (concat (map members bs)) body k s.
Proof.
  revert k s. induction bs as [|b bs IH]; intros k s; simpl; [done|].
  rewrite for_of_app. unfold Js.bind.
  destruct (Js.for_of (members b) body k s) as [[] k' s'|e k' s']; [apply IH|done].
Qed.

End Loops.

(** ** Processing a list of transactions *)

Section Processing.
Variable ω : Oracle.

(** A transaction is applied when [canProcessTransaction] says so, and
    is refused, with the ledger and the clock as they were, when it does
    not. *)
Lemma processTransaction_outcome (tx : Transaction.t) (k : Ticks) (u : UTXOSet.t) :
  if UTXOSet.canProcessTransaction u tx
  then ∃ k' u', UTXOSet.processTransaction ω tx k u = Returned tt k' u'
  else ∃ e, UTXOSet.processTransaction ω tx k u = Thrown e k u.
Proof.
  unfold UTXOSet.canProcessTransaction, UTXOSet.processTransaction.
  destruct (Transaction.fromAddress tx) as [from|]; [|rewrite addUTXO_run; by eexists _, _].
  unfold UTXOSet.spendUTXO, UTXOSet.generateTxId, UTXOSet.addUTXO, Js.catch, Js.bind,
    Js.get, Js.modify, Js.ret, Js.throw, Date_now, Math_random36. simpl.
  destruct (Z.leb_spec (Transaction.amount tx + Transaction.fee tx)
                       (UTXOSet.getBalance u from)) as [Hle|Hgt].
  - destruct (Z.ltb_spec (UTXOSet.getBalance u from)
                         (Transaction.amount tx + Transaction.fee tx)); [lia|].
    destruct (UTXOSet.select _ _ _ _) as [toSpend totalSelected]. simpl.
    destruct (0 <? totalSelected - _); simpl; by eexists _, _.
  - destruct (Z.ltb_spec (UTXOSet.getBalance u from)
                         (Transaction.amount tx + Transaction.fee tx)); [|lia].
    by eexists.
Qed.

(** The loop over a list of transactions applies them in order up to the
    first one the ledger cannot process; there it ends, and none of the
    transactions behind that one is applied. *)
Lemma for_of_process_prefix (txs : list Transaction.t) (k : Ticks) (u : UTXOSet.t) :
  ∃ applied rest k' u',
    txs = applied ++ rest
    ∧ Js.for_of applied (UTXOSet.processTransaction ω) k u = Returned tt k' u'
    ∧ state_of (Js.for_of txs (UTXOSet.processTransaction ω) k u) = u'
    ∧ ticks_of (Js.for_of txs (UTXOSet.processTransaction ω) k u) = k'
    ∧ match rest with
      | [] => Js.for_of txs (UTXOSet.processTransaction ω) k u = Returned tt k' u'
      | refused :: _ =>
        returns (Js.for_of txs (UTXOSet.processTransaction ω) k u) = false
        ∧ UTXOSet.canProcessTransaction u' refused = false
      end.
Proof.
  revert k u. induction txs as [|tx txs IH]; intros k u.
  - by exists [], [], k, u.
  - pose proof (processTransaction_outcome tx k u) as Hout.
    destruct (UTXOSet.canProcessTransaction u tx) eqn:Hcan.
    + destruct Hout as (k1 & u1 & Hrun).
      destruct (IH k1 u1) as (applied & rest & k' & u' & -> & Happ & Hst & Htk & Hrest).
      exists (tx :: applied), rest, k', u'. simpl. unfold Js.bind. rewrite Hrun.
      repeat split; try done.
    + destruct Hout as (e & Hrun).
      exists [], (tx :: txs), k, u. simpl. unfold Js.bind. rewrite Hrun. simpl.
      by repeat split.
Qed.

(** [processTransaction] is the [process] of Section 4.5: its [catch]
    throws again what it caught. *)
Lemma processTransaction_process (tx : Transaction.t) (k : Ticks) (u : UTXOSet.t) :
  UTXOSet.processTransaction ω tx k u = Spec.process ω tx k u.
Proof.
  unfold UTXOSet.processTransaction, Spec.process.
  destruct (Transaction.fromAddress tx) as [from|]; [|done].
  unfold Js.catch, Js.throw. by destruct (Js.bind _ _ k u).
Qed.

(** When every transaction is applied, the loop leaves what Section 4.6
    describes: each transaction processed on the ledger left by the one
    before. *)
Lemma for_of_reapply (txs : list Transaction.t) (k k' : Ticks) (u u' : UTXOSet.t) :
  Js.for_of txs (UTXOSet.processTransaction ω) k u = Returned tt k' u' →
  foldl (λ '(k, u) tx,
           let out := Spec.process ω tx k u in (ticks_of out, state_of out))
        (k, u) txs
  = (k', u').
Proof.
  revert k u. induction txs as [|tx txs IH]; intros k u; simpl.
  - by intros [= <- <-].
  - unfold Js.bind. rewrite <- processTransaction_process.
    destruct (UTXOSet.processTransaction ω tx k u) as [[] k1 u1|e k1 u1] eqn:Hrun;
      [|done].
    intros Hrest. simpl. by apply IH.
Qed.

Lemma credits_ext (f g : nat → Z) (a : string) (txs : list Transaction.t) :
  (∀ i, f i = g i) → Spec.credits f a txs = Spec.credits g a txs.
Proof.
  revert f g. induction txs as [|tx txs IH]; intros f g Hfg; simpl; [done|].
  rewrite Hfg. f_equal. apply IH. intros i. apply Hfg.
Qed.


Lemma credits_unstamped (f : nat → Z) (a : string) (txs : list Transaction.t) :
  map Spec.unstamped (Spec.credits f a txs) = Spec.credits (λ _, 0) a txs.
Proof.
  revert f. induction txs as [|tx txs IH]; intros f; simpl; [done|].
  rewrite map_app, IH. by case_match.
Qed.


(** The ledger after a list of coinbase transactions, in closed form:
    every address has its balance raised by what the list pays to it,
    and gets one output per transaction paying to it, in order, stamped
    with the clock reading of that transaction. *)
Lemma coinbase_fold (txs : list Transaction.t) (k : Ticks) (u : UTXOSet.t) :
  Forall (λ tx, Transaction.fromAddress tx = None) txs →
  ∃ u',
    Js.for_of txs (UTXOSet.processTransaction ω) k u
    = Returned tt {| nowCalls := nowCalls k + length txs; randomCalls := randomCalls k |} u'
    ∧ ∀ a, UTXOSet.getBalance u' a = UTXOSet.getBalance u a + Spec.paid_to a txs
           ∧ UTXOSet.getUTXOs u' a
             = UTXOSet.getUTXOs u a
               ++ Spec.credits (λ i, dateNow ω (nowCalls k + i)) a txs.
Proof.
  revert k u. induction txs as [|tx txs IH]; intros k u Hcb.
  - exists u. simpl. rewrite Nat.add_0_r. split; [by destruct k|].
    intros a. rewrite app_nil_r. split; [lia|done].
  - apply Forall_cons in Hcb as [Htx Hcb]. simpl. unfold Js.bind.
    unfold UTXOSet.processTransaction at 1. rewrite Htx, addUTXO_run.
    edestruct IH as (u' & -> & Hu'); [done|]. exists u'. simpl.
    split; [do 2 f_equal; lia|].
    intros a. destruct (Hu' a) as [-> ->]. clear Hu'.
    fold (Spec.paid_to a txs).
    rewrite getBalance_insert. unfold UTXOSet.getUTXOs at 1. simpl.
    rewrite lookup_insert.
    rewrite (credits_ext (λ i, dateNow ω (S (nowCalls k) + i))
                         (λ i, dateNow ω (nowCalls k + S i)));
      [|intros i; f_equal; lia].
    rewrite Nat.add_0_r.
    destruct (String.eqb_spec (Transaction.toAddress tx) a) as [->|Hne].
    + rewrite !decide_True by done. simpl. rewrite <- app_assoc. split; [lia|done].
    + rewrite !decide_False by done. simpl. split; [lia|done].
Qed.

End Processing.

(** ** The chain *)

Section Chain.
Context `{Host} `{Json}.
Variable ω : Oracle.

Lemma hasValidTransactions_total (txs : list Transaction.t) :
  ∃ b, Block.hasValidTransactions_of txs = Ok b.
Proof.
  induction txs as [|tx txs IH]; simpl; [eauto|].
  destruct (isValid_total tx) as [v ->]. simpl. destruct v; simpl; eauto.
Qed.

Lemma isValidNewBlock_total (bc : Blockchain.t) (newBlock previousBlock : Block.t) :
  ∃ b, Blockchain.isValidNewBlock bc newBlock previousBlock = Ok b.
Proof.
  unfold Blockchain.isValidNewBlock. repeat (case_match; [eauto|]).
  unfold Block.hasValidTransactions.
  destruct (hasValidTransactions_total (Block.transactions newBlock)) as [v ->].
  simpl. destruct v; simpl; eauto.
Qed.

Lemma isValidChain_from_total (bc : Blockchain.t) (rest : list Block.t) (p : Block.t) :
  ∃ b, Blockchain.isValidChain_from bc p rest = Ok b.
Proof.
  revert p. induction rest as [|c rest IH]; intros p; simpl; [eauto|].
  destruct (isValidNewBlock_total bc c p) as [v ->]. simpl. destruct v; simpl; eauto.
Qed.

Lemma isValidChain_from_pairs (bc : Blockchain.t) (rest : list Block.t) (p : Block.t) :
  Blockchain.isValidChain_from bc p rest = Ok true
  ↔ ∀ (i : nat) prev cur,
      (p :: rest) !! i = Some prev → (p :: rest) !! Datatypes.S i = Some cur →
      Blockchain.isValidNewBlock bc cur prev = Ok true.
Proof.
  revert p. induction rest as [|c rest IH]; intros p; simpl.
  - split; [|done]. intros _ i prev cur _ Hcur. by destruct i.
  - destruct (isValidNewBlock_total bc c p) as [v Hv]. rewrite Hv. simpl.
    destruct v; simpl.
    + rewrite IH. split.
      * intros Hall [|i] prev cur Hprev Hcur; simpl in *.
        -- by injection Hprev as <-; injection Hcur as <-.
        -- by apply (Hall i).
      * intros Hall i prev cur Hprev Hcur. by apply (Hall (Datatypes.S i)).
    + split; [done|]. intros Hall.
      specialize (Hall 0%nat p c eq_refl eq_refl). congruence.
Qed.

(** [isValidChain] answers true exactly when every block passes
    [isValidNewBlock] against the block before it. *)
Lemma isValidChain_pairs (bc : Blockchain.t) (c : list Block.t) :
  Blockchain.isValidChain bc c = Ok true
  ↔ ∀ (i : nat) prev cur,
      c !! i = Some prev → c !! Datatypes.S i = Some cur →
      Blockchain.isValidNewBlock bc cur prev = Ok true.
Proof.
  destruct c as [|g rest]; simpl.
  - split; [|done]. intros _ i prev cur Hprev. by destruct i.
  - apply isValidChain_from_pairs.
Qed.

Lemma isValidChain_total (bc : Blockchain.t) (c : list Block.t) :
  ∃ b, Blockchain.isValidChain bc c = Ok b.
Proof. destruct c as [|g rest]; simpl; [eauto|apply isValidChain_from_total]. Qed.

(** [rebuildUTXOSet] forgets the ledger it finds, and its two loops are
    one loop over the transactions of the chain, from the empty ledger. *)
Lemma rebuildUTXOSet_run (k : Ticks) (bc : Blockchain.t) :
  Blockchain.rebuildUTXOSet ω k bc
  = match Js.for_of (Spec.chain_txs (Blockchain.chain bc))
                    (UTXOSet.processTransaction ω) k UTXOSet.empty with
    | Returned _ k' u => Returned tt k' (Blockchain.set_utxoSet u bc)
    | Thrown e k' u => Thrown e k' (Blockchain.set_utxoSet u bc)
    end.
Proof.
  unfold Blockchain.rebuildUTXOSet, Blockchain.on_utxoSet, Js.zoom, Js.bind, Js.get,
    UTXOSet.clear, Js.put, Spec.chain_txs.
  rewrite for_of_nested.
  by destruct (Js.for_of _ _ k UTXOSet.empty) as [[] k' u|e k' u].
Qed.

(** What [replaceChain] does to an accepted candidate: the chain is
    installed, true is returned, and the ledger holds the transactions
    applied before the first refused one. *)
Lemma replaceChain_accepted (k : Ticks) (bc : Blockchain.t) (candidate : list Block.t) :
  (length (Blockchain.chain bc) < length candidate)%nat →
  Blockchain.isValidChain bc candidate = Ok true →
  ∃ applied rest k' u',
    Blockchain.replaceChain ω candidate k bc
    = Returned true k' (Blockchain.set_utxoSet u' (Blockchain.set_chain candidate bc))
    ∧ Spec.chain_txs candidate = applied ++ rest
    ∧ Js.for_of applied (UTXOSet.processTransaction ω) k UTXOSet.empty
      = Returned tt k' u'
    ∧ match rest with
      | [] => (k', u') = Spec.reapply ω k (Spec.chain_txs candidate)
      | refused :: _ => UTXOSet.canProcessTransaction u' refused = false
      end
    ∧ (Forall (λ tx, Transaction.fromAddress tx = None) (Spec.chain_txs candidate) →
       rest = []
       ∧ ∀ a, UTXOSet.getBalance u' a = Spec.paid_to a (Spec.chain_txs candidate)
              ∧ UTXOSet.getUTXOs u' a
                = Spec.credits (λ i, dateNow ω (nowCalls k + i)) a
                               (Spec.chain_txs candidate)).
Proof.
  intros Hlen Hvalid.
  destruct (for_of_process_prefix ω (Spec.chain_txs candidate) k UTXOSet.empty)
    as (applied & rest & k' & u' & Hsplit & Happ & Hst & Htk & Hrest).
  exists applied, rest, k', u'.
  assert (Hrun : Blockchain.replaceChain ω candidate k bc
                 = Returned true k' (Blockchain.set_utxoSet u'
                                       (Blockchain.set_chain candidate bc))).
  { unfold Blockchain.replaceChain, Js.bind, Js.get. simpl.
    rewrite bool_decide_eq_true_2 by done. rewrite Hvalid. simpl.
    unfold Js.modify, Js.catch. rewrite rebuildUTXOSet_run. simpl.
    destruct (Js.for_of (Spec.chain_txs candidate) _ k UTXOSet.empty)
      as [[] k2 u2|e k2 u2]; simpl in *; by subst. }
  split; [done|]. split; [done|]. split; [done|]. split.
  - destruct rest as [|refused rest]; [|by destruct Hrest].
    unfold Spec.reapply. symmetry. by apply for_of_reapply.
  - intros Hcb.
    destruct (coinbase_fold ω _ k UTXOSet.empty Hcb) as (u1 & Hfold & Hu1).
    rewrite Hfold in Hst, Htk. simpl in *. subst u1.
    split.
    + destruct rest as [|refused rest]; [done|]. destruct Hrest as [Hret _].
      by rewrite Hfold in Hret.
    + intros a. destruct (Hu1 a) as [-> ->]. by split.
Qed.

(** C3, what the code does. [replaceChain] returns true and installs the
    candidate exactly when the candidate is strictly longer than the
    local chain and each of its blocks passes [isValidNewBlock] against
    the one before; in every other case it returns false and the chain
    object is as it was, ledger included. On success the ledger is
    cleared and the transactions of the candidate are applied in order,
    but only up to the first one the ledger refuses: none of the
    transactions behind it is applied, and true is returned all the
    same. The ledger is the re-application of every transaction only
    when none is refused; then, for a candidate of coinbase
    transactions, every address holds what the candidate pays to it. *)
Theorem replaceChain_stops_at_refusal (k : Ticks) (bc : Blockchain.t)
    (candidate : list Block.t) :
  ∃ valid : bool,
    Blockchain.isValidChain bc candidate = Ok valid
    ∧ (valid = true
       ↔ ∀ (i : nat) prev cur,
           candidate !! i = Some prev → candidate !! Datatypes.S i = Some cur →
           Blockchain.isValidNewBlock bc cur prev = Ok true)
    ∧ if bool_decide (length (Blockchain.chain bc) < length candidate)%nat && valid
      then
        ∃ applied rest k' u',
          Blockchain.replaceChain ω candidate k bc
          = Returned true k'
              (Blockchain.set_utxoSet u' (Blockchain.set_chain candidate bc))
          ∧ Spec.chain_txs candidate = applied ++ rest
          ∧ Js.for_of applied (UTXOSet.processTransaction ω) k UTXOSet.empty
            = Returned tt k' u'
          ∧ match rest with
            | [] => (k', u') = Spec.reapply ω k (Spec.chain_txs candidate)
            | refused :: _ => UTXOSet.canProcessTransaction u' refused = false
            end
          ∧ (Forall (λ tx, Transaction.fromAddress tx = None)
                    (Spec.chain_txs candidate) →
             rest = []
             ∧ ∀ a, UTXOSet.getBalance u' a = Spec.paid_to a (Spec.chain_txs candidate)
                    ∧ UTXOSet.getUTXOs u' a
                      = Spec.credits (λ i, dateNow ω (nowCalls k + i)) a
                                     (Spec.chain_txs candidate))
      else Blockchain.replaceChain ω candidate k bc = Returned false k bc.
Proof.
  destruct (isValidChain_total bc candidate) as [valid Hvalid].
  exists valid. split; [done|]. split.
  - rewrite <- isValidChain_pairs, Hvalid. split; congruence.
  - case_bool_decide as Hlen; simpl.
    + destruct valid.
      * by apply replaceChain_accepted.
      * unfold Blockchain.replaceChain, Js.bind, Js.get. simpl.
        rewrite bool_decide_eq_true_2 by done. by rewrite Hvalid.
    + unfold Blockchain.replaceChain, Js.bind, Js.get. simpl.
      by rewrite bool_decide_eq_false_2 by done.
Qed.

End Chain.

Lemma replaceChain_stops_at_refusal_witness :
  ∃ applied refused rest k' u',
    @Blockchain.replaceChain Run.host Run.json Run.ω
      [Run.g_unfunded; Run.block1_on_unfunded] ticks0 Run.node_idle
    = Returned true k'
        (Blockchain.set_utxoSet u'
           (Blockchain.set_chain [Run.g_unfunded; Run.block1_on_unfunded] Run.node_idle))
    ∧ Spec.chain_txs [Run.g_unfunded; Run.block1_on_unfunded]
      = applied ++ refused :: rest
    ∧ UTXOSet.canProcessTransaction u' refused = false.
Proof.
  destruct (@replaceChain_stops_at_refusal Run.host Run.json Run.ω ticks0 Run.node_idle
              [Run.g_unfunded; Run.block1_on_unfunded]) as (valid & Hvalid & _ & Hrun).
  assert (valid = true) as -> by (vm_compute in Hvalid; congruence).
  rewrite bool_decide_eq_true_2 in Hrun by (vm_compute; lia).
  destruct Hrun as (applied & rest & k' & u' & Hrun & Hsplit & Happ & Hrest & Hcb).
  destruct rest as [|refused rest].
  - exfalso. rewrite app_nil_r in Hsplit. subst applied.
    vm_compute in Happ. discriminate Happ.
  - by exists applied, refused, rest, k', u'.
Defined.

(** C3, at the input where it fails. The node holds [genesis]; a peer
    offers a chain of two blocks whose first block holds a transfer from
    an address without funds and whose second block pays 50 to [A]. The
    first block is not examined, the second passes, the chain is
    installed and true is returned; the rebuild stops at the transfer,
    so the ledger is empty and [A] holds nothing, where the
    re-application of every transaction credits [A] with 50. *)
Lemma replaceChain_unfunded_first_block :
  let candidate := [Run.g_unfunded; Run.block1_on_unfunded] in
  let out := @Blockchain.replaceChain Run.host Run.json Run.ω candidate ticks0
               Run.node_idle in
  out = Returned true ticks0
          (Blockchain.set_utxoSet UTXOSet.empty
             (Blockchain.set_chain candidate Run.node_idle))
  ∧ Run.c1 ∈ Spec.chain_txs candidate
  ∧ UTXOSet.getBalance (Blockchain.utxoSet (state_of out)) Run.A_addr = 0
  ∧ UTXOSet.getBalance (Spec.reapply Run.ω ticks0 (Spec.chain_txs candidate)).2
                       Run.A_addr = 50.
Proof.
  simpl. split; [vm_compute; reflexivity|]. split.
  - vm_compute. apply list_elem_of_further, list_elem_of_here.
  - vm_compute. by split.
Qed.

(** ** The ledger of a chain of coinbase transactions *)

Section Fold.
Variable ω : Oracle.




End Fold.



(** ** Retargeting *)

Section Retarget.

(** After a block whose height is zero or no multiple of the interval,
    [adjustDifficulty] changes nothing. *)
Lemma adjustDifficulty_off_interval (k : Ticks) (bc : Blockchain.t) (latest : Block.t) :
  Blockchain.getLatestBlock bc = Some latest →
  Z.rem (Block.index latest) (Blockchain.difficultyAdjustmentInterval bc) ≠ 0
  ∨ Block.index latest = 0 →
  Blockchain.adjustDifficulty k bc = Returned tt k bc.
Proof.
  intros Hlatest Hoff. unfold Blockchain.adjustDifficulty, Js.bind, Js.get.
  rewrite Hlatest.
  destruct Hoff as [Hrem| ->].
  - by apply Z.eqb_neq in Hrem as ->.
  - by rewrite orb_true_r.
Qed.

(** On the interval, the block it measures from is
    [chain[chain.length - interval]]: in a chain whose heights are its
    positions that is the block [interval - 1] below the latest. *)
Lemma adjustDifficulty_on_interval (k : Ticks) (bc : Blockchain.t)
    (latest from : Block.t) :
  Blockchain.getLatestBlock bc = Some latest →
  Z.rem (Block.index latest) (Blockchain.difficultyAdjustmentInterval bc) = 0 →
  Block.index latest ≠ 0 →
  Blockchain.chain_at bc (Z.of_nat (length (Blockchain.chain bc))
                          - Blockchain.difficultyAdjustmentInterval bc) = Some from →
  let timeExpected := Blockchain.blockTime bc * Blockchain.difficultyAdjustmentInterval bc in
  let timeActual := Block.timestamp latest - Block.timestamp from in
  Blockchain.adjustDifficulty k bc
  = Returned tt k
      (if 2 * timeActual <? timeExpected
       then Blockchain.set_difficulty (S (Blockchain.difficulty bc)) bc
       else if timeExpected * 2 <? timeActual
       then Blockchain.set_difficulty (Nat.max 1 (Blockchain.difficulty bc - 1)) bc
       else bc).
Proof.
  intros Hlatest Hrem Hnz Hfrom. simpl.
  unfold Blockchain.adjustDifficulty, Js.bind, Js.get.
  rewrite Hlatest, Hrem, Hfrom. simpl.
  apply Z.eqb_neq in Hnz as ->. simpl.
  by repeat case_match.
Qed.

End Retarget.

(** C5, at the input where it fails. The chain holds the blocks of
    heights 0 to 10; block 0 is stamped 0, block 1 is stamped 60000 and
    block 10 is stamped 100000. From the block ten heights below, the ten
    blocks took 100000 ms, the expected time, and the difficulty stays 2;
    [adjustDifficulty] measures from block 1, finds 40000 ms and raises
    the difficulty to 3. *)
Theorem adjustDifficulty_measures_from_block_1 :
  let bc := Run.node_retarget in
  Blockchain.getLatestBlock bc = Some (Run.plain_block 10 100000)
  ∧ Blockchain.chain_at bc (10 - 10) = Some (Run.plain_block 0 0)
  ∧ Blockchain.chain_at bc (10 - 9) = Some (Run.plain_block 1 60000)
  ∧ Spec.retarget (Blockchain.difficulty bc)
                  (Run.plain_block 10 100000) (Run.plain_block 0 0) = 2%nat
  ∧ Blockchain.adjustDifficulty ticks0 bc
    = Returned tt ticks0 (Blockchain.set_difficulty 3 bc).
Proof. vm_compute. by repeat split. Qed.

(** ** Selection for a block *)

(** The selection looks at each pending transaction on its own. On a
    pool written by hand (scenario S3: [M] holds 100, two transfers of 80
    from [M] wait) both transfers pass the filter and are selected, and
    together they spend 160. *)
Lemma selectTransactionsForBlock_each_alone :
  let bc := Run.node_S3 in
  let selected := (Blockchain.selectTransactionsForBlock bc []).1 in
  selected = [Run.T1; Run.T2]
  ∧ Blockchain.getBalance bc Run.M_addr = 100
  ∧ Spec.spent_by Run.M_addr selected = 160
  ∧ ¬ Spec.no_overspend (Blockchain.utxoSet bc) selected.
Proof.
  simpl. split; [vm_compute; reflexivity|]. split; [vm_compute; reflexivity|].
  split; [vm_compute; reflexivity|].
  intros Hno. specialize (Hno Run.M_addr Run.T1).
  vm_compute in Hno. apply Hno; [apply list_elem_of_here|reflexivity|reflexivity].
Qed.

(** Mining on that state: the block with the two transfers does not pass
    [isValidNewBlock], since [isValid] refuses both; [mineBlock] throws
    and the chain is as it was. *)
Lemma mineBlock_S3_refused :
  ∃ k,
    @Blockchain.mineBlock Run.host Run.json Run.ω 5 (Some "cosmoszzzz") ticks0 Run.node_S3
    = Thrown InvalidMinedBlock k Run.node_S3.
Proof. eexists. vm_compute. reflexivity. Qed.

(** ** Gossip *)

Section Gossip.
Context `{Host} `{Json}.
Variable ω : Oracle.

(** [Transaction.fromJSON] gives back the transaction of the data; it
    costs one reading of the clock. *)
Lemma Transaction_fromJSON_run {St} (d : Transaction.t) (k : Ticks) (s : St) :
  Transaction.fromJSON ω d k s = Returned d (tick_now k) s.
Proof. by destruct d. Qed.

Lemma txs_fromJSON_run {St} (txs : list Transaction.t) (k : Ticks) (s : St) :
  ∃ k', Block.txs_fromJSON ω txs k s = Returned txs k' s.
Proof.
  revert k. induction txs as [|d txs IH]; intros k; simpl; [by eexists|].
  unfold Js.bind. rewrite Transaction_fromJSON_run.
  destruct (IH (tick_now k)) as [k' ->]. by eexists.
Qed.

Lemma Block_fromJSON_run {St} (d : Block.t) (k : Ticks) (s : St) :
  ∃ k', Block.fromJSON ω d k s = Returned d k' s.
Proof.
  unfold Block.fromJSON, Js.bind.
  destruct (txs_fromJSON_run (Block.transactions d) k s) as [k' ->].
  exists k'. by destruct d.
Qed.

Lemma addressees_cons (excludeId : option string) (peerId : string)
    (peer : P2PNetwork.Peer) (ps : list (string * P2PNetwork.Peer)) :
  P2PNetwork.addressees excludeId ((peerId, peer) :: ps)
  = if negb (truthy_opt excludeId && String.eqb peerId (or_empty excludeId))
       && P2PNetwork.isOpen peer
    then peerId :: P2PNetwork.addressees excludeId ps
    else P2PNetwork.addressees excludeId ps.
Proof.
  unfold P2PNetwork.addressees. rewrite filter_cons. simpl.
  unfold P2PNetwork.skipped at 1.
  case_decide as Hd; [by rewrite Hd|]. by apply not_true_is_false in Hd as ->.
Qed.

(** The loop of [broadcastMessage] over a peer list: it returns, and
    sends one frame to every open peer the test does not skip. *)
Lemma broadcast_loop (ty : P2PNetwork.MessageType) (d : P2PNetwork.Payload)
    (excludeId : option string) (ps : list (string * P2PNetwork.Peer))
    (k : Ticks) (n : P2PNetwork.t) :
  ∃ k' frames,
    Js.for_of ps (λ '(peerId, peer),
      if truthy_opt excludeId && String.eqb peerId (or_empty excludeId) then Js.ret tt
      else if P2PNetwork.isOpen peer then P2PNetwork.sendToPeer ω peerId peer ty d
      else Js.ret tt) k n
    = Returned tt k'
        {| P2PNetwork.blockchain := P2PNetwork.blockchain n;
           P2PNetwork.peers := P2PNetwork.peers n;
           P2PNetwork.wire := P2PNetwork.wire n ++ frames;
           P2PNetwork.emitted := P2PNetwork.emitted n |}
    ∧ P2PNetwork.recipients frames = P2PNetwork.addressees excludeId ps
    ∧ Forall (λ f, P2PNetwork.type f = ty ∧ P2PNetwork.data f = d) frames.
Proof.
  revert k n. induction ps as [|[peerId peer] ps IH]; intros k n.
  - exists k, []. simpl. rewrite app_nil_r. by destruct n.
  - simpl. rewrite addressees_cons. unfold Js.bind.
    destruct (truthy_opt excludeId && String.eqb peerId (or_empty excludeId)); simpl.
    { unfold Js.ret at 1. apply IH. }
    destruct (P2PNetwork.isOpen peer) eqn:Hopen; simpl.
    2:{ unfold Js.ret at 1. apply IH. }
    unfold P2PNetwork.sendToPeer. rewrite Hopen.
    unfold P2PNetwork.sendMessage, Js.bind, Date_now, Js.modify. simpl.
    edestruct IH as (k' & frames & -> & Hrec & Hall). simpl.
    eexists k', (_ :: frames). rewrite <- app_assoc. simpl. split; [done|]. split.
    + by rewrite Hrec.
    + by constructor.
Qed.

Lemma broadcastMessage_run (ty : P2PNetwork.MessageType) (d : P2PNetwork.Payload)
    (excludeId : option string) (k : Ticks) (n : P2PNetwork.t) :
  ∃ k' frames,
    P2PNetwork.broadcastMessage ω ty d excludeId k n
    = Returned tt k'
        {| P2PNetwork.blockchain := P2PNetwork.blockchain n;
           P2PNetwork.peers := P2PNetwork.peers n;
           P2PNetwork.wire := P2PNetwork.wire n ++ frames;
           P2PNetwork.emitted := P2PNetwork.emitted n |}
    ∧ P2PNetwork.recipients frames
      = P2PNetwork.addressees excludeId (P2PNetwork.peers n)
    ∧ Forall (λ f, P2PNetwork.type f = ty ∧ P2PNetwork.data f = d) frames.
Proof.
  unfold P2PNetwork.broadcastMessage, Js.bind, Js.get. apply broadcast_loop.
Qed.

(** A peer that is open and whose id is not the excluded string is
    among the addressees. *)
Lemma addressees_elem (excludeId : option string)
    (ps : list (string * P2PNetwork.Peer)) (peerId : string) (peer : P2PNetwork.Peer) :
  (peerId, peer) ∈ ps →
  P2PNetwork.isOpen peer = true →
  Some peerId ≠ excludeId →
  peerId ∈ P2PNetwork.addressees excludeId ps.
Proof.
  intros Hin Hopen Hne. unfold P2PNetwork.addressees.
  apply (list_elem_of_fmap_2 fst _ (peerId, peer)).
  apply list_elem_of_filter. split; [|done]. simpl. rewrite Hopen.
  unfold P2PNetwork.skipped. destruct excludeId as [x|]; simpl; [|done].
  destruct (String.eqb_spec peerId x) as [->|]; [done|].
  by rewrite andb_false_r.
Qed.

Lemma addTransaction_run (tx : Transaction.t) (k : Ticks) (bc : Blockchain.t) :
  Transaction.isValid tx = Ok true →
  UTXOSet.canProcessTransaction (Blockchain.utxoSet bc) tx = true →
  existsb (λ p, String.eqb (Transaction.txId p) (Transaction.txId tx))
          (Blockchain.pendingTransactions bc) = false →
  Blockchain.addTransaction tx k bc
  = Returned (Transaction.txId tx) k
      (Blockchain.set_pendingTransactions (Blockchain.pendingTransactions bc ++ [tx]) bc).
Proof.
  intros Hvalid Hcan Hnew.
  unfold Blockchain.addTransaction, Js.bind, Js.get. rewrite Hvalid. simpl.
  by rewrite Hcan, Hnew.
Qed.

(** C8, what the code does. A NEW_TRANSACTION message that is accepted
    (valid, covered by the sender's balance, not yet pending) is sent on
    to every open peer whose id is not the transaction's id. The peer
    the message came from is not told apart: when its connection is
    open and its id is not the transaction id, it is among the
    recipients. *)
Theorem handleNewTransaction_echoes_to_sender (k : Ticks) (n : P2PNetwork.t)
    (sender : string) (peer : P2PNetwork.Peer) (tx : Transaction.t) :
  Transaction.isValid tx = Ok true →
  UTXOSet.canProcessTransaction
    (Blockchain.utxoSet (P2PNetwork.blockchain n)) tx = true →
  existsb (λ p, String.eqb (Transaction.txId p) (Transaction.txId tx))
          (Blockchain.pendingTransactions (P2PNetwork.blockchain n)) = false →
  (sender, peer) ∈ P2PNetwork.peers n →
  P2PNetwork.isOpen peer = true →
  sender ≠ Transaction.txId tx →
  let n' := state_of (P2PNetwork.handleMessage ω sender P2PNetwork.NEW_TRANSACTION
                                               (P2PNetwork.TxData tx) k n) in
  ∃ frames,
    P2PNetwork.wire n' = P2PNetwork.wire n ++ frames
    ∧ Forall (λ f, P2PNetwork.type f = P2PNetwork.NEW_TRANSACTION
                   ∧ P2PNetwork.data f = P2PNetwork.TxData tx) frames
    ∧ P2PNetwork.recipients frames
      = P2PNetwork.addressees (Some (Transaction.txId tx)) (P2PNetwork.peers n)
    ∧ sender ∈ P2PNetwork.recipients frames
    ∧ Blockchain.pendingTransactions (P2PNetwork.blockchain n')
      = Blockchain.pendingTransactions (P2PNetwork.blockchain n) ++ [tx].
Proof.
  intros Hvalid Hcan Hnew Hin Hopen Hne. simpl.
  unfold P2PNetwork.handleMessage, P2PNetwork.handleNewTransaction, Js.catch, Js.bind.
  rewrite Transaction_fromJSON_run, Hvalid. simpl. unfold Js.get.
  rewrite Hcan. simpl.
  unfold P2PNetwork.on_blockchain, Js.zoom.
  rewrite (addTransaction_run _ _ _ Hvalid Hcan Hnew).
  edestruct broadcastMessage_run as (k' & frames & -> & Hrec & Hall). simpl.
  exists frames. simpl in Hrec. rewrite Hrec. repeat split; try done.
  apply (addressees_elem _ _ _ peer); [done|done|congruence].
Qed.

(** [push_and_process] appends the block and folds its transactions
    into the ledger; nothing else of the node changes, whether the fold
    returns or throws. *)
Lemma push_and_process_run (b : Block.t) (k : Ticks) (n : P2PNetwork.t) :
  let bc := P2PNetwork.blockchain n in
  let pushed u :=
    P2PNetwork.set_blockchain
      (Blockchain.set_utxoSet u
         (Blockchain.set_chain (Blockchain.chain bc ++ [b]) bc)) n in
  P2PNetwork.push_and_process ω b k n
  = match Js.for_of (Block.transactions b) (UTXOSet.processTransaction ω) k
                    (Blockchain.utxoSet bc) with
    | Returned _ k' u => Returned tt k' (pushed u)
    | Thrown e k' u => Thrown e k' (pushed u)
    end.
Proof.
  simpl. unfold P2PNetwork.push_and_process, P2PNetwork.on_blockchain,
    Blockchain.on_utxoSet, Js.zoom, Js.bind, Js.modify. simpl.
  by destruct (Js.for_of _ _ k _) as [[] k' u|e k' u].
Qed.

(** C4, what the code does on the gossip path. A NEW_BLOCK message whose
    block passes [isValidNewBlock] against the tip appends the block,
    and leaves the pending pool and the difficulty as they were: the
    transactions of the block are not removed from the pool. *)
Theorem handleNewBlock_keeps_pending (k : Ticks) (n : P2PNetwork.t) (sender : string)
    (b latest : Block.t) :
  Blockchain.getLatestBlock (P2PNetwork.blockchain n) = Some latest →
  Blockchain.isValidNewBlock (P2PNetwork.blockchain n) b latest = Ok true →
  let n' := state_of (P2PNetwork.handleMessage ω sender P2PNetwork.NEW_BLOCK
                                               (P2PNetwork.BlockData b) k n) in
  Blockchain.chain (P2PNetwork.blockchain n')
  = Blockchain.chain (P2PNetwork.blockchain n) ++ [b]
  ∧ Blockchain.pendingTransactions (P2PNetwork.blockchain n')
    = Blockchain.pendingTransactions (P2PNetwork.blockchain n)
  ∧ Blockchain.difficulty (P2PNetwork.blockchain n')
    = Blockchain.difficulty (P2PNetwork.blockchain n).
Proof.
  intros Hlatest Hvalid. simpl.
  unfold P2PNetwork.handleMessage, P2PNetwork.handleNewBlock, Js.catch, Js.bind.
  destruct (Block_fromJSON_run b k n) as [k1 ->]. unfold Js.get.
  rewrite Hlatest, Hvalid. simpl.
  rewrite push_and_process_run.
  destruct (Js.for_of _ _ k1 _) as [[] k2 u|e k2 u]; simpl; [|done].
  unfold P2PNetwork.emit, Js.modify. simpl.
  by edestruct broadcastMessage_run as (k' & frames & -> & _).
Qed.

End Gossip.

(** C8, at the input where it fails. The node has two open peers, [P]
    and [Q]; [P] sends the coinbase-shaped transaction [c1], which is
    accepted. *)
Lemma handleNewTransaction_echoes_to_sender_witness :
  let n := Run.net Run.node_idle in
  let n' := state_of (@P2PNetwork.handleMessage Run.host Run.json Run.ω "P"
                        P2PNetwork.NEW_TRANSACTION (P2PNetwork.TxData Run.c1) ticks0 n) in
  ∃ frames,
    P2PNetwork.wire n' = P2PNetwork.wire n ++ frames
    ∧ Forall (λ f, P2PNetwork.type f = P2PNetwork.NEW_TRANSACTION
                   ∧ P2PNetwork.data f = P2PNetwork.TxData Run.c1) frames
    ∧ P2PNetwork.recipients frames
      = P2PNetwork.addressees (Some (Transaction.txId Run.c1)) (P2PNetwork.peers n)
    ∧ "P" ∈ P2PNetwork.recipients frames
    ∧ Blockchain.pendingTransactions (P2PNetwork.blockchain n')
      = Blockchain.pendingTransactions (P2PNetwork.blockchain n) ++ [Run.c1].
Proof.
  apply (@handleNewTransaction_echoes_to_sender Run.host Run.json Run.ω ticks0
           (Run.net Run.node_idle) "P" Run.peerP Run.c1).
  - reflexivity.
  - reflexivity.
  - reflexivity.
  - apply list_elem_of_here.
  - reflexivity.
  - discriminate.
Defined.

(** The frames of that run: one to [P], where the message came from, and
    one to [Q]. *)
Lemma handleNewTransaction_c1_recipients :
  P2PNetwork.recipients
    (P2PNetwork.wire
       (state_of (@P2PNetwork.handleMessage Run.host Run.json Run.ω "P"
                    P2PNetwork.NEW_TRANSACTION (P2PNetwork.TxData Run.c1) ticks0
                    (Run.net Run.node_idle))))
  = ["P"; "Q"].
Proof. vm_compute. reflexivity. Qed.

(** C4, at the input where it fails. The node holds [genesis] and has
    [c1] pending; a NEW_BLOCK message brings a block on top of [genesis]
    that carries [c1]. *)
Lemma handleNewBlock_keeps_pending_witness :
  let n := Run.net Run.node_c1 in
  let n' := state_of (@P2PNetwork.handleMessage Run.host Run.json Run.ω "P"
                        P2PNetwork.NEW_BLOCK (P2PNetwork.BlockData Run.block1) ticks0 n) in
  Blockchain.chain (P2PNetwork.blockchain n')
  = Blockchain.chain (P2PNetwork.blockchain n) ++ [Run.block1]
  ∧ Blockchain.pendingTransactions (P2PNetwork.blockchain n')
    = Blockchain.pendingTransactions (P2PNetwork.blockchain n)
  ∧ Blockchain.difficulty (P2PNetwork.blockchain n')
    = Blockchain.difficulty (P2PNetwork.blockchain n).
Proof.
  apply (@handleNewBlock_keeps_pending Run.host Run.json Run.ω ticks0
           (Run.net Run.node_c1) "P" Run.block1 Run.genesis).
  - reflexivity.
  - vm_compute. reflexivity.
Defined.

(** In that run the appended block carries [c1], and [c1] is still in the
    pool afterwards. *)
Lemma handleNewBlock_c1_pool :
  let n' := state_of (@P2PNetwork.handleMessage Run.host Run.json Run.ω "P"
                        P2PNetwork.NEW_BLOCK (P2PNetwork.BlockData Run.block1) ticks0
                        (Run.net Run.node_c1)) in
  map Transaction.txId (Block.transactions Run.block1) = ["c1"]
  ∧ map (λ b, Block.index b) (Blockchain.chain (P2PNetwork.blockchain n')) = [0; 1]
  ∧ map Transaction.txId (Blockchain.pendingTransactions (P2PNetwork.blockchain n'))
    = ["c1"].
Proof. vm_compute. by repeat split. Qed.

(** ** The miner's own append *)

Section Mining.
Context `{Host} `{Json}.
Variable ω : Oracle.


(** [removePendingTransactions] leaves in the pool no transaction whose
    non-empty id is the id of a processed one. *)
Lemma removePendingTransactions_disjoint (processed : list Transaction.t) (k : Ticks)
    (bc : Blockchain.t) (tx : Transaction.t) :
  tx ∈ Blockchain.pendingTransactions
         (state_of (Blockchain.removePendingTransactions processed k bc)) →
  Transaction.txId tx ≠ EmptyString →
  Transaction.txId tx ∉ map Transaction.txId processed.
Proof.
  unfold Blockchain.removePendingTransactions, Js.modify. simpl.
  intros Hin Hne Hid. apply list_elem_of_filter in Hin as [Hnot _]. apply Hnot.
  apply list_elem_of_fmap in Hid as (p & Hp & Hin).
  apply list_elem_of_fmap. exists p. split; [done|].
  apply list_elem_of_filter. split; [|done]. apply truthy_true. congruence.
Qed.

Lemma Block_mineBlock_transactions (fuel difficulty : nat) (b b' : Block.t) :
  Block.mineBlock fuel difficulty b = Some b' →
  Block.transactions b' = Block.transactions b.
Proof.
  revert b. induction fuel as [|fuel IH]; intros b; simpl.
  - case_match; [|done]. by intros [= <-].
  - case_match; [by intros [= <-]|]. intros Hm. by apply IH in Hm.
Qed.

Lemma adjustDifficulty_keeps_pool (k : Ticks) (bc : Blockchain.t) :
  Blockchain.pendingTransactions (state_of (Blockchain.adjustDifficulty k bc))
  = Blockchain.pendingTransactions bc
  ∧ Blockchain.chain (state_of (Blockchain.adjustDifficulty k bc)) = Blockchain.chain bc.
Proof.
  unfold Blockchain.adjustDifficulty, Js.bind, Js.get, Js.put, Js.ret, Js.throw.
  by repeat case_match.
Qed.

(** When [mineBlock] returns a block, the block is the new tip and the
    pool holds no transaction with a non-empty id of that block. *)
Lemma mineBlock_clears_pool (fuel : nat) (minerAddress : option string) (k k' : Ticks)
    (bc bc' : Blockchain.t) (mined : Blockchain.Mined) (tx : Transaction.t) :
  Blockchain.mineBlock ω fuel minerAddress k bc = Returned (Some mined) k' bc' →
  Blockchain.chain bc' = Blockchain.chain bc ++ [Blockchain.block mined]
  ∧ (tx ∈ Blockchain.pendingTransactions bc' →
     Transaction.txId tx ≠ EmptyString →
     Transaction.txId tx
       ∉ map Transaction.txId (Block.transactions (Blockchain.block mined))).
Proof.
  unfold Blockchain.mineBlock, Transaction.createCoinbaseTransaction, Transaction.new,
    Js.bind, Js.get, Date_now. simpl.
  destruct (Blockchain.selectTransactionsForBlock bc _) as [vt fees].
  destruct (Blockchain.getLatestBlock bc) as [latest|]; [|done].
  set (txs := if 0 <? fees then Blockchain.add_fees fees vt else vt).
  destruct (Block.mineBlock fuel _ _) as [nb|] eqn:Hmine; [|done].
  apply Block_mineBlock_transactions in Hmine. simpl in Hmine.
  destruct (Blockchain.isValidNewBlock bc nb latest) as [[]|]; simpl; try done.
  unfold Blockchain.on_utxoSet, Js.zoom. simpl.
  destruct (Js.for_of txs _ _ _) as [[] k1 u1|]; [|done].
  set (pushed := Blockchain.set_utxoSet u1 _).
  pose proof (removePendingTransactions_disjoint txs k1 pushed tx) as Hclean.
  unfold Blockchain.removePendingTransactions, Js.modify in Hclean. simpl in Hclean.
  match goal with
  | |- context [Blockchain.adjustDifficulty k1 ?s] =>
    destruct (adjustDifficulty_keeps_pool k1 s) as [Hpool Hchain];
    destruct (Blockchain.adjustDifficulty k1 s) as [[] k3 bc3|]; [|done]
  end.
  simpl in *. intros [= <- _ <-]. simpl. rewrite Hchain. split; [done|].
  rewrite Hpool, Hmine. apply Hclean.
Qed.






(** The other gossip append, on RECEIVE_LATEST_BLOCK, leaves the pool and
    the difficulty alone as well. *)
Lemma handleReceiveLatestBlock_keeps_pending (k : Ticks) (n : P2PNetwork.t)
    (b : Block.t) :
  let n' := state_of (P2PNetwork.handleReceiveLatestBlock ω b k n) in
  Blockchain.pendingTransactions (P2PNetwork.blockchain n')
  = Blockchain.pendingTransactions (P2PNetwork.blockchain n)
  ∧ Blockchain.difficulty (P2PNetwork.blockchain n')
    = Blockchain.difficulty (P2PNetwork.blockchain n).
Proof.
  simpl. unfold P2PNetwork.handleReceiveLatestBlock, Js.catch, Js.bind.
  destruct (Block_fromJSON_run ω b k n) as [k1 ->]. unfold Js.get, Js.throw, Js.ret.
  destruct (Blockchain.getLatestBlock _) as [latest|]; [|done].
  destruct ((Block.index b =? Block.index latest + 1)
            && String.eqb (Block.previousHash b) (Block.hash latest)).
  - destruct (isValidNewBlock_total (P2PNetwork.blockchain n) b latest) as [[] ->]; simpl;
      [|done].
    unfold Js.ret. rewrite push_and_process_run.
    by destruct (Js.for_of _ _ k1 _) as [[] k2 u|e k2 u].
  - by edestruct broadcastMessage_run as (k' & frames & -> & _).
Qed.

End Mining.


(** * Further properties of the modules *)

(** ** UTXOSet: admission, frame, selection, supply, snapshot *)

Section LedgerMore.
Variable ω : Oracle.

Ltac run_set :=
  unfold UTXOSet.spendUTXO, UTXOSet.processTransaction, UTXOSet.generateTxId,
    UTXOSet.addUTXO, UTXOSet.clear, Js.catch, Js.bind, Js.get, Js.put, Js.modify,
    Js.ret, Js.throw, Date_now, Math_random36; simpl.

(** X1. [canProcessTransaction] answers true exactly for the transactions
    that [processTransaction] then applies without throwing. *)
Theorem canProcessTransaction_iff_processes (k : Ticks) (u : UTXOSet.t)
    (tx : Transaction.t) :
  UTXOSet.canProcessTransaction u tx = true
  ↔ returns (UTXOSet.processTransaction ω tx k u) = true.
Proof.
  unfold UTXOSet.canProcessTransaction, UTXOSet.processTransaction.
  destruct (Transaction.fromAddress tx) as [from|]; [|done].
  run_set. rewrite Z.leb_le.
  destruct (Z.ltb_spec (UTXOSet.getBalance u from)
                       (Transaction.amount tx + Transaction.fee tx)); simpl.
  - split; [lia|done].
  - destruct (UTXOSet.select _ _ _ _) as [toSpend totalSelected]. simpl.
    by destruct (0 <? _).
Qed.

(** X2. [processTransaction] touches the sender and the receiver only:
    for any other address the cached balance and the outputs are after
    the call what they were before, whether it returns or throws. *)
Theorem processTransaction_frame (k : Ticks) (u : UTXOSet.t) (tx : Transaction.t)
    (a : string) :
  Transaction.fromAddress tx ≠ Some a →
  Transaction.toAddress tx ≠ a →
  let u' := state_of (UTXOSet.processTransaction ω tx k u) in
  UTXOSet.getBalance u' a = UTXOSet.getBalance u a
  ∧ UTXOSet.getUTXOs u' a = UTXOSet.getUTXOs u a.
Proof.
  intros Hfrom Hto. unfold UTXOSet.processTransaction.
  destruct (Transaction.fromAddress tx) as [from|].
  - assert (from ≠ a) by congruence. run_set.
    destruct (Z.ltb_spec (UTXOSet.getBalance u from)
                         (Transaction.amount tx + Transaction.fee tx)); simpl; [done|].
    destruct (UTXOSet.select _ _ _ _) as [toSpend totalSelected]. simpl.
    destruct (0 <? _); simpl; unfold UTXOSet.getBalance, UTXOSet.getUTXOs; simpl;
      rewrite !lookup_insert_ne by done;
      (destruct (UTXOSet.utxos u !! from); by rewrite ?lookup_insert_ne by done).
  - run_set. unfold UTXOSet.getBalance, UTXOSet.getUTXOs. simpl.
    by rewrite !lookup_insert_ne by done.
Qed.

(** X3. A transfer that returns credits the receiver, when it is not the
    sender, with exactly the amount: one output carrying the
    transaction's id, the amount and index 0 is appended to the
    receiver's outputs, and the cached balance grows by the amount. *)
Theorem processTransaction_credits_receiver (k k' : Ticks) (u u' : UTXOSet.t)
    (tx : Transaction.t) :
  Transaction.fromAddress tx ≠ Some (Transaction.toAddress tx) →
  UTXOSet.processTransaction ω tx k u = Returned tt k' u' →
  UTXOSet.getBalance u' (Transaction.toAddress tx)
  = UTXOSet.getBalance u (Transaction.toAddress tx) + Transaction.amount tx
  ∧ ∃ stamp,
      UTXOSet.getUTXOs u' (Transaction.toAddress tx)
      = UTXOSet.getUTXOs u (Transaction.toAddress tx)
        ++ [{| UTXOSet.txId := Transaction.txId tx;
               UTXOSet.amount := Transaction.amount tx;
               UTXOSet.outputIndex := 0; UTXOSet.timestamp := stamp |}].
Proof.
  intros Hne. unfold UTXOSet.processTransaction.
  destruct (Transaction.fromAddress tx) as [from|].
  - assert (from ≠ Transaction.toAddress tx) by congruence. run_set.
    destruct (Z.ltb_spec (UTXOSet.getBalance u from)
                         (Transaction.amount tx + Transaction.fee tx)); simpl; [done|].
    destruct (UTXOSet.select _ _ _ _) as [toSpend totalSelected]. simpl.
    destruct (0 <? _); simpl; intros [= <- <-];
      unfold UTXOSet.getBalance, UTXOSet.getUTXOs; simpl;
      rewrite !lookup_insert_eq; simpl; rewrite !lookup_insert_ne by done;
      (split; [done|]); eexists;
      (destruct (UTXOSet.utxos u !! from); by rewrite ?lookup_insert_ne by done).
  - run_set. intros [= <- <-]. unfold UTXOSet.getBalance, UTXOSet.getUTXOs. simpl.
    rewrite !lookup_insert_eq. simpl. split; [done|]. by eexists.
Qed.

Lemma insert_desc_sorted {A} (key : A → Z) (x : A) (l : list A) :
  StronglySorted (λ a b, key b ≤ key a) l →
  StronglySorted (λ a b, key b ≤ key a) (insert_desc key x l).
Proof.
  induction l as [|y l IH]; simpl; intros Hs.
  - by repeat constructor.
  - apply StronglySorted_inv in Hs as [Hs Hy].
    destruct (Z.ltb_spec (key x) (key y)).
    + constructor; [by apply IH|].
      rewrite insert_desc_perm. constructor; [lia|done].
    + constructor; [by constructor|]. constructor; [lia|].
      eapply Forall_impl; [exact Hy|]. simpl. intros; lia.
Qed.

Lemma sort_desc_sorted {A} (key : A → Z) (l : list A) :
  StronglySorted (λ a b, key b ≤ key a) (sort_desc key l).
Proof.
  induction l as [|x l IH]; simpl; [constructor|]. by apply insert_desc_sorted.
Qed.

(** The loop stops at the first prefix that covers the amount: every
    shorter prefix falls short of it. *)
Lemma select_minimal (sorted : list UTXOSet.UTXO) (amt : Z) (acc : list UTXOSet.UTXO)
    (tot : Z) :
  ∃ j : nat,
    UTXOSet.select sorted amt acc tot
    = (acc ++ take j sorted, tot + UTXOSet.total (take j sorted))
    ∧ (j ≤ length sorted)%nat
    ∧ ∀ i : nat, (i < j)%nat → tot + UTXOSet.total (take i sorted) < amt.
Proof.
  revert acc tot. induction sorted as [|x sorted IH]; intros acc tot; simpl.
  - exists 0%nat. simpl. rewrite app_nil_r, Z.add_0_r. split; [done|]. split; [done|]. lia.
  - destruct (Z.leb_spec amt tot) as [Hle|Hgt].
    + exists 0%nat. simpl. rewrite app_nil_r, Z.add_0_r. split; [done|]. split; lia.
    + destruct (IH (acc ++ [x]) (tot + UTXOSet.amount x)) as (j & -> & Hlen & Hmin).
      exists (S j). simpl. fold (UTXOSet.total (take j sorted)).
      rewrite <- app_assoc. simpl. split; [f_equal; lia|]. split; [lia|].
      intros [|i] Hi; simpl; [lia|]. fold (UTXOSet.total (take i sorted)).
      specialize (Hmin i). lia.
Qed.

(** The outputs a spend reports are chosen largest first and no more
    than needed. *)
Lemma spendUTXO_selection (address : string) (amt : Z) (k k' : Ticks)
    (u u' : UTXOSet.t) (res : UTXOSet.SpendResult) :
  UTXOSet.spendUTXO ω address amt k u = Returned res k' u' →
  ∃ passed,
    sort_desc UTXOSet.amount (UTXOSet.getUTXOs u address)
    = UTXOSet.spentUTXOs res ++ passed
    ∧ UTXOSet.totalSpent res = UTXOSet.total (UTXOSet.spentUTXOs res)
    ∧ (∀ x y, x ∈ UTXOSet.spentUTXOs res → y ∈ passed →
              UTXOSet.amount y ≤ UTXOSet.amount x)
    ∧ (∀ firsts lst, UTXOSet.spentUTXOs res = firsts ++ [lst] →
                     UTXOSet.total firsts < amt).
Proof.
  run_set. destruct (Z.ltb_spec (UTXOSet.getBalance u address) amt); [done|].
  set (sorted := sort_desc UTXOSet.amount (UTXOSet.getUTXOs u address)).
  destruct (select_minimal sorted amt [] 0) as (j & -> & Hlen & Hmin). simpl.
  assert (Hres : ∀ r : UTXOSet.SpendResult,
            UTXOSet.spentUTXOs r = take j sorted →
            UTXOSet.totalSpent r = 0 + UTXOSet.total (take j sorted) →
            ∃ passed,
              sorted = UTXOSet.spentUTXOs r ++ passed
              ∧ UTXOSet.totalSpent r = UTXOSet.total (UTXOSet.spentUTXOs r)
              ∧ (∀ x y, x ∈ UTXOSet.spentUTXOs r → y ∈ passed →
                        UTXOSet.amount y ≤ UTXOSet.amount x)
              ∧ (∀ firsts lst, UTXOSet.spentUTXOs r = firsts ++ [lst] →
                               UTXOSet.total firsts < amt)).
  { intros r -> ->. exists (drop j sorted). rewrite take_drop. split; [done|].
    split; [lia|]. split.
    - intros x y Hx Hy.
      pose proof (sort_desc_sorted UTXOSet.amount (UTXOSet.getUTXOs u address)) as Hs.
      fold sorted in Hs. rewrite <- (take_drop j sorted) in Hs.
      by apply (StronglySorted_app_1_elem_of _ _ _ x y) in Hs.
    - intros firsts lst Heq.
      assert (Hj : length (take j sorted) = j) by (rewrite length_take; lia).
      rewrite Heq, length_app in Hj. simpl in Hj.
      specialize (Hmin (length firsts)).
      assert (Hf : take (length firsts) sorted = firsts).
      { rewrite <- (take_drop j sorted), Heq, <- app_assoc.
        by rewrite take_app_length. }
      rewrite Hf in Hmin. lia. }
  destruct (0 <? _); simpl; intros [= <- _ _]; by apply Hres.
Qed.

Lemma splice_first_sublist (x : UTXOSet.UTXO) (l : list UTXOSet.UTXO) :
  sublist (UTXOSet.splice_first x l) l.
Proof.
  induction l as [|y l IH]; simpl; [done|].
  case_match; [by apply sublist_cons|by apply sublist_skip].
Qed.

Lemma remove_spent_sublist (toSpend l : list UTXOSet.UTXO) :
  sublist (UTXOSet.remove_spent toSpend l) l.
Proof.
  revert l. induction toSpend as [|x ts IH]; intros l; [done|].
  unfold UTXOSet.remove_spent. simpl. fold (UTXOSet.remove_spent ts (UTXOSet.splice_first x l)).
  etrans; [apply IH|apply splice_first_sublist].
Qed.

(** The outputs of the address after a spend: what the splices leave of
    the stored ones, then the change output when there is change. *)
Lemma spendUTXO_kept (address : string) (amt : Z) (k k' : Ticks)
    (u u' : UTXOSet.t) (res : UTXOSet.SpendResult) :
  UTXOSet.spendUTXO ω address amt k u = Returned res k' u' →
  UTXOSet.getUTXOs u' address
  = UTXOSet.remove_spent (UTXOSet.spentUTXOs res) (UTXOSet.getUTXOs u address)
    ++ (if 0 <? UTXOSet.change res
        then [{| UTXOSet.txId := pretty (dateNow ω (nowCalls k))
                                 +:+ mathRandom ω (randomCalls k);
                 UTXOSet.amount := UTXOSet.change res;
                 UTXOSet.outputIndex := 1;
                 UTXOSet.timestamp := dateNow ω (S (nowCalls k)) |}]
        else []).
Proof.
  run_set. destruct (Z.ltb_spec (UTXOSet.getBalance u address) amt); [done|].
  destruct (UTXOSet.select _ _ _ _) as [toSpend totalSelected]. simpl.
  destruct (0 <? totalSelected - amt) eqn:Hchg; simpl; intros [= <- <- <-]; simpl;
    rewrite Hchg; unfold UTXOSet.getUTXOs; simpl;
    destruct (UTXOSet.utxos u !! address) as [stored|] eqn:Hst; simpl;
    rewrite ?lookup_insert_eq, ?Hst; simpl;
    rewrite ?remove_spent_nil, ?app_nil_r; done.
Qed.

(** X4. The outputs a spend consumes are chosen largest first and no more
    than needed: the reported ones are a prefix of the address's outputs
    sorted by descending amount, so none of the outputs passed over is
    larger than a reported one, and without the last reported output the
    total would fall short of the amount. The ledger keeps, in their
    order, a part of the outputs it had, followed by the change output
    when there is change; when the outputs of the address are told apart
    by id and index, the outputs taken out of the ledger are exactly the
    reported ones. *)
Theorem spendUTXO_greedy (address : string) (amt : Z) (k k' : Ticks)
    (u u' : UTXOSet.t) (res : UTXOSet.SpendResult) :
  UTXOSet.spendUTXO ω address amt k u = Returned res k' u' →
  ∃ passed,
    sort_desc UTXOSet.amount (UTXOSet.getUTXOs u address)
    = UTXOSet.spentUTXOs res ++ passed
    ∧ UTXOSet.totalSpent res = UTXOSet.total (UTXOSet.spentUTXOs res)
    ∧ (∀ x y, x ∈ UTXOSet.spentUTXOs res → y ∈ passed →
              UTXOSet.amount y ≤ UTXOSet.amount x)
    ∧ (∀ firsts lst, UTXOSet.spentUTXOs res = firsts ++ [lst] →
                     UTXOSet.total firsts < amt)
    ∧ ∃ kept,
        UTXOSet.getUTXOs u' address
        = kept ++ (if 0 <? UTXOSet.change res
                   then [{| UTXOSet.txId := pretty (dateNow ω (nowCalls k))
                                            +:+ mathRandom ω (randomCalls k);
                            UTXOSet.amount := UTXOSet.change res;
                            UTXOSet.outputIndex := 1;
                            UTXOSet.timestamp := dateNow ω (S (nowCalls k)) |}]
                   else [])
        ∧ sublist kept (UTXOSet.getUTXOs u address)
        ∧ (Spec.distinct_outputs u address →
           UTXOSet.getUTXOs u address ≡ₚ UTXOSet.spentUTXOs res ++ kept
           ∧ kept ≡ₚ passed).
Proof.
  intros Hrun.
  destruct (spendUTXO_selection _ _ _ _ _ _ _ Hrun) as (passed & Hsort & Htot & Hle & Hmin).
  exists passed. split; [done|]. split; [done|]. split; [done|]. split; [done|].
  exists (UTXOSet.remove_spent (UTXOSet.spentUTXOs res) (UTXOSet.getUTXOs u address)).
  split; [exact (spendUTXO_kept _ _ _ _ _ _ _ Hrun)|]. split; [apply remove_spent_sublist|].
  intros Hnd.
  pose proof (sort_desc_perm UTXOSet.amount (UTXOSet.getUTXOs u address)) as Hperm.
  assert (Hsub : UTXOSet.spentUTXOs res ⊆+ UTXOSet.getUTXOs u address).
  { rewrite <- Hperm, Hsort. by apply submseteq_inserts_r. }
  pose proof (remove_spent_perm _ _ Hnd Hsub) as Hsplit.
  split; [done|].
  apply (Permutation_app_inv_l (UTXOSet.spentUTXOs res)).
  by rewrite <- Hsplit, <- Hsort, Hperm.
Qed.

(** The sum of all cached balances after one of them is written. *)
Lemma supply_insert (m : gmap string Z) (a : string) (v : Z) :
  map_fold (λ (_ : string) balance total, total + balance) 0 (<[a := v]> m)
  = map_fold (λ (_ : string) balance total, total + balance) 0 m
    - default 0 (m !! a) + v.
Proof.
  destruct (m !! a) as [x|] eqn:Ha; simpl.
  - rewrite <- insert_delete_eq.
    rewrite map_fold_insert_L; [|intros; lia|by rewrite lookup_delete_eq].
    rewrite (map_fold_delete_L _ _ a x m); [lia|intros; lia|done].
  - rewrite map_fold_insert_L; [lia|intros; lia|done].
Qed.

(** X5. What a transaction does to [getTotalSupply], the sum of the
    cached balances. A coinbase adds its amount. A transfer that returns
    takes the fee out and adds the change of the spend a second time:
    the supply moves by change minus fee. *)
Theorem processTransaction_supply (k k' : Ticks) (u u' : UTXOSet.t) (tx : Transaction.t) :
  UTXOSet.processTransaction ω tx k u = Returned tt k' u' →
  match Transaction.fromAddress tx with
  | None => UTXOSet.getTotalSupply u' = UTXOSet.getTotalSupply u + Transaction.amount tx
  | Some from =>
    let need := Transaction.amount tx + Transaction.fee tx in
    let selected :=
      (UTXOSet.select (sort_desc UTXOSet.amount (UTXOSet.getUTXOs u from)) need [] 0).2 in
    UTXOSet.getTotalSupply u'
    = UTXOSet.getTotalSupply u - Transaction.fee tx + Z.max 0 (selected - need)
  end.
Proof.
  unfold UTXOSet.processTransaction, UTXOSet.getTotalSupply.
  destruct (Transaction.fromAddress tx) as [from|].
  - run_set.
    destruct (Z.ltb_spec (UTXOSet.getBalance u from)
                         (Transaction.amount tx + Transaction.fee tx)); simpl; [done|].
    destruct (UTXOSet.select _ _ _ _) as [toSpend totalSelected]. simpl.
    destruct (Z.ltb_spec 0 (totalSelected
                            - (Transaction.amount tx + Transaction.fee tx)));
      simpl; intros [= <- <-]; simpl; unfold UTXOSet.getBalance; simpl;
      rewrite !supply_insert; rewrite ?lookup_insert_eq; simpl.
    + destruct (decide (from = Transaction.toAddress tx)) as [->|Hne].
      * rewrite !lookup_insert_eq. simpl. lia.
      * rewrite !lookup_insert_ne by done. lia.
    + destruct (decide (from = Transaction.toAddress tx)) as [->|Hne].
      * rewrite !lookup_insert_eq. simpl. lia.
      * rewrite !lookup_insert_ne by done. lia.
  - run_set. intros [= <- <-]. simpl. unfold UTXOSet.getBalance.
    rewrite supply_insert. lia.
Qed.

Lemma Map_of_snoc {V} (es : list (string * V)) (a : string) (v : V) :
  UTXOSet.Map_of (es ++ [(a, v)]) = <[a := v]> (UTXOSet.Map_of es).
Proof. unfold UTXOSet.Map_of. by rewrite foldl_app. Qed.

Lemma Map_of_list_to_map {V} (es : list (string * V)) :
  NoDup (es.*1) → UTXOSet.Map_of es = list_to_map es.
Proof.
  induction es as [|[a v] es IH] using rev_ind; [done|].
  rewrite fmap_app, NoDup_app. simpl. intros (Hnd & Hnot & _).
  rewrite Map_of_snoc, IH by done. symmetry. apply list_to_map_snoc.
  intros Hin. by apply (Hnot a); [|apply list_elem_of_here].
Qed.

(** X6. The snapshot round trip of the ledger: [fromJSON] rebuilds from
    the entries written by [toJSON], listed in any order, the ledger they
    were taken from. A field missing from the data gives an empty map,
    and of two entries with one key the later one counts. *)
Theorem UTXOSet_fromJSON_toJSON (u : UTXOSet.t)
    (utxoEntries : list (string * list UTXOSet.UTXO)) (balanceEntries : list (string * Z)) :
  utxoEntries ≡ₚ map_to_list (UTXOSet.utxos u) →
  balanceEntries ≡ₚ map_to_list (UTXOSet.balances u) →
  UTXOSet.fromJSON {| UTXOSet.data_utxos := Some utxoEntries;
                      UTXOSet.data_balances := Some balanceEntries |} = u
  ∧ UTXOSet.fromJSON (UTXOSet.toJSON u) = u
  ∧ UTXOSet.fromJSON {| UTXOSet.data_utxos := None; UTXOSet.data_balances := None |}
    = UTXOSet.empty
  ∧ ∀ a v v', UTXOSet.Map_of (balanceEntries ++ [(a, v); (a, v')]) !! a = Some v'.
Proof.
  intros Hu Hb.
  assert (Hrt : ∀ V (m : gmap string V) es, es ≡ₚ map_to_list m → UTXOSet.Map_of es = m).
  { intros V m es Hes. rewrite Map_of_list_to_map.
    - rewrite (list_to_map_proper es (map_to_list m)); [apply list_to_map_to_list| |done].
      rewrite Hes. apply NoDup_fst_map_to_list.
    - rewrite Hes. apply NoDup_fst_map_to_list. }
  repeat split.
  - unfold UTXOSet.fromJSON. simpl. rewrite (Hrt _ _ _ Hu), (Hrt _ _ _ Hb). by destruct u.
  - unfold UTXOSet.fromJSON, UTXOSet.toJSON. simpl.
    rewrite !(Hrt _ _ _ (reflexivity _)). by destruct u.
  - intros a v v'.
    change (balanceEntries ++ [(a, v); (a, v')])
      with (balanceEntries ++ [(a, v)] ++ [(a, v')]).
    rewrite app_assoc, Map_of_snoc. apply lookup_insert_eq.
Qed.

End LedgerMore.

Lemma processTransaction_frame_witness :
  let u' := state_of (UTXOSet.processTransaction Run.ω Run.T1 ticks0 (Run.ledger_with 100)) in
  UTXOSet.getBalance u' Run.B_addr = UTXOSet.getBalance (Run.ledger_with 100) Run.B_addr
  ∧ UTXOSet.getUTXOs u' Run.B_addr = UTXOSet.getUTXOs (Run.ledger_with 100) Run.B_addr.
Proof.
  apply (processTransaction_frame Run.ω ticks0 (Run.ledger_with 100) Run.T1 Run.B_addr);
    discriminate.
Defined.

Lemma processTransaction_credits_receiver_witness :
  ∃ k' u',
    UTXOSet.processTransaction Run.ω Run.T1 ticks0 (Run.ledger_with 100)
    = Returned tt k' u'
    ∧ UTXOSet.getBalance u' Run.A_addr = 0 + 80.
Proof.
  eexists _, _. split; [vm_compute; reflexivity|].
  refine (proj1 (processTransaction_credits_receiver Run.ω ticks0 _
                   (Run.ledger_with 100) _ Run.T1 _ _)).
  - discriminate.
  - vm_compute. reflexivity.
Defined.

(** [M] holds outputs of 40, 60 and 50 and spends 100: the outputs of 60
    and 50 are reported and leave the ledger, the output of 40 stays, and
    a change output of 10 is added. *)
Lemma spendUTXO_greedy_witness :
  ∃ res k' u' passed kept,
    UTXOSet.spendUTXO Run.ω Run.M_addr 100 ticks0 Run.ledger_three = Returned res k' u'
    ∧ map UTXOSet.amount (UTXOSet.spentUTXOs res) = [60; 50]
    ∧ sort_desc UTXOSet.amount (UTXOSet.getUTXOs Run.ledger_three Run.M_addr)
      = UTXOSet.spentUTXOs res ++ passed
    ∧ map UTXOSet.amount (UTXOSet.getUTXOs u' Run.M_addr) = [40; 10]
    ∧ UTXOSet.getUTXOs Run.ledger_three Run.M_addr ≡ₚ UTXOSet.spentUTXOs res ++ kept
    ∧ kept ≡ₚ passed.
Proof.
  eexists _, _, _.
  destruct (spendUTXO_greedy Run.ω Run.M_addr 100 ticks0
              (ticks_of (UTXOSet.spendUTXO Run.ω Run.M_addr 100 ticks0 Run.ledger_three))
              Run.ledger_three
              (state_of (UTXOSet.spendUTXO Run.ω Run.M_addr 100 ticks0 Run.ledger_three))
              {| UTXOSet.spentUTXOs :=
                   take 2 (sort_desc UTXOSet.amount
                             (UTXOSet.getUTXOs Run.ledger_three Run.M_addr));
                 UTXOSet.change := 10; UTXOSet.totalSpent := 110 |})
    as (passed & Hsorted & _ & _ & _ & kept & _ & _ & Hdistinct).
  - vm_compute. reflexivity.
  - exists passed, kept. split; [vm_compute; reflexivity|].
    split; [vm_compute; reflexivity|]. split; [exact Hsorted|].
    split; [vm_compute; reflexivity|].
    apply Hdistinct. refine (bool_decide_unpack _ _). vm_compute. exact I.
Defined.

(** Without that, the splice takes the first output with the id and the
    index of the reported one. [M] holds two outputs with the same id
    and index, of 40 and of 60, and spends 60: the output of 60 is
    reported, and the output of 40 is the one that leaves the ledger. *)
Lemma spendUTXO_same_key_takes_another :
  let out := UTXOSet.spendUTXO Run.ω Run.M_addr 60 ticks0 Run.ledger_same_key in
  map UTXOSet.amount (UTXOSet.getUTXOs Run.ledger_same_key Run.M_addr) = [40; 60]
  ∧ (∃ res k' u', out = Returned res k' u'
                  ∧ map UTXOSet.amount (UTXOSet.spentUTXOs res) = [60])
  ∧ map UTXOSet.amount (UTXOSet.getUTXOs (state_of out) Run.M_addr) = [60]
  ∧ UTXOSet.getBalance (state_of out) Run.M_addr = 40.
Proof.
  simpl. split; [vm_compute; reflexivity|]. split.
  - eexists _, _, _. split; vm_compute; reflexivity.
  - vm_compute. by split.
Qed.

Lemma processTransaction_supply_witness :
  ∃ k' u',
    UTXOSet.processTransaction Run.ω Run.T1 ticks0 (Run.ledger_with 100)
    = Returned tt k' u'
    ∧ UTXOSet.getTotalSupply u'
      = UTXOSet.getTotalSupply (Run.ledger_with 100) - 0 + Z.max 0 (100 - 80).
Proof.
  eexists _, _. split; [vm_compute; reflexivity|].
  refine (processTransaction_supply Run.ω ticks0 _ (Run.ledger_with 100) _ Run.T1 _).
  vm_compute. reflexivity.
Defined.

Lemma UTXOSet_fromJSON_toJSON_witness :
  UTXOSet.fromJSON (UTXOSet.toJSON (Run.ledger_with 100)) = Run.ledger_with 100.
Proof.
  exact (proj1 (proj2 (UTXOSet_fromJSON_toJSON (Run.ledger_with 100) _ _
                         (reflexivity _) (reflexivity _)))).
Defined.

(** ** Transaction and Block: construction, parsing, Merkle root, proof of work *)

Section Construction.
Context `{Host} `{Json}.
Variable ω : Oracle.

(** X7. [createTransferTransaction] refuses a missing sender or receiver
    and an amount that is not positive, without reading the clock.
    Otherwise it returns a transaction with the given fields, stamped
    with the clock value, whose id is the hash of its fields and which
    carries no signature: until it is signed, [isValid] rejects it. *)
Theorem createTransferTransaction_spec {St} (from : option string) (to : string)
    (amt fe : Z) (k : Ticks) (s : St) :
  ∃ r,
    Transaction.createTransferTransaction ω from to amt fe k s
    = Returned r (match r with inl _ => k | inr _ => tick_now k end) s
    ∧ match r with
      | inl Transaction.MissingAddress => truthy_opt from = false ∨ truthy to = false
      | inl Transaction.NonPositiveAmount =>
        truthy_opt from = true ∧ truthy to = true ∧ amt ≤ 0
      | inr tx =>
        truthy_opt from = true ∧ truthy to = true ∧ 0 < amt
        ∧ Transaction.fromAddress tx = from ∧ Transaction.toAddress tx = to
        ∧ Transaction.amount tx = amt ∧ Transaction.fee tx = fe
        ∧ Transaction.timestamp tx = dateNow ω (nowCalls k)
        ∧ Transaction.signature tx = None
        ∧ Transaction.txId tx = Transaction.calculateHash tx
        ∧ Transaction.isValid tx = Ok false
      end.
Proof.
  unfold Transaction.createTransferTransaction.
  destruct (truthy_opt from) eqn:Hf; simpl.
  2:{ exists (inl Transaction.MissingAddress). split; [done|by left]. }
  destruct (truthy to) eqn:Ht; simpl.
  2:{ exists (inl Transaction.MissingAddress). split; [done|by right]. }
  destruct (Z.leb_spec amt 0).
  { by exists (inl Transaction.NonPositiveAmount). }
  eexists (inr _). split; [reflexivity|]. simpl.
  repeat split; try done.
  unfold Transaction.isValid. simpl. by destruct from.
Qed.

(** X8. Parsing gives back what was serialized: [Block.fromJSON] returns
    the block of the data, with its transactions, its [hash] and its
    [merkleRoot] as they stand in the data, whether or not they
    re-derive; the only trace it leaves is one reading of the clock for
    each transaction. *)
Theorem Block_fromJSON_roundtrip {St} (data : Block.t) (k : Ticks) (s : St) :
  Block.fromJSON ω data k s
  = Returned data
      {| nowCalls := nowCalls k + length (Block.transactions data);
         randomCalls := randomCalls k |} s.
Proof.
  unfold Block.fromJSON, Js.bind.
  assert (Htxs : ∀ txs (k0 : Ticks),
            Block.txs_fromJSON ω txs k0 s
            = Returned txs {| nowCalls := nowCalls k0 + length txs;
                              randomCalls := randomCalls k0 |} s).
  { induction txs as [|d txs IH]; intros k0; simpl.
    - unfold Js.ret. rewrite Nat.add_0_r. by destruct k0.
    - unfold Js.bind. rewrite Transaction_fromJSON_run, IH. simpl.
      unfold Js.ret. do 2 f_equal. lia. }
  rewrite Htxs. by destruct data.
Qed.

Lemma merkleLevel_app_even (n : nat) (l r : list string) :
  length l = (2 * n)%nat →
  Block.merkleLevel (l ++ r) = Block.merkleLevel l ++ Block.merkleLevel r.
Proof.
  revert l. induction n as [|n IH]; intros l Hl.
  - by destruct l.
  - destruct l as [|a [|b l]]; simpl in Hl; try lia.
    simpl. f_equal. apply IH. lia.
Qed.

Lemma merkleLevel_length (n : nat) (l : list string) :
  (length l ≤ 2 * n)%nat → (length (Block.merkleLevel l) ≤ n)%nat.
Proof.
  revert l. induction n as [|n IH]; intros l Hl.
  - destruct l; simpl in *; lia.
  - destruct l as [|a [|b l]]; simpl in *; try lia.
    specialize (IH l). lia.
Qed.

Lemma merkleLevel_nonempty (l : list string) : l ≠ [] → Block.merkleLevel l ≠ [].
Proof. by destruct l as [|a [|b l]]. Qed.

(** With fuel for every level the tree is built to its root, and more
    fuel changes nothing. *)
Lemma buildMerkleTree_fuel (n : nat) (l : list string) (f1 f2 : nat) :
  (length l ≤ n)%nat → l ≠ [] → (length l ≤ f1)%nat → (length l ≤ f2)%nat →
  Block.buildMerkleTree f1 l = Block.buildMerkleTree f2 l.
Proof.
  revert l f1 f2. induction n as [|n IH]; intros l f1 f2 Hn Hne H1 H2.
  - destruct l; [done|simpl in Hn; lia].
  - destruct l as [|a [|b l]]; [done|by destruct f1, f2|].
    destruct f1 as [|f1]; [simpl in H1; lia|].
    destruct f2 as [|f2]; [simpl in H2; lia|].
    change (Block.buildMerkleTree f1 (Block.merkleLevel (a :: b :: l))
            = Block.buildMerkleTree f2 (Block.merkleLevel (a :: b :: l))).
    assert (Hlen : (length (Block.merkleLevel (a :: b :: l)) ≤ S (length l))%nat).
    { simpl. pose proof (merkleLevel_length (length l) l). lia. }
    simpl in Hn, H1, H2.
    apply IH; [lia|by apply merkleLevel_nonempty|lia|lia].
Qed.

(** X9. The Merkle root of an odd number of transactions, three or more,
    is the root of the same list with its last transaction repeated. A
    single transaction is the exception: its root is its own hash, not
    the hash of the doubled leaf; and an empty list has the hash of the
    empty string. *)
Theorem calculateMerkleRoot_odd (txs : list Transaction.t) (lst : Transaction.t)
    (n : nat) :
  length txs = (2 * S n)%nat →
  Block.calculateMerkleRoot (txs ++ [lst]) = Block.calculateMerkleRoot (txs ++ [lst; lst])
  ∧ Block.calculateMerkleRoot [lst] = Transaction.calculateHash lst
  ∧ Block.calculateMerkleRoot [lst; lst]
    = sha256_hex (Transaction.calculateHash lst +:+ Transaction.calculateHash lst)
  ∧ Block.calculateMerkleRoot [] = sha256_hex EmptyString.
Proof.
  intros Hlen. split; [|split; [done|split; [|done]]].
  2:{ unfold Block.calculateMerkleRoot. simpl.
      by destruct (truthy (Transaction.calculateHash lst)). }
  unfold Block.calculateMerkleRoot.
  destruct txs as [|t1 [|t2 txs]]; simpl in Hlen; try lia.
  change (Block.buildMerkleTree
            (length (map Transaction.calculateHash ((t1 :: t2 :: txs) ++ [lst])))
            (map Transaction.calculateHash ((t1 :: t2 :: txs) ++ [lst]))
          = Block.buildMerkleTree
              (length (map Transaction.calculateHash ((t1 :: t2 :: txs) ++ [lst; lst])))
              (map Transaction.calculateHash ((t1 :: t2 :: txs) ++ [lst; lst]))).
  rewrite !map_app, !length_app, !length_map. simpl length.
  set (hs := map Transaction.calculateHash (t1 :: t2 :: txs)).
  assert (Hhs : length hs = (2 * S n)%nat) by (unfold hs; simpl; rewrite length_map; lia).
  set (h := Transaction.calculateHash lst).
  assert (Hlevel : Block.merkleLevel (hs ++ map Transaction.calculateHash [lst; lst])
                   = Block.merkleLevel (hs ++ map Transaction.calculateHash [lst])).
  { rewrite !(merkleLevel_app_even (S n)) by done. simpl. fold h. by destruct (truthy h). }
  assert (Hshape : ∃ a b rest, hs = a :: b :: rest) by (unfold hs; simpl; eauto).
  destruct Hshape as (a & b & rest & Hshape).
  replace (S (S (length txs)) + 1)%nat with (S (S (S (length txs)))) by lia.
  replace (S (S (length txs)) + 2)%nat with (S (S (S (S (length txs))))) by lia.
  assert (Hstep : ∀ f tl, Block.buildMerkleTree (S f) (hs ++ tl)
                          = Block.buildMerkleTree f (Block.merkleLevel (hs ++ tl))).
  { intros f tl. by rewrite Hshape. }
  rewrite !Hstep, Hlevel.
  assert (Hsmall : (length (Block.merkleLevel (hs ++ map Transaction.calculateHash [lst]))
                    ≤ S (S (length txs)))%nat).
  { apply merkleLevel_length. rewrite length_app, Hhs. simpl in *. lia. }
  apply (buildMerkleTree_fuel (S (S (length txs)))); try lia.
  apply merkleLevel_nonempty. by rewrite Hshape.
Qed.

(** One step of the proof-of-work loop. *)
Lemma Block_mineBlock_step (fuel difficulty : nat) (b : Block.t) :
  Block.meets_target difficulty (Block.hash b) = false →
  Block.mineBlock (S fuel) difficulty b
  = Block.mineBlock fuel difficulty
      {| Block.index := Block.index b; Block.previousHash := Block.previousHash b;
         Block.timestamp := Block.timestamp b; Block.transactions := Block.transactions b;
         Block.nonce := Block.nonce b + 1;
         Block.hash := Block.hash_of (Block.index b) (Block.previousHash b)
                                     (Block.timestamp b) (Block.transactions b)
                                     (Block.nonce b + 1);
         Block.merkleRoot := Block.merkleRoot b |}.
Proof. intros Hno. simpl. by rewrite Hno. Qed.

(** X10. What the proof-of-work loop hands back. The block it returns
    meets the target; it differs from the block it started from in nonce
    and hash only; the nonce went up by no more than the nonces tried;
    unless the first block was returned untouched, the hash is the hash
    of the returned fields; and every nonce passed on the way gave a hash
    that missed the target. *)
Theorem Block_mineBlock_spec (fuel difficulty : nat) (b b' : Block.t) :
  Block.mineBlock fuel difficulty b = Some b' →
  Block.meets_target difficulty (Block.hash b') = true
  ∧ Block.index b' = Block.index b
  ∧ Block.previousHash b' = Block.previousHash b
  ∧ Block.timestamp b' = Block.timestamp b
  ∧ Block.transactions b' = Block.transactions b
  ∧ Block.merkleRoot b' = Block.merkleRoot b
  ∧ Block.nonce b ≤ Block.nonce b' ≤ Block.nonce b + Z.of_nat fuel
  ∧ (b' = b ∨ (Block.nonce b < Block.nonce b'
               ∧ Block.hasValidHash b' = true
               ∧ Block.meets_target difficulty (Block.hash b) = false))
  ∧ ∀ nc, Block.nonce b < nc < Block.nonce b' →
          Block.meets_target difficulty
            (Block.hash_of (Block.index b) (Block.previousHash b) (Block.timestamp b)
                           (Block.transactions b) nc) = false.
Proof.
  revert b. induction fuel as [|fuel IH]; intros b.
  - simpl. destruct (Block.meets_target difficulty (Block.hash b)) eqn:Hm; [|done].
    intros [= <-]. repeat split; try done; try lia. by left.
  - destruct (Block.meets_target difficulty (Block.hash b)) eqn:Hm.
    + simpl. rewrite Hm. intros [= <-]. repeat split; try done; try lia. by left.
    + rewrite Block_mineBlock_step by done. intros Hrun.
      apply IH in Hrun as (Ht & Hi & Hp & Hts & Htx & Hmr & Hn & Hhash & Hmin).
      simpl in *. repeat split; try done; try lia.
      * right. split; [lia|]. split; [|done].
        destruct Hhash as [->|(_ & Hv & _)]; [|done].
        unfold Block.hasValidHash, Block.calculateHash. simpl. apply String.eqb_refl.
      * intros nc Hnc. destruct (decide (nc = Block.nonce b + 1)) as [->|Hne].
        -- destruct Hhash as [->|(_ & _ & Hfirst)]; [simpl in *; lia|]. exact Hfirst.
        -- apply Hmin. lia.
Qed.

Lemma zeros_S (n : nat) : Block.zeros (S n) = "0" +:+ Block.zeros n.
Proof. unfold Block.zeros. simpl. by destruct n. Qed.

Lemma meets_target_S (d : nat) (h : string) :
  Block.meets_target (S d) h = true → Block.meets_target d h = true.
Proof.
  unfold Block.meets_target. rewrite !String.eqb_eq.
  revert h. induction d as [|d IH]; intros h.
  - intros _. by destruct h.
  - rewrite (zeros_S (S d)), (zeros_S d). destruct h as [|c h]; simpl; [done|].
    intros [= -> Hrest]. f_equal. apply IH. rewrite zeros_S. exact Hrest.
Qed.

Lemma meets_target_le (d d' : nat) (h : string) :
  (d ≤ d')%nat → Block.meets_target d' h = true → Block.meets_target d h = true.
Proof.
  induction 1 as [|d' _ IH]; [done|]. intros Hm. by apply IH, meets_target_S.
Qed.

(** X11. Validity is judged against the difficulty the node has now. A
    chain that [isValidChain] accepts stays accepted when the difficulty
    is lowered, and in an accepted chain every block after the first has
    a hash that meets the current difficulty: a block mined before the
    difficulty was raised, with no more zeros than it needed then, makes
    the chain fail afterwards. *)
Theorem isValidChain_difficulty (bc : Blockchain.t) (c : list Block.t) (d : nat) :
  Blockchain.isValidChain bc c = Ok true →
  ((d ≤ Blockchain.difficulty bc)%nat →
   Blockchain.isValidChain (Blockchain.set_difficulty d bc) c = Ok true)
  ∧ ∀ (i : nat) b, c !! S i = Some b →
      Block.meets_target (Blockchain.difficulty bc) (Block.hash b) = true.
Proof.
  intros Hvalid.
  assert (Hblock : ∀ cur prev,
            Blockchain.isValidNewBlock bc cur prev = Ok true →
            Block.meets_target (Blockchain.difficulty bc) (Block.hash cur) = true
            ∧ ((d ≤ Blockchain.difficulty bc)%nat →
               Blockchain.isValidNewBlock (Blockchain.set_difficulty d bc) cur prev
               = Ok true)).
  { intros cur prev. unfold Blockchain.isValidNewBlock. simpl.
    repeat (case_match; [done|]).
    destruct (Block.meets_target (Blockchain.difficulty bc) (Block.hash cur)) eqn:Hm;
      [|done]. simpl.
    intros Hrest. split; [done|]. intros Hle.
    by rewrite (meets_target_le _ _ _ Hle Hm). }
  rewrite isValidChain_pairs in Hvalid. split.
  - intros Hle. apply isValidChain_pairs. intros i prev cur Hprev Hcur.
    by apply (Hblock cur prev (Hvalid i prev cur Hprev Hcur)).
  - intros i b Hb.
    destruct (lookup_lt_is_Some_2 c i) as [prev Hprev].
    { apply lookup_lt_Some in Hb. lia. }
    by apply (Hblock b prev (Hvalid i prev b Hprev Hb)).
Qed.

End Construction.

Lemma calculateMerkleRoot_odd_witness :
  @Block.calculateMerkleRoot Run.host [Run.T1; Run.T2; Run.coinbase Run.A_addr 1 "c"]
  = @Block.calculateMerkleRoot Run.host
      [Run.T1; Run.T2; Run.coinbase Run.A_addr 1 "c"; Run.coinbase Run.A_addr 1 "c"].
Proof.
  exact (proj1 (@calculateMerkleRoot_odd Run.host [Run.T1; Run.T2]
                  (Run.coinbase Run.A_addr 1 "c") 0 eq_refl)).
Defined.

Lemma Block_mineBlock_spec_witness :
  ∃ b',
    @Block.mineBlock Run.host Run.json 3 2 (Run.plain_block 1 5) = Some b'
    ∧ Block.meets_target 2 (Block.hash b') = true
    ∧ Block.nonce b' = 1.
Proof.
  eexists. split; [vm_compute; reflexivity|].
  split; [|reflexivity].
  refine (proj1 (@Block_mineBlock_spec Run.host Run.json 3 2 (Run.plain_block 1 5) _ _)).
  vm_compute. reflexivity.
Defined.

Lemma isValidChain_difficulty_witness :
  @Blockchain.isValidChain Run.host Run.json
    (Blockchain.set_difficulty 1 Run.node_idle) [Run.genesis; Run.block1] = Ok true.
Proof.
  refine (proj1 (@isValidChain_difficulty Run.host Run.json Run.node_idle
                   [Run.genesis; Run.block1] 1 _) _).
  - vm_compute. reflexivity.
  - vm_compute. lia.
Defined.

(** ** Blockchain: the pool, selection, mining, validation, genesis, retargeting *)

Section ChainMore.
Context `{Host} `{Json}.
Variable ω : Oracle.

(** X12. What [addTransaction] does with a transaction: it throws for an
    invalid one, for one the sender's cached balance does not cover, and
    for one whose id is already in the pool, in that order, and leaves
    the chain object as it was; otherwise it appends the transaction to
    the pool and returns its id. A pool without two transactions of one
    id stays so. *)
Theorem addTransaction_outcomes (tx : Transaction.t) (k : Ticks) (bc : Blockchain.t) :
  ∃ valid,
    Transaction.isValid tx = Ok valid
    ∧ Blockchain.addTransaction tx k bc
      = (if negb valid then Thrown InvalidTransaction k bc
         else if negb (UTXOSet.canProcessTransaction (Blockchain.utxoSet bc) tx)
         then Thrown CannotProcess k bc
         else if existsb (λ p, String.eqb (Transaction.txId p) (Transaction.txId tx))
                         (Blockchain.pendingTransactions bc)
         then Thrown Duplicate k bc
         else Returned (Transaction.txId tx) k
                (Blockchain.set_pendingTransactions
                   (Blockchain.pendingTransactions bc ++ [tx]) bc))
    ∧ (NoDup (map Transaction.txId (Blockchain.pendingTransactions bc)) →
       NoDup (map Transaction.txId
                  (Blockchain.pendingTransactions
                     (state_of (Blockchain.addTransaction tx k bc))))).
Proof.
  destruct (isValid_total tx) as [valid Hvalid]. exists valid. split; [done|].
  unfold Blockchain.addTransaction, Js.bind, Js.get. rewrite Hvalid. simpl.
  destruct valid; simpl; [|done].
  destruct (UTXOSet.canProcessTransaction _ tx); simpl; [|done].
  destruct (existsb _ _) eqn:Hdup; simpl; [done|].
  split; [done|]. intros Hnd. rewrite map_app. simpl.
  apply NoDup_app. split; [done|]. split; [|apply NoDup_singleton].
  intros i Hi Hi'. apply list_elem_of_singleton in Hi' as ->.
  apply list_elem_of_fmap in Hi as (p & Hp & Hin).
  assert (existsb (λ p, String.eqb (Transaction.txId p) (Transaction.txId tx))
                  (Blockchain.pendingTransactions bc) = true); [|congruence].
  apply existsb_exists. exists p. split; [by apply list_elem_of_In|].
  rewrite <- Hp. apply String.eqb_refl.
Qed.

Lemma selectTransactionsForBlock_fold (l txs : list Transaction.t) (fees : Z) :
  foldl (λ '(txs, totalFees) tx, (txs ++ [tx], totalFees + Transaction.fee tx))
        (txs, fees) l
  = (txs ++ l, fees + foldr (λ tx acc, Transaction.fee tx + acc) 0 l).
Proof.
  revert txs fees. induction l as [|x l IH]; intros txs fees; simpl.
  - by rewrite app_nil_r, Z.add_0_r.
  - rewrite IH, <- app_assoc. simpl. f_equal. lia.
Qed.

(** X13. What goes into a block. [selectTransactionsForBlock] appends to
    the array it is given at most 99 pending transactions, each one
    affordable on its own, in descending order of fee, and returns the
    sum of their fees; a pending affordable transaction is left out only
    when 99 were taken, and then its fee is no higher than the fee of any
    that was taken. *)
Theorem selectTransactionsForBlock_spec (bc : Blockchain.t)
    (transactions : list Transaction.t) :
  let chosen := Blockchain.sortedPending bc in
  let affordable :=
    filter (λ tx, UTXOSet.canProcessTransaction (Blockchain.utxoSet bc) tx = true)
           (Blockchain.pendingTransactions bc) in
  Blockchain.selectTransactionsForBlock bc transactions
  = (transactions ++ chosen, foldr (λ tx acc, Transaction.fee tx + acc) 0 chosen)
  ∧ (length chosen ≤ 99)%nat
  ∧ StronglySorted (λ a b, Transaction.fee b ≤ Transaction.fee a) chosen
  ∧ ∃ left_out,
      chosen ++ left_out ≡ₚ affordable
      ∧ (left_out ≠ [] → length chosen = 99%nat)
      ∧ ∀ x y, x ∈ chosen → y ∈ left_out → Transaction.fee y ≤ Transaction.fee x.
Proof.
  simpl. unfold Blockchain.selectTransactionsForBlock.
  rewrite selectTransactionsForBlock_fold. split; [done|].
  unfold Blockchain.sortedPending.
  set (affordable := filter _ (Blockchain.pendingTransactions bc)).
  set (sorted := sort_desc Transaction.fee affordable).
  pose proof (sort_desc_sorted Transaction.fee affordable) as Hsorted. fold sorted in Hsorted.
  change (100 - 1)%nat with 99%nat.
  split; [rewrite length_take; lia|]. split.
  - rewrite <- (take_drop 99 sorted) in Hsorted. by apply StronglySorted_app_1_l in Hsorted.
  - exists (drop 99 sorted). rewrite take_drop. split; [apply sort_desc_perm|]. split.
    + intros Hne. rewrite length_take. apply Nat.min_l.
      destruct (decide (99 ≤ length sorted)%nat) as [|Hshort]; [done|].
      rewrite drop_ge in Hne by lia. done.
    + intros x y Hx Hy. rewrite <- (take_drop 99 sorted) in Hsorted.
      by apply (StronglySorted_app_1_elem_of _ _ _ x y) in Hsorted.
Qed.

(** X14. The block [mineBlock] returns. It stands on the old tip (next
    index, the tip's hash as previous hash) and passes [isValidNewBlock]
    against it; its first transaction is a coinbase to the miner, followed
    by the selected pending transactions; the coinbase pays the mining
    reward plus the selected fees when their sum is positive, and keeps
    the id it was given before the fees were added. *)
Theorem mineBlock_block (fuel : nat) (minerAddress : option string) (k k' : Ticks)
    (bc bc' : Blockchain.t) (mined : Blockchain.Mined) :
  Blockchain.mineBlock ω fuel minerAddress k bc = Returned (Some mined) k' bc' →
  ∃ latest coinbaseTx,
    Blockchain.getLatestBlock bc = Some latest
    ∧ Block.index (Blockchain.block mined) = Block.index latest + 1
    ∧ Block.previousHash (Blockchain.block mined) = Block.hash latest
    ∧ Blockchain.isValidNewBlock bc (Blockchain.block mined) latest = Ok true
    ∧ Block.transactions (Blockchain.block mined)
      = coinbaseTx :: Blockchain.sortedPending bc
    ∧ Transaction.fromAddress coinbaseTx = None
    ∧ Transaction.toAddress coinbaseTx
      = (if truthy_opt minerAddress then or_empty minerAddress
         else Blockchain.minerWallet bc)
    ∧ Transaction.amount coinbaseTx
      = Blockchain.miningReward bc
        + Z.max 0 (foldr (λ tx acc, Transaction.fee tx + acc) 0
                         (Blockchain.sortedPending bc))
    ∧ Blockchain.reward mined = Transaction.amount coinbaseTx
    ∧ Transaction.txId coinbaseTx
      = Transaction.calculateHash
          (Transaction.set_amount (Blockchain.miningReward bc) coinbaseTx).
Proof.
  unfold Blockchain.mineBlock, Transaction.createCoinbaseTransaction, Transaction.new,
    Js.bind, Js.get, Date_now, Blockchain.selectTransactionsForBlock. simpl.
  rewrite selectTransactionsForBlock_fold. simpl.
  set (fees := foldr _ 0 (Blockchain.sortedPending bc)).
  destruct (Blockchain.getLatestBlock bc) as [latest|]; [|done].
  match goal with
  | |- context [Block.mineBlock fuel _ (Block.new _ _ _ ?l _)] => set (txs := l)
  end.
  destruct (Block.mineBlock fuel _ _) as [nb|] eqn:Hmine; [|done].
  apply Block_mineBlock_spec in Hmine as (_ & Hi & Hp & _ & Htx & _).
  simpl in Hi, Hp, Htx.
  destruct (Blockchain.isValidNewBlock bc nb latest) as [[]|] eqn:Hvalid; simpl; try done.
  unfold Blockchain.on_utxoSet, Js.zoom. simpl.
  destruct (Js.for_of txs _ _ _) as [[] k1 u1|]; [|done].
  match goal with
  | |- context [Blockchain.adjustDifficulty k1 ?s] =>
    destruct (Blockchain.adjustDifficulty k1 s) as [[] k3 bc3|]; [|done]
  end.
  intros [= <- _ _]. simpl.
  exists latest.
  subst txs. rewrite !Z.add_0_l in *.
  destruct (Z.ltb_spec 0 fees) as [Hpos|Hneg]; simpl in *.
  - eexists. repeat split; try done. simpl. lia.
  - eexists. repeat split; try done. simpl. lia.
Qed.

(** X15. [isValidChain] never looks into the first block, and checks
    every other block against its predecessor only: a chain of one block
    is accepted whatever the block holds, exchanging the first block for
    one with the same index and hash changes no verdict, and a chain with
    one more block is accepted exactly when the chain without it is and
    the new block passes [isValidNewBlock] against the old last one. *)
Theorem isValidChain_compositional (bc : Blockchain.t) (c : list Block.t)
    (tip b : Block.t) :
  last c = Some tip →
  (Blockchain.isValidChain bc (c ++ [b]) = Ok true
   ↔ Blockchain.isValidChain bc c = Ok true
     ∧ Blockchain.isValidNewBlock bc b tip = Ok true)
  ∧ Blockchain.isValidChain bc [b] = Ok true
  ∧ ∀ g g' rest,
      Block.index g' = Block.index g → Block.hash g' = Block.hash g →
      Blockchain.isValidChain bc (g' :: rest) = Blockchain.isValidChain bc (g :: rest).
Proof.
  intros Htip. split; [|split; [done|]].
  - rewrite !isValidChain_pairs. rewrite last_lookup in Htip. split.
    + intros Hall. split.
      * intros i prev cur Hprev Hcur. apply (Hall i).
        -- by apply lookup_app_l_Some.
        -- by apply lookup_app_l_Some.
      * apply (Hall (pred (length c))).
        -- by apply lookup_app_l_Some.
        -- assert (length c ≠ 0)%nat by (destruct c; [done|simpl; lia]).
           replace (S (pred (length c))) with (length c) by lia.
           by rewrite lookup_app_r, Nat.sub_diag by lia.
    + intros [Hall Hb] i prev cur Hprev Hcur.
      destruct (decide (S i < length c)%nat) as [Hlt|Hge].
      * rewrite lookup_app_l in Hprev, Hcur by lia. by apply (Hall i).
      * apply lookup_lt_Some in Hcur as Hlen. rewrite length_app in Hlen. simpl in Hlen.
        assert (S i = length c) as Hi by lia.
        rewrite lookup_app_l in Hprev by lia.
        rewrite Hi, lookup_app_r, Nat.sub_diag in Hcur by lia. injection Hcur as <-.
        replace i with (pred (length c)) in Hprev by lia.
        rewrite Htip in Hprev. by injection Hprev as <-.
  - intros g g' rest Hi Hh. destruct rest as [|cur rest]; simpl; [done|].
    unfold Blockchain.isValidNewBlock. by rewrite Hi, Hh.
Qed.

(** X16. [createGenesisBlock] never throws. It appends a block of index
    0 and previous hash [0] that holds one coinbase of ten mining rewards
    for the miner wallet, and credits the wallet's cached balance with
    them. The block's hash is the hash of its final fields; its Merkle
    root is still the one of the empty list it was built with. *)
Theorem createGenesisBlock_spec (k : Ticks) (bc : Blockchain.t) :
  ∃ k' g cb u',
    Blockchain.createGenesisBlock ω k bc
    = Returned tt k' (Blockchain.set_utxoSet u'
                        (Blockchain.set_chain (Blockchain.chain bc ++ [g]) bc))
    ∧ Block.index g = 0 ∧ Block.previousHash g = "0" ∧ Block.nonce g = 0
    ∧ Block.transactions g = [cb]
    ∧ Transaction.fromAddress cb = None
    ∧ Transaction.toAddress cb = Blockchain.minerWallet bc
    ∧ Transaction.amount cb = Blockchain.miningReward bc * 10
    ∧ Transaction.isValid cb = Ok (0 <? Blockchain.miningReward bc * 10)
    ∧ Block.hasValidHash g = true
    ∧ Block.merkleRoot g = sha256_hex EmptyString
    ∧ UTXOSet.getBalance u' (Blockchain.minerWallet bc)
      = Blockchain.getBalance bc (Blockchain.minerWallet bc)
        + Blockchain.miningReward bc * 10.
Proof.
  unfold Blockchain.createGenesisBlock, Block.createGenesisBlock,
    Transaction.createCoinbaseTransaction, Transaction.new, Blockchain.on_utxoSet,
    Js.zoom, Js.bind, Js.get, Js.ret, Js.modify, Date_now,
    UTXOSet.processTransaction, UTXOSet.addUTXO, Js.bind, Js.modify, Date_now. simpl.
  eexists _, _, _, _. split; [reflexivity|]. simpl.
  repeat split; try done.
  - unfold Block.hasValidHash, Block.calculateHash. simpl. apply String.eqb_refl.
  - unfold UTXOSet.getBalance. simpl. by rewrite lookup_insert_eq.
Qed.

(** X17. [adjustDifficulty] moves the difficulty by one step at most and
    touches nothing else; a difficulty of one or more never drops below
    one; on an empty chain the call throws; and a call that throws
    changes nothing. *)
Theorem adjustDifficulty_step (k : Ticks) (bc : Blockchain.t) :
  let out := Blockchain.adjustDifficulty k bc in
  state_of out = Blockchain.set_difficulty (Blockchain.difficulty (state_of out)) bc
  ∧ ticks_of out = k
  ∧ (Blockchain.difficulty bc - 1 ≤ Blockchain.difficulty (state_of out)
     ≤ Blockchain.difficulty bc + 1)%nat
  ∧ ((1 ≤ Blockchain.difficulty bc)%nat →
     (1 ≤ Blockchain.difficulty (state_of out))%nat)
  ∧ (Blockchain.chain bc = [] → returns out = false)
  ∧ (returns out = false → state_of out = bc).
Proof.
  simpl. unfold Blockchain.adjustDifficulty, Js.bind, Js.get, Js.put, Js.ret, Js.throw.
  assert (Hsame : bc = Blockchain.set_difficulty (Blockchain.difficulty bc) bc)
    by by destruct bc.
  assert (Hempty : Blockchain.chain bc = [] → Blockchain.getLatestBlock bc = None).
  { unfold Blockchain.getLatestBlock. by intros ->. }
  repeat case_match; simpl; repeat split; try done; try lia;
    intros Hnil; apply Hempty in Hnil; congruence.
Qed.

End ChainMore.

Lemma addTransaction_outcomes_witness :
  NoDup (map Transaction.txId
             (Blockchain.pendingTransactions
                (state_of (@Blockchain.addTransaction Run.host Run.c1 ticks0 Run.node_idle)))).
Proof.
  destruct (@addTransaction_outcomes Run.host Run.c1 ticks0 Run.node_idle)
    as (valid & _ & _ & Hkeep).
  apply Hkeep. vm_compute. constructor.
Defined.

Lemma mineBlock_block_witness :
  ∃ mined k' bc' latest coinbaseTx,
    @Blockchain.mineBlock Run.host Run.json Run.ω 5 None ticks0 Run.node_c1
    = Returned (Some mined) k' bc'
    ∧ Blockchain.getLatestBlock Run.node_c1 = Some latest
    ∧ Block.index (Blockchain.block mined) = Block.index latest + 1
    ∧ Block.transactions (Blockchain.block mined)
      = coinbaseTx :: Blockchain.sortedPending Run.node_c1
    ∧ Transaction.amount coinbaseTx = 50 + Z.max 0 0.
Proof.
  eexists _, _, _.
  destruct (@mineBlock_block Run.host Run.json Run.ω 5 None ticks0
              (ticks_of (@Blockchain.mineBlock Run.host Run.json Run.ω 5 None ticks0
                           Run.node_c1))
              Run.node_c1
              (state_of (@Blockchain.mineBlock Run.host Run.json Run.ω 5 None ticks0
                           Run.node_c1))
              {| Blockchain.block :=
                   default Run.genesis
                     (last (Blockchain.chain
                        (state_of (@Blockchain.mineBlock Run.host Run.json Run.ω 5 None
                                     ticks0 Run.node_c1))));
                 Blockchain.reward := 50 |})
    as (latest & cb & Hl & Hi & _ & _ & Htx & _ & _ & Ha & _).
  - vm_compute. reflexivity.
  - exists latest, cb. split; [vm_compute; reflexivity|]. by repeat split.
Defined.

Lemma isValidChain_compositional_witness :
  @Blockchain.isValidChain Run.host Run.json Run.node_idle ([Run.genesis] ++ [Run.block1])
  = Ok true.
Proof.
  apply (proj1 (@isValidChain_compositional Run.host Run.json Run.node_idle [Run.genesis]
                  Run.genesis Run.block1 eq_refl)).
  split; vm_compute; reflexivity.
Defined.

(** ** P2PNetwork: rejection, broadcast, handshake, synchronisation *)

Section GossipMore.
Context `{Host} `{Json}.
Variable ω : Oracle.

Lemma set_blockchain_same (n : P2PNetwork.t) :
  P2PNetwork.set_blockchain (P2PNetwork.blockchain n) n = n.
Proof. by destruct n. Qed.

(** X18. A block that does not pass [isValidNewBlock] against the tip is
    dropped without a trace: the chain, the ledger, the pool, the frames
    sent and the events emitted are as before. This is what happens to a
    second arrival of the block that is already the tip. *)
Theorem handleNewBlock_rejected (k : Ticks) (n : P2PNetwork.t) (sender : string)
    (b : Block.t) :
  ((∀ latest, Blockchain.getLatestBlock (P2PNetwork.blockchain n) = Some latest →
              Blockchain.isValidNewBlock (P2PNetwork.blockchain n) b latest ≠ Ok true) →
   state_of (P2PNetwork.handleMessage ω sender P2PNetwork.NEW_BLOCK
                                      (P2PNetwork.BlockData b) k n) = n)
  ∧ (Blockchain.getLatestBlock (P2PNetwork.blockchain n) = Some b →
     state_of (P2PNetwork.handleMessage ω sender P2PNetwork.NEW_BLOCK
                                        (P2PNetwork.BlockData b) k n) = n).
Proof.
  assert (Hdrop :
    (∀ latest, Blockchain.getLatestBlock (P2PNetwork.blockchain n) = Some latest →
               Blockchain.isValidNewBlock (P2PNetwork.blockchain n) b latest ≠ Ok true) →
    state_of (P2PNetwork.handleMessage ω sender P2PNetwork.NEW_BLOCK
                                       (P2PNetwork.BlockData b) k n) = n).
  { intros Hbad. simpl.
    unfold P2PNetwork.handleMessage, P2PNetwork.handleNewBlock, Js.catch, Js.bind.
    destruct (Block_fromJSON_run ω b k n) as [k1 ->]. unfold Js.get, Js.throw, Js.ret.
    destruct (Blockchain.getLatestBlock _) as [latest|] eqn:Hlatest; [|done].
    specialize (Hbad latest eq_refl).
    destruct (isValidNewBlock_total (P2PNetwork.blockchain n) b latest) as [[] Hv];
      rewrite Hv in *; [done|]. done. }
  split; [exact Hdrop|].
  intros Htip. apply Hdrop. intros latest Hlatest.
  rewrite Htip in Hlatest. injection Hlatest as <-.
  unfold Blockchain.isValidNewBlock.
  destruct (Z.eqb_spec (Block.index b) (Block.index b + 1)); [lia|]. done.
Qed.

(** X19. A NEW_TRANSACTION message whose transaction is invalid, is not
    covered by the sender's cached balance, or has the id of a pending
    transaction, changes nothing on the node and is not sent on. *)
Theorem handleNewTransaction_rejected (k : Ticks) (n : P2PNetwork.t) (sender : string)
    (tx : Transaction.t) :
  Transaction.isValid tx ≠ Ok true
  ∨ UTXOSet.canProcessTransaction
      (Blockchain.utxoSet (P2PNetwork.blockchain n)) tx = false
  ∨ existsb (λ p, String.eqb (Transaction.txId p) (Transaction.txId tx))
            (Blockchain.pendingTransactions (P2PNetwork.blockchain n)) = true →
  state_of (P2PNetwork.handleMessage ω sender P2PNetwork.NEW_TRANSACTION
                                     (P2PNetwork.TxData tx) k n) = n.
Proof.
  intros Hbad. simpl.
  unfold P2PNetwork.handleMessage, P2PNetwork.handleNewTransaction, Js.catch, Js.bind.
  rewrite Transaction_fromJSON_run.
  destruct (isValid_total tx) as [valid Hvalid]. rewrite Hvalid. simpl.
  unfold Js.get, Js.ret.
  destruct valid; simpl; [|done].
  destruct (UTXOSet.canProcessTransaction _ tx) eqn:Hcan; simpl; [|done].
  destruct Hbad as [Hbad|[Hbad|Hdup]]; [by rewrite Hvalid in Hbad|done|].
  unfold P2PNetwork.on_blockchain, Js.zoom, Blockchain.addTransaction, Js.bind, Js.get.
  rewrite Hvalid. simpl. rewrite Hcan, Hdup. simpl. apply set_blockchain_same.
Qed.

Lemma addressees_all (ps : list (string * P2PNetwork.Peer)) :
  P2PNetwork.addressees None ps
  = map fst (filter (λ e, P2PNetwork.isOpen e.2 = true) ps).
Proof. done. Qed.

(** X20. [broadcastMessage] never throws and changes nothing on the node
    but the frames sent: it hands one frame, with the given type and
    data, to every peer whose connection is open and whose id is not the
    excluded string, in the order of the peer table, and none to a peer
    whose connection is not open. Without an excluded id these are all
    the open peers. *)
Theorem broadcastMessage_spec (ty : P2PNetwork.MessageType) (d : P2PNetwork.Payload)
    (excludeId : option string) (k : Ticks) (n : P2PNetwork.t) :
  ∃ k' frames,
    P2PNetwork.broadcastMessage ω ty d excludeId k n
    = Returned tt k'
        {| P2PNetwork.blockchain := P2PNetwork.blockchain n;
           P2PNetwork.peers := P2PNetwork.peers n;
           P2PNetwork.wire := P2PNetwork.wire n ++ frames;
           P2PNetwork.emitted := P2PNetwork.emitted n |}
    ∧ Forall (λ f, P2PNetwork.type f = ty ∧ P2PNetwork.data f = d) frames
    ∧ P2PNetwork.recipients frames
      = map fst (filter (λ e, negb (P2PNetwork.skipped excludeId e.1)
                              && P2PNetwork.isOpen e.2 = true)
                        (P2PNetwork.peers n))
    ∧ (∀ peerId, peerId ∈ P2PNetwork.recipients frames →
         ∃ peer, (peerId, peer) ∈ P2PNetwork.peers n ∧ P2PNetwork.isOpen peer = true
                 ∧ (excludeId = Some peerId → peerId = EmptyString))
    ∧ (excludeId = None →
       P2PNetwork.recipients frames
       = map fst (filter (λ e, P2PNetwork.isOpen e.2 = true) (P2PNetwork.peers n))).
Proof.
  destruct (broadcastMessage_run ω ty d excludeId k n) as (k' & frames & Hrun & Hrec & Hall).
  exists k', frames. split; [done|]. split; [done|]. split; [done|]. split.
  - intros peerId Hin. rewrite Hrec in Hin. unfold P2PNetwork.addressees in Hin.
    apply list_elem_of_fmap in Hin as ([i peer] & -> & Hin).
    apply list_elem_of_filter in Hin as [Hkeep Hin]. simpl in *.
    apply andb_true_iff in Hkeep as [Hskip Hopen].
    exists peer. split; [done|]. split; [done|].
    intros ->. unfold P2PNetwork.skipped in Hskip. simpl in Hskip.
    rewrite String.eqb_refl, andb_true_r in Hskip.
    apply negb_true_iff in Hskip. unfold truthy in Hskip.
    apply negb_false_iff in Hskip. by apply String.eqb_eq in Hskip.
  - intros ->. by rewrite Hrec.
Qed.

Lemma list_find_update (peerId : string) (f : P2PNetwork.Peer → P2PNetwork.Peer)
    (ps : list (string * P2PNetwork.Peer)) (i : nat) (p : P2PNetwork.Peer) :
  list_find (λ e, e.1 = peerId) ps = Some (i, (peerId, p)) →
  list_find (λ e, e.1 = peerId)
            (map (λ '(j, q), if String.eqb j peerId then (j, f q) else (j, q)) ps)
  = Some (i, (peerId, f p)).
Proof.
  revert i. induction ps as [|[j q] ps IH]; intros i; [done|].
  cbn [list_find map]. simpl.
  destruct (String.eqb_spec j peerId) as [->|Hne]; simpl.
  - rewrite !decide_True by done. by intros [= <- <-].
  - rewrite !decide_False by done.
    destruct (list_find _ ps) as [[i' [j' q']]|] eqn:Hfind; [|done]. simpl.
    intros [= <- -> ->]. by rewrite (IH i' eq_refl).
Qed.

(** X21. The handshake. The height a peer announces is recorded for that
    peer; when it exceeds the index of our tip and the peer's connection
    is open, one REQUEST_CHAIN frame goes to that peer, otherwise no
    frame goes out; the chain object is untouched. *)
Theorem handleHandshake_spec (k : Ticks) (n : P2PNetwork.t) (peerId : string)
    (i : nat) (p : P2PNetwork.Peer) (latest : Block.t) (height : Z) :
  list_find (λ e, e.1 = peerId) (P2PNetwork.peers n) = Some (i, (peerId, p)) →
  Blockchain.getLatestBlock (P2PNetwork.blockchain n) = Some latest →
  let n' := state_of (P2PNetwork.handleMessage ω peerId P2PNetwork.PEER_HANDSHAKE
                                               (P2PNetwork.HandshakeData height) k n) in
  P2PNetwork.blockchain n' = P2PNetwork.blockchain n
  ∧ P2PNetwork.peers n'
    = map (λ '(j, q), if String.eqb j peerId
                      then (j, {| P2PNetwork.isOpen := P2PNetwork.isOpen q;
                                  P2PNetwork.connectedAt := P2PNetwork.connectedAt q;
                                  P2PNetwork.lastPing := P2PNetwork.lastPing q;
                                  P2PNetwork.chainHeight := height |})
                      else (j, q))
          (P2PNetwork.peers n)
  ∧ P2PNetwork.wire n'
    = P2PNetwork.wire n
      ++ (if (Block.index latest <? height) && P2PNetwork.isOpen p
          then [{| P2PNetwork.dest := peerId; P2PNetwork.type := P2PNetwork.REQUEST_CHAIN;
                   P2PNetwork.data := P2PNetwork.NoData;
                   P2PNetwork.timestamp := dateNow ω (nowCalls k) |}]
          else []).
Proof.
  intros Hfind Hlatest. simpl.
  unfold P2PNetwork.handleMessage, P2PNetwork.handleHandshake, Js.catch, Js.bind,
    P2PNetwork.update_peer, Js.modify, Js.get. simpl.
  rewrite Hlatest.
  rewrite (list_find_update peerId _ _ i p Hfind). simpl.
  unfold P2PNetwork.requestChain, P2PNetwork.sendToPeer. simpl.
  destruct (Block.index latest <? height); simpl.
  - destruct (P2PNetwork.isOpen p); simpl; [done|]. by rewrite app_nil_r.
  - by rewrite app_nil_r.
Qed.

(** The loop of [synchronizeBlockchain] ends on a peer that is above the
    start and that no peer is above, or on none when no peer is above the
    start. *)
Lemma highest_peer_spec (ps : list (string * P2PNetwork.Peer))
    (best0 : option (string * P2PNetwork.Peer)) (h0 : Z) :
  let out := foldl (λ '(highestPeer, highestHeight) e,
                      if highestHeight <? P2PNetwork.chainHeight e.2
                      then (Some e, P2PNetwork.chainHeight e.2)
                      else (highestPeer, highestHeight))
                   (best0, h0) ps in
  (∀ e, e ∈ ps → P2PNetwork.chainHeight e.2 ≤ out.2)
  ∧ ((out = (best0, h0) ∧ ∀ e, e ∈ ps → P2PNetwork.chainHeight e.2 ≤ h0)
     ∨ (∃ e, e ∈ ps ∧ out = (Some e, P2PNetwork.chainHeight e.2)
             ∧ h0 < P2PNetwork.chainHeight e.2)).
Proof.
  revert best0 h0. induction ps as [|x ps IH]; intros best0 h0; simpl.
  - split; [intros e Hin; by apply elem_of_nil in Hin|].
    left. split; [done|]. intros e Hin. by apply elem_of_nil in Hin.
  - destruct (Z.ltb_spec h0 (P2PNetwork.chainHeight x.2)) as [Hlt|Hge].
    + destruct (IH (Some x) (P2PNetwork.chainHeight x.2)) as [Hmax Hcase]. simpl in *.
      destruct Hcase as [[Heq Hall]|(e & Hin & Heq & Hlt')].
      * rewrite Heq in *. simpl in *. split.
        -- intros e [->|Hin]%elem_of_cons; [lia|by apply Hall].
        -- right. exists x. split; [apply list_elem_of_here|]. by split.
      * rewrite Heq in *. simpl in *. split.
        -- intros e' [->|Hin']%elem_of_cons; [lia|by apply Hmax].
        -- right. exists e. split; [by apply list_elem_of_further|]. split; [done|lia].
    + destruct (IH best0 h0) as [Hmax Hcase]. simpl in *.
      destruct Hcase as [[Heq Hall]|(e & Hin & Heq & Hlt')].
      * rewrite Heq in *. simpl in *. split.
        -- intros e [->|Hin]%elem_of_cons; [lia|by apply Hall].
        -- left. split; [done|]. intros e [->|Hin]%elem_of_cons; [lia|by apply Hall].
      * rewrite Heq in *. simpl in *. split.
        -- intros e' [->|Hin']%elem_of_cons; [lia|by apply Hmax].
        -- right. exists e. split; [by apply list_elem_of_further|]. by split.
Qed.

(** X22. [synchronizeBlockchain] asks at most one peer for its chain: a
    peer whose announced height is above the index of our tip and below
    no other peer's. When no peer is above our tip nothing is sent, and
    when the chosen peer's connection is not open nothing is sent either,
    whatever the other peers announce. Nothing but the frames sent
    changes. *)
Theorem synchronizeBlockchain_spec (k : Ticks) (n : P2PNetwork.t) (latest : Block.t) :
  Blockchain.getLatestBlock (P2PNetwork.blockchain n) = Some latest →
  let n' := state_of (P2PNetwork.synchronizeBlockchain ω k n) in
  P2PNetwork.blockchain n' = P2PNetwork.blockchain n
  ∧ P2PNetwork.peers n' = P2PNetwork.peers n
  ∧ ((P2PNetwork.wire n' = P2PNetwork.wire n
      ∧ ((∀ e, e ∈ P2PNetwork.peers n →
               P2PNetwork.chainHeight e.2 ≤ Block.index latest)
         ∨ ∃ e, e ∈ P2PNetwork.peers n ∧ P2PNetwork.isOpen e.2 = false
                ∧ Block.index latest < P2PNetwork.chainHeight e.2
                ∧ ∀ e', e' ∈ P2PNetwork.peers n →
                        P2PNetwork.chainHeight e'.2 ≤ P2PNetwork.chainHeight e.2))
     ∨ ∃ e, e ∈ P2PNetwork.peers n ∧ P2PNetwork.isOpen e.2 = true
            ∧ Block.index latest < P2PNetwork.chainHeight e.2
            ∧ (∀ e', e' ∈ P2PNetwork.peers n →
                     P2PNetwork.chainHeight e'.2 ≤ P2PNetwork.chainHeight e.2)
            ∧ P2PNetwork.wire n'
              = P2PNetwork.wire n
                ++ [{| P2PNetwork.dest := e.1;
                       P2PNetwork.type := P2PNetwork.REQUEST_CHAIN;
                       P2PNetwork.data := P2PNetwork.NoData;
                       P2PNetwork.timestamp := dateNow ω (nowCalls k) |}]).
Proof.
  intros Hlatest. simpl.
  unfold P2PNetwork.synchronizeBlockchain, Js.bind, Js.get, Js.ret.
  destruct (P2PNetwork.peers n) as [|x ps] eqn:Hps.
  { simpl. rewrite Hps. repeat split; try done. left. split; [done|]. left.
    intros e Hin. by apply elem_of_nil in Hin. }
  change (Nat.eqb (length (x :: ps)) 0) with false. cbv iota. rewrite Hlatest.
  unfold P2PNetwork.highest_peer.
  pose proof (highest_peer_spec (x :: ps) None (Block.index latest)) as [Hmax Hcase].
  destruct Hcase as [[Heq Hall]|(e & Hin & Heq & Hlt)].
  - rewrite Heq. simpl. rewrite Hps. repeat split; try done. left. split; [done|]. by left.
  - rewrite Heq in *. simpl in Hmax. destruct e as [peerId peer]. simpl in *.
    unfold P2PNetwork.requestChain, P2PNetwork.sendToPeer.
    destruct (P2PNetwork.isOpen peer) eqn:Hopen; simpl.
    + rewrite Hps. repeat split; try done. right. exists (peerId, peer). by repeat split.
    + rewrite Hps. repeat split; try done. left. split; [done|]. right.
      exists (peerId, peer). by repeat split.
Qed.

(** X23. The policy on RECEIVE_LATEST_BLOCK. A block that is not the
    next one, by its index or by its previous hash, is not examined
    further: the chain, the ledger and the pool stay as they are, and a
    REQUEST_CHAIN frame goes to every open peer. *)
Theorem handleReceiveLatestBlock_behind (k : Ticks) (n : P2PNetwork.t) (sender : string)
    (b latest : Block.t) :
  Blockchain.getLatestBlock (P2PNetwork.blockchain n) = Some latest →
  Block.index b ≠ Block.index latest + 1
  ∨ Block.previousHash b ≠ Block.hash latest →
  let n' := state_of (P2PNetwork.handleMessage ω sender P2PNetwork.RECEIVE_LATEST_BLOCK
                                               (P2PNetwork.BlockData b) k n) in
  P2PNetwork.blockchain n' = P2PNetwork.blockchain n
  ∧ P2PNetwork.emitted n' = P2PNetwork.emitted n
  ∧ ∃ frames,
      P2PNetwork.wire n' = P2PNetwork.wire n ++ frames
      ∧ Forall (λ f, P2PNetwork.type f = P2PNetwork.REQUEST_CHAIN
                     ∧ P2PNetwork.data f = P2PNetwork.NoData) frames
      ∧ P2PNetwork.recipients frames
        = map fst (filter (λ e, P2PNetwork.isOpen e.2 = true) (P2PNetwork.peers n)).
Proof.
  intros Hlatest Hnot. simpl.
  unfold P2PNetwork.handleMessage, P2PNetwork.handleReceiveLatestBlock, Js.catch, Js.bind.
  destruct (Block_fromJSON_run ω b k n) as [k1 ->]. unfold Js.get.
  rewrite Hlatest.
  assert ((Block.index b =? Block.index latest + 1)
          && String.eqb (Block.previousHash b) (Block.hash latest) = false) as ->.
  { apply andb_false_iff. destruct Hnot as [Hi|Hp].
    - left. by apply Z.eqb_neq.
    - right. by apply String.eqb_neq. }
  destruct (broadcastMessage_run ω P2PNetwork.REQUEST_CHAIN P2PNetwork.NoData None k1 n)
    as (k' & frames & -> & Hrec & Hall). simpl.
  split; [done|]. split; [done|]. exists frames. by rewrite Hrec.
Qed.

End GossipMore.

(** ** MinerWallet: addresses *)

Section Addresses.
Context `{Host}.

Lemma substring_all (s : string) : String.substring 0 (String.length s) s = s.
Proof. induction s as [|c s IH]; simpl; [done|]. by rewrite IH. Qed.

(** X24. The address a wallet derives for a public key is the address
    [Transaction.isValid] derives for the same key, and when the
    RIPEMD-160 digest comes as 40 lower-case hex digits the address
    passes [isValidAddress]; an address that passes has 46 characters. *)
Theorem deriveAddress_valid (publicKey : list Byte.byte) :
  let digest := ripemd160_hex (sha256_digest publicKey) in
  MinerWallet.deriveAddress publicKey = Transaction.publicKeyToAddress publicKey
  ∧ (String.length digest = 40%nat →
     forallb MinerWallet.is_lower_hex (String.list_ascii_of_string digest) = true →
     MinerWallet.isValidAddress (MinerWallet.deriveAddress publicKey) = true)
  ∧ ∀ address, MinerWallet.isValidAddress address = true →
               String.length address = 46%nat.
Proof.
  simpl. split; [done|]. split.
  - intros Hlen Hhex. unfold MinerWallet.deriveAddress.
    rewrite <- Hlen, substring_all.
    unfold MinerWallet.isValidAddress, MinerWallet.matches_pattern. simpl.
    set (dg := ripemd160_hex (sha256_digest publicKey)) in *.
    change (EmptyString +:+ dg) with dg.
    rewrite Nat.sub_0_r, substring_all, Hlen, Hhex. by destruct dg.
  - intros address. unfold MinerWallet.isValidAddress.
    rewrite !andb_true_iff. intros [[_ Hlen] _]. by apply Nat.eqb_eq in Hlen.
Qed.

End Addresses.

Lemma handleNewBlock_rejected_witness :
  state_of (@P2PNetwork.handleMessage Run.host Run.json Run.ω "P" P2PNetwork.NEW_BLOCK
              (P2PNetwork.BlockData Run.genesis) ticks0 (Run.net Run.node_idle))
  = Run.net Run.node_idle.
Proof.
  apply (proj2 (@handleNewBlock_rejected Run.host Run.json Run.ω ticks0
                  (Run.net Run.node_idle) "P" Run.genesis)).
  reflexivity.
Defined.

Lemma handleNewTransaction_rejected_witness :
  state_of (@P2PNetwork.handleMessage Run.host Run.json Run.ω "P"
              P2PNetwork.NEW_TRANSACTION (P2PNetwork.TxData Run.c1) ticks0
              (Run.net Run.node_c1))
  = Run.net Run.node_c1.
Proof.
  apply (@handleNewTransaction_rejected Run.host Run.json Run.ω ticks0
           (Run.net Run.node_c1) "P" Run.c1).
  right. right. reflexivity.
Defined.

Lemma handleHandshake_spec_witness :
  P2PNetwork.wire
    (state_of (@P2PNetwork.handleMessage Run.host Run.json Run.ω "P"
                 P2PNetwork.PEER_HANDSHAKE (P2PNetwork.HandshakeData 5) ticks0
                 (Run.net Run.node_idle)))
  = [{| P2PNetwork.dest := "P"; P2PNetwork.type := P2PNetwork.REQUEST_CHAIN;
        P2PNetwork.data := P2PNetwork.NoData; P2PNetwork.timestamp := 1000 |}].
Proof.
  refine (proj2 (proj2 (@handleHandshake_spec Run.host Run.json Run.ω ticks0
                          (Run.net Run.node_idle) "P" 0 Run.peerP Run.genesis 5 _ _))).
  - reflexivity.
  - reflexivity.
Defined.

Lemma synchronizeBlockchain_spec_witness :
  P2PNetwork.blockchain
    (state_of (P2PNetwork.synchronizeBlockchain Run.ω ticks0 (Run.net Run.node_idle)))
  = Run.node_idle.
Proof.
  exact (proj1 (synchronizeBlockchain_spec Run.ω ticks0 (Run.net Run.node_idle)
                  Run.genesis eq_refl)).
Defined.

Lemma handleReceiveLatestBlock_behind_witness :
  P2PNetwork.blockchain
    (state_of (@P2PNetwork.handleMessage Run.host Run.json Run.ω "P"
                 P2PNetwork.RECEIVE_LATEST_BLOCK (P2PNetwork.BlockData Run.genesis)
                 ticks0 (Run.net Run.node_idle)))
  = Run.node_idle.
Proof.
  refine (proj1 (@handleReceiveLatestBlock_behind Run.host Run.json Run.ω ticks0
                   (Run.net Run.node_idle) "P" Run.genesis Run.genesis _ _)).
  - reflexivity.
  - left. vm_compute. discriminate.
Defined.

Lemma deriveAddress_valid_witness :
  MinerWallet.isValidAddress
    (@MinerWallet.deriveAddress Run.host
       (String.list_byte_of_string "0123456789abcdef0123456789abcdef01234567"))
  = true.
Proof.
  apply (proj1 (proj2 (@deriveAddress_valid Run.host
           (String.list_byte_of_string "0123456789abcdef0123456789abcdef01234567"))));
    vm_compute; reflexivity.
Defined.

(** ** Chain offers, requests, and an address emptied again *)

Section Offers.
Context `{Host} `{Json}.
Variable ω : Oracle.

Lemma chain_fromJSON_run (c : list Block.t) (k : Ticks) (n : P2PNetwork.t) :
  ∃ k1,
    (fix go (l : list Block.t) : M P2PNetwork.t (list Block.t) :=
       match l with
       | [] => Js.ret []
       | blockData :: rest =>
         Js.bind (Block.fromJSON ω blockData)
                 (λ b, Js.bind (go rest) (λ bs, Js.ret (b :: bs)))
       end) c k n
    = Returned c k1 n.
Proof.
  revert k. induction c as [|b c IH]; intros k; [by eexists|].
  unfold Js.bind at 1. destruct (Block_fromJSON_run ω b k n) as [k0 ->].
  unfold Js.bind at 1. destruct (IH k0) as [k1 ->]. by eexists.
Qed.

(** X25. A chain offered by a peer (RECEIVE_CHAIN). When it is strictly
    longer than ours and passes [isValidChain], it becomes the chain and
    one [chainUpdated] event is emitted; the pending pool, the difficulty
    and the frames sent are not touched. The ledger is cleared and holds
    the transactions of the offered chain applied in order up to the
    first one it refuses, none behind that one: all of them only when
    none is refused. For an offered chain of coinbase transactions every
    address then holds a balance equal to what the chain pays to it, and
    one output for each transaction paying to it. Any other offer leaves
    the node exactly as it was. *)
Theorem handleReceiveChain_spec (k : Ticks) (n : P2PNetwork.t) (sender : string)
    (c : list Block.t) :
  let bc := P2PNetwork.blockchain n in
  let n' := state_of (P2PNetwork.handleMessage ω sender P2PNetwork.RECEIVE_CHAIN
                                               (P2PNetwork.ChainData c) k n) in
  ∃ valid, Blockchain.isValidChain bc c = Ok valid ∧
  if bool_decide (length (Blockchain.chain bc) < length c)%nat && valid
  then
    ∃ k1 k2 u' applied rest,
      n' = {| P2PNetwork.blockchain :=
                Blockchain.set_utxoSet u' (Blockchain.set_chain c bc);
              P2PNetwork.peers := P2PNetwork.peers n;
              P2PNetwork.wire := P2PNetwork.wire n;
              P2PNetwork.emitted := P2PNetwork.emitted n ++ [P2PNetwork.chainUpdated c] |}
      ∧ Spec.chain_txs c = applied ++ rest
      ∧ Js.for_of applied (UTXOSet.processTransaction ω) k1 UTXOSet.empty
        = Returned tt k2 u'
      ∧ match rest with
        | [] => (k2, u') = Spec.reapply ω k1 (Spec.chain_txs c)
        | refused :: _ => UTXOSet.canProcessTransaction u' refused = false
        end
      ∧ (Forall (λ tx, Transaction.fromAddress tx = None) (Spec.chain_txs c) →
         rest = [] ∧ Spec.credited_up_to_stamps (Spec.chain_txs c) u')
  else n' = n.
Proof.
  intros bc n'. destruct (chain_fromJSON_run c k n) as [k1 Hparse].
  assert (Hn : n' = state_of
            (Js.catch
               (Js.bind (P2PNetwork.on_blockchain (Blockchain.replaceChain ω c))
                        (λ replaced : bool,
                           if replaced then P2PNetwork.emit (P2PNetwork.chainUpdated c)
                           else Js.ret tt))
               (λ _, Js.ret tt) k1 n)).
  { subst n'. unfold P2PNetwork.handleMessage. cbv beta iota.
    unfold P2PNetwork.handleReceiveChain, Js.catch. unfold Js.bind at 1.
    rewrite Hparse. by destruct (Js.bind _ _ k1 n). }
  rewrite Hn. clear Hn n' Hparse. subst bc.
  destruct (isValidChain_total (P2PNetwork.blockchain n) c) as [valid Hvalid].
  exists valid. split; [done|].
  unfold Js.catch, P2PNetwork.on_blockchain, Js.zoom. unfold Js.bind at 1.
  case_bool_decide as Hlen; simpl.
  - destruct valid; simpl.
    + destruct (replaceChain_accepted ω k1 _ c Hlen Hvalid)
        as (applied & rest & k2 & u' & -> & Hsplit & Happ & Hrest & Hcb).
      exists k1, k2, u', applied, rest. split; [done|].
      split; [done|]. split; [done|]. split; [done|].
      intros Hall. destruct (Hcb Hall) as [-> Hu']. split; [done|].
      intros a. destruct (Hu' a) as [-> ->]. by rewrite credits_unstamped.
    + unfold Blockchain.replaceChain, Js.bind, Js.get. simpl.
      rewrite bool_decide_eq_true_2 by done. rewrite Hvalid. simpl.
      apply set_blockchain_same.
  - unfold Blockchain.replaceChain, Js.bind, Js.get. simpl.
    rewrite bool_decide_eq_false_2 by done. simpl. apply set_blockchain_same.
Qed.

(** X26. Requests are answered to the peer that asked, and to no one
    else: REQUEST_CHAIN is answered with one RECEIVE_CHAIN frame that
    carries the whole chain, REQUEST_LATEST_BLOCK with one
    RECEIVE_LATEST_BLOCK frame that carries the tip; nothing is sent when
    that peer's connection is not open, and nothing else changes. *)
Theorem handleRequest_spec (k : Ticks) (n : P2PNetwork.t) (peerId : string) (i : nat)
    (p : P2PNetwork.Peer) (latest : Block.t) (d : P2PNetwork.Payload) :
  list_find (λ e, e.1 = peerId) (P2PNetwork.peers n) = Some (i, (peerId, p)) →
  Blockchain.getLatestBlock (P2PNetwork.blockchain n) = Some latest →
  let reply ty data :=
    {| P2PNetwork.blockchain := P2PNetwork.blockchain n;
       P2PNetwork.peers := P2PNetwork.peers n;
       P2PNetwork.wire :=
         P2PNetwork.wire n
         ++ (if P2PNetwork.isOpen p
             then [{| P2PNetwork.dest := peerId; P2PNetwork.type := ty;
                      P2PNetwork.data := data;
                      P2PNetwork.timestamp := dateNow ω (nowCalls k) |}]
             else []);
       P2PNetwork.emitted := P2PNetwork.emitted n |} in
  state_of (P2PNetwork.handleMessage ω peerId P2PNetwork.REQUEST_CHAIN d k n)
  = reply P2PNetwork.RECEIVE_CHAIN
          (P2PNetwork.ChainData (Blockchain.chain (P2PNetwork.blockchain n)))
  ∧ state_of (P2PNetwork.handleMessage ω peerId P2PNetwork.REQUEST_LATEST_BLOCK d k n)
    = reply P2PNetwork.RECEIVE_LATEST_BLOCK (P2PNetwork.BlockData latest).
Proof.
  intros Hfind Hlatest. simpl.
  unfold P2PNetwork.handleMessage, Js.catch, Js.bind, Js.get.
  rewrite Hfind, Hlatest. unfold P2PNetwork.sendToPeer.
  destruct (P2PNetwork.isOpen p); simpl.
  - by destruct d.
  - rewrite app_nil_r. destruct n. by destruct d.
Qed.

End Offers.

Section EmptyAgain.
Variable ω : Oracle.

(** X27. Spending exactly what was added to an address that held
    nothing leaves it holding nothing: the one output is consumed, no
    change output is made, the cached balance is back at zero, and
    neither the clock nor the random source is read for a change id. *)
Theorem spendUTXO_after_addUTXO (address id : string) (amt idx : Z) (k : Ticks)
    (u : UTXOSet.t) :
  0 < amt →
  UTXOSet.getUTXOs u address = [] →
  UTXOSet.getBalance u address = 0 →
  let u1 := state_of (UTXOSet.addUTXO ω address id amt idx k u) in
  ∃ res u2,
    UTXOSet.spendUTXO ω address amt (tick_now k) u1 = Returned res (tick_now k) u2
    ∧ UTXOSet.change res = 0 ∧ UTXOSet.totalSpent res = amt
    ∧ UTXOSet.getUTXOs u2 address = []
    ∧ UTXOSet.getBalance u2 address = 0
    ∧ ∀ a, a ≠ address →
           UTXOSet.getUTXOs u2 a = UTXOSet.getUTXOs u a
           ∧ UTXOSet.getBalance u2 a = UTXOSet.getBalance u a.
Proof.
  intros Hpos Hnone Hzero. rewrite addUTXO_run. simpl. rewrite Hnone, Hzero. simpl.
  eexists _, _. split.
  - unfold UTXOSet.spendUTXO, Js.bind, Js.get, Js.modify, Js.ret, Js.throw.
    unfold UTXOSet.getBalance at 1 2. unfold UTXOSet.getUTXOs at 1. simpl.
    rewrite !lookup_insert_eq. simpl. rewrite !Z.add_0_l, Z.ltb_irrefl.
    destruct (Z.leb_spec amt 0); [lia|]. cbv beta iota zeta. simpl.
    rewrite ?Z.add_0_l, ?Z.add_0_r, Z.sub_diag. simpl. rewrite ?lookup_insert_eq.
    reflexivity.
  - simpl. unfold UTXOSet.getBalance, UTXOSet.getUTXOs. simpl.
    rewrite !lookup_insert_eq. simpl.
    unfold UTXOSet.remove_spent, UTXOSet.same_output. simpl.
    rewrite String.eqb_refl, Z.eqb_refl. simpl.
    repeat split; try done; try lia.
    + by rewrite !lookup_insert_ne by done.
    + by rewrite !lookup_insert_ne by done.
Qed.

End EmptyAgain.

Lemma handleRequest_spec_witness :
  P2PNetwork.wire
    (state_of (@P2PNetwork.handleMessage Run.host Run.json Run.ω "P"
                 P2PNetwork.REQUEST_LATEST_BLOCK P2PNetwork.NoData ticks0
                 (Run.net Run.node_idle)))
  = [{| P2PNetwork.dest := "P"; P2PNetwork.type := P2PNetwork.RECEIVE_LATEST_BLOCK;
        P2PNetwork.data := P2PNetwork.BlockData Run.genesis;
        P2PNetwork.timestamp := 1000 |}].
Proof.
  exact (f_equal P2PNetwork.wire
           (proj2 (@handleRequest_spec Run.host Run.json Run.ω ticks0
                     (Run.net Run.node_idle) "P" 0 Run.peerP Run.genesis P2PNetwork.NoData
                     eq_refl eq_refl))).
Defined.

Lemma spendUTXO_after_addUTXO_witness :
  ∃ res u2,
    UTXOSet.spendUTXO Run.ω Run.M_addr 100 (tick_now ticks0) (Run.ledger_with 100)
    = Returned res (tick_now ticks0) u2
    ∧ UTXOSet.getUTXOs u2 Run.M_addr = []
    ∧ UTXOSet.getBalance u2 Run.M_addr = 0.
Proof.
  destruct (spendUTXO_after_addUTXO Run.ω Run.M_addr "g" 100 0 ticks0 UTXOSet.empty)
    as (res & u2 & Hrun & _ & _ & Hout & Hbal & _).
  - lia.
  - reflexivity.
  - reflexivity.
  - exists res, u2. by repeat split.
Defined.

(** ** The pool after mining, and ledgers of coinbases only *)

Section PoolAndCoinbases.
Context `{Host} `{Json}.
Variable ω : Oracle.

(** X28. The pool after [mineBlock] has returned a block: it is the pool
    from before without the transactions whose id is a non-empty id of a
    transaction of the block, the others in their order; the chain is the
    old chain with the block appended. So no selected transaction with a
    non-empty id stays pending. *)
Theorem mineBlock_pool (fuel : nat) (minerAddress : option string) (k k' : Ticks)
    (bc bc' : Blockchain.t) (mined : Blockchain.Mined) :
  Blockchain.mineBlock ω fuel minerAddress k bc = Returned (Some mined) k' bc' →
  let ids := map Transaction.txId
                 (filter (λ tx, truthy (Transaction.txId tx) = true)
                         (Block.transactions (Blockchain.block mined))) in
  Blockchain.chain bc' = Blockchain.chain bc ++ [Blockchain.block mined]
  ∧ Blockchain.pendingTransactions bc'
    = filter (λ tx, Transaction.txId tx ∉ ids) (Blockchain.pendingTransactions bc)
  ∧ ∀ tx, tx ∈ Blockchain.sortedPending bc → Transaction.txId tx ≠ EmptyString →
          tx ∉ Blockchain.pendingTransactions bc'.
Proof.
  intros Hrun.
  assert (Hshape : ∃ cb, Block.transactions (Blockchain.block mined)
                         = cb :: Blockchain.sortedPending bc).
  { revert Hrun.
    unfold Blockchain.mineBlock, Transaction.createCoinbaseTransaction, Transaction.new,
      Js.bind, Js.get, Date_now, Blockchain.selectTransactionsForBlock. simpl.
    rewrite selectTransactionsForBlock_fold. simpl.
    destruct (Blockchain.getLatestBlock bc) as [latest|]; [|done].
    destruct (Block.mineBlock fuel _ _) as [nb|] eqn:Hmine; [|done].
    apply Block_mineBlock_transactions in Hmine. simpl in Hmine.
    destruct (Blockchain.isValidNewBlock bc nb latest) as [[]|]; simpl; try done.
    unfold Blockchain.on_utxoSet, Js.zoom. simpl.
    destruct (Js.for_of _ _ _ _) as [[] k1 u1|]; [|done].
    match goal with
    | |- context [Blockchain.adjustDifficulty k1 ?s] =>
      destruct (Blockchain.adjustDifficulty k1 s) as [[] k3 bc3|]; [|done]
    end.
    intros [= <- _ _]. simpl. rewrite Hmine. destruct (0 <? _); simpl; eauto. }
  revert Hrun.
  unfold Blockchain.mineBlock, Transaction.createCoinbaseTransaction, Transaction.new,
    Js.bind, Js.get, Date_now. simpl.
  destruct (Blockchain.selectTransactionsForBlock bc _) as [vt fees].
  destruct (Blockchain.getLatestBlock bc) as [latest|]; [|done].
  set (txs := if 0 <? fees then Blockchain.add_fees fees vt else vt).
  destruct (Block.mineBlock fuel _ _) as [nb|] eqn:Hmine; [|done].
  apply Block_mineBlock_transactions in Hmine. simpl in Hmine.
  destruct (Blockchain.isValidNewBlock bc nb latest) as [[]|]; simpl; try done.
  unfold Blockchain.on_utxoSet, Js.zoom. simpl.
  destruct (Js.for_of txs _ _ _) as [[] k1 u1|]; [|done].
  match goal with
  | |- context [Blockchain.adjustDifficulty k1 ?s] =>
    destruct (adjustDifficulty_keeps_pool k1 s) as [Hpool Hchain];
    destruct (Blockchain.adjustDifficulty k1 s) as [[] k3 bc3|]; [|done]
  end.
  simpl in *. intros [= <- _ <-]. simpl in *. rewrite Hchain, Hpool, Hmine.
  split; [done|]. split; [done|].
  intros tx Hsel Hne Hin. apply list_elem_of_filter in Hin as [Hnot _]. apply Hnot.
  destruct Hshape as [cb Hshape]. simpl in Hshape. rewrite Hmine in Hshape.
  apply list_elem_of_fmap. exists tx. split; [done|].
  apply list_elem_of_filter. split; [by apply truthy_true|].
  rewrite Hshape. by apply list_elem_of_further.
Qed.

(** X29. A ledger fed with coinbase transactions only is sound: the fold
    never throws, every address whose cached balance equalled the sum of
    its outputs before still does after, and [getTotalSupply] has grown
    by the sum of the amounts. *)
Theorem coinbase_fold_sound (txs : list Transaction.t) (k : Ticks) (u : UTXOSet.t) :
  Forall (λ tx, Transaction.fromAddress tx = None) txs →
  let out := Js.for_of txs (UTXOSet.processTransaction ω) k u in
  returns out = true
  ∧ (∀ a, Spec.balance_cached u a → Spec.balance_cached (state_of out) a)
  ∧ UTXOSet.getTotalSupply (state_of out)
    = UTXOSet.getTotalSupply u + foldr (λ tx acc, Transaction.amount tx + acc) 0 txs.
Proof.
  intros Hall. revert k u. induction Hall as [|tx txs Hcb _ IH]; intros k u.
  - simpl. repeat split; try done. lia.
  - pose proof (addUTXO_balance_cached ω (Transaction.toAddress tx) (Transaction.txId tx)
                  (Transaction.amount tx) 0 k u) as Hkeep.
    assert (Hstep : ∃ k1 u1,
              UTXOSet.addUTXO ω (Transaction.toAddress tx) (Transaction.txId tx)
                              (Transaction.amount tx) 0 k u = Returned tt k1 u1
              ∧ UTXOSet.getTotalSupply u1
                = UTXOSet.getTotalSupply u + Transaction.amount tx).
    { rewrite addUTXO_run. eexists _, _. split; [reflexivity|].
      unfold UTXOSet.getTotalSupply. simpl. rewrite supply_insert.
      unfold UTXOSet.getBalance. lia. }
    destruct Hstep as (k1 & u1 & Hadd & Hsup1). rewrite Hadd in Hkeep. simpl in Hkeep.
    assert (Hcons : Js.for_of (tx :: txs) (UTXOSet.processTransaction ω) k u
                    = Js.for_of txs (UTXOSet.processTransaction ω) k1 u1).
    { simpl. unfold Js.bind. unfold UTXOSet.processTransaction at 1.
      by rewrite Hcb, Hadd. }
    cbv zeta. rewrite Hcons.
    destruct (IH k1 u1) as (Hret & Hinv & Hsup).
    split; [done|]. split; [by auto|]. rewrite Hsup, Hsup1. simpl. lia.
Qed.

End PoolAndCoinbases.

Lemma mineBlock_pool_witness :
  ∃ mined k' bc',
    @Blockchain.mineBlock Run.host Run.json Run.ω 5 None ticks0 Run.node_c1
    = Returned (Some mined) k' bc'
    ∧ Blockchain.chain bc' = Blockchain.chain Run.node_c1 ++ [Blockchain.block mined]
    ∧ Blockchain.pendingTransactions bc' = [].
Proof.
  eexists _, _, _. split; [vm_compute; reflexivity|]. split.
  - refine (proj1 (@mineBlock_pool Run.host Run.json Run.ω 5 None ticks0 _
                     Run.node_c1 _ _ _)).
    vm_compute. reflexivity.
  - vm_compute. reflexivity.
Defined.

Lemma coinbase_fold_sound_witness :
  UTXOSet.getTotalSupply
    (state_of (Js.for_of [Run.coinbase Run.M_addr 50 "c"; Run.coinbase Run.A_addr 7 "d"]
                         (UTXOSet.processTransaction Run.ω) ticks0 (Run.ledger_with 100)))
  = UTXOSet.getTotalSupply (Run.ledger_with 100) + (50 + (7 + 0)).
Proof.
  refine (proj2 (proj2 (coinbase_fold_sound Run.ω
            [Run.coinbase Run.M_addr 50 "c"; Run.coinbase Run.A_addr 7 "d"]
            ticks0 (Run.ledger_with 100) _))).
  repeat constructor.
Defined.
